(** * pr-tracker: the stale pull-request detection pipeline

    A shallow embedding of the Go sources
      - [pkg/models]          (PullRequest, Participant, Comment,
                               FileNotificationStateStore),
      - [internal/bitbucket]  (FilterPRs, containsIgnoreKeyword, IsPRApproved,
                               CountApprovals, GetLastActivity),
      - [cmd/main.go]         (run: gate, check cycle, notification, wait),
    and of the parts of the Go standard library these functions call
    (package [strings], package [time]).

    Go [int] and [int64] values are integers of [Z]; wrap-around is written
    out where an operation can leave the 64-bit range.  Go strings are byte
    strings, here [string]. *)

From Stdlib Require Import ZArith QArith Qround Qpower Lia Bool List Ascii String.
From stdpp Require Import base option list strings gmap.

Local Open Scope Z_scope.

(** ** Package strings *)

Module strings.

(** [utf8.RuneSelf]: bytes below it are single-byte (ASCII) runes. *)
Definition RuneSelf : N := 128.

Definition isASCIIByte (c : ascii) : bool := (N_of_ascii c <? RuneSelf)%N.

Definition isUpperByte (c : ascii) : bool :=
  ((65 <=? N_of_ascii c) && (N_of_ascii c <=? 90))%N.

(** [c += 'a' - 'A'] on an upper-case ASCII byte. *)
Definition lowerByte (c : ascii) : ascii :=
  if isUpperByte c then ascii_of_N (N_of_ascii c + 32) else c.

Fixpoint isASCII (s : string) : bool :=
  match s with
  | EmptyString => true
  | String c s' => isASCIIByte c && isASCII s'
  end.

Fixpoint lowerASCII (s : string) : string :=
  match s with
  | EmptyString => EmptyString
  | String c s' => String (lowerByte c) (lowerASCII s')
  end.

(** [strings.ToLower].  A string made of ASCII bytes only is lowered byte
    by byte.  Any other string goes through [strings.Map(unicode.ToLower, s)],
    which rests on the Unicode case tables of the Go runtime: that path is
    the parameter [mapUnicodeToLower]. *)
Definition ToLower (mapUnicodeToLower : string -> string) (s : string) : string :=
  if isASCII s then lowerASCII s else mapUnicodeToLower s.

(** [strings.HasPrefix]. *)
Fixpoint HasPrefix (s prefix : string) {struct prefix} : bool :=
  match prefix, s with
  | EmptyString, _ => true
  | String _ _, EmptyString => false
  | String p prefix', String c s' => Ascii.eqb c p && HasPrefix s' prefix'
  end.

(** [strings.Contains(s, substr)], that is [strings.Index(s, substr) >= 0]:
    [substr] starts at some byte offset of [s]. *)
Fixpoint Contains (s substr : string) : bool :=
  HasPrefix s substr ||
  match s with
  | EmptyString => false
  | String _ s' => Contains s' substr
  end.

End strings.

(** ** float64 arithmetic

    A finite [float64] is kept as the rational number it denotes.  An IEEE 754
    operation returns the exact result rounded to the nearest binary64 value,
    ties to even ([round64]).  The magnitudes met in this program stay far
    below [2^1024], so no operation overflows to an infinity, and no divisor
    is zero. *)

Module float64.

(** Nearest integer to [n/d] for [0 <= n], [0 < d], ties to even. *)
Definition roundHalfEven (n d : Z) : Z :=
  let k := n / d in
  match 2 * (n mod d) ?= d with
  | Lt => k
  | Gt => k + 1
  | Eq => if Z.even k then k else k + 1
  end.

(** [a / b >= 2^e], for [0 < a], [0 < b]. *)
Definition geqPow2 (a b e : Z) : bool :=
  b * 2 ^ Z.max 0 e <=? a * 2 ^ Z.max 0 (- e).

(** [floor (log2 (a/b))] for [0 < a], [0 < b]. *)
Definition ilog2 (a b : Z) : Z :=
  let e0 := Z.log2 a - Z.log2 b in
  if geqPow2 a b e0 then e0 else e0 - 1.

(** Exponent of the unit in the last place of the binade of [a/b]:
    53 significant bits, subnormals below [2^-1022]. *)
Definition ulpExp (a b : Z) : Z := Z.max (ilog2 a b - 52) (-1074).

(** Rounding of a non-negative rational [a/b] to binary64. *)
Definition roundPos (a b : Z) : Q :=
  let q := ulpExp a b in
  let m := roundHalfEven (a * 2 ^ Z.max 0 (- q)) (b * 2 ^ Z.max 0 q) in
  Qmake (m * 2 ^ Z.max 0 q) (Z.to_pos (2 ^ Z.max 0 (- q))).

Definition round64 (x : Q) : Q :=
  match Qnum x with
  | Z0 => 0%Q
  | Zpos a => roundPos (Zpos a) (Zpos (Qden x))
  | Zneg a => Qopp (roundPos (Zpos a) (Zpos (Qden x)))
  end.

(** [float64(z)] for an integer [z]. *)
Definition ofInt (z : Z) : Q := round64 (inject_Z z).

Definition add (x y : Q) : Q := round64 (Qplus x y).

Definition div (x y : Q) : Q := round64 (Qdiv x y).

(** [int(f)]: the fraction is discarded (truncation toward zero). *)
Definition toInt (f : Q) : Z := Z.quot (Qnum f) (Zpos (Qden f)).

End float64.

(** ** Package time (Go standard library)

    Only the wall-clock part of [time.Time] is kept: [sec] counts seconds
    since January 1, year 1 00:00:00 UTC and [nsec] is the nanosecond offset
    within the second, in [0, 999999999].  No operation below is ever applied
    to two values that both carry a monotonic clock reading (one operand is
    always built from a Unix timestamp, parsed from text or read from the
    checkpoint file), so Go takes the wall-clock branch throughout. *)

Module time.

Record Time := mkTime { sec : Z; nsec : Z }.

(** The zero value [time.Time{}]. *)
Definition zeroTime : Time := mkTime 0 0.

(** A [*time.Location] is used only through its zone lookup: the offset in
    seconds east of UTC in force at a Unix time. *)
Record Location := { lookup : Z -> Z }.

Definition UTC : Location := {| lookup := fun _ => 0 |}.

(** [time.FixedZone]. *)
Definition FixedZone (offset : Z) : Location := {| lookup := fun _ => offset |}.

(** *** Durations: [int64] nanosecond counts *)

Definition Nanosecond : Z := 1.
Definition Microsecond : Z := 1000 * Nanosecond.
Definition Millisecond : Z := 1000 * Microsecond.
Definition Second : Z := 1000 * Millisecond.
Definition Minute : Z := 60 * Second.
Definition Hour : Z := 60 * Minute.

Definition minDuration : Z := - 2 ^ 63.
Definition maxDuration : Z := 2 ^ 63 - 1.

(** Two's-complement wrap-around of 64-bit signed arithmetic. *)
Definition wrap64 (z : Z) : Z := (z + 2 ^ 63) mod 2 ^ 64 - 2 ^ 63.

Definition unixToInternal : Z := (1969 * 365 + 1969 / 4 - 1969 / 100 + 1969 / 400) * 86400.

Definition unixTime (sec nsec : Z) : Time := mkTime (sec + unixToInternal) nsec.

(** [time.Unix]: [nsec] outside [0, 999999999] is carried into [sec].
    Go's [/] truncates toward zero ([Z.quot]). *)
Definition Unix (sec nsec : Z) : Time :=
  if (nsec <? 0) || (1000000000 <=? nsec) then
    let n := Z.quot nsec 1000000000 in
    let sec := sec + n in
    let nsec := nsec - n * 1000000000 in
    if nsec <? 0 then unixTime (sec - 1) (nsec + 1000000000)
    else unixTime sec nsec
  else unixTime sec nsec.

(** [time.UnixMilli]: [Unix(msec/1e3, (msec%1e3)*1e6)]. *)
Definition UnixMilli (msec : Z) : Time :=
  Unix (Z.quot msec 1000) (Z.rem msec 1000 * 1000000).

Definition unixSec (t : Time) : Z := sec t - unixToInternal.

(** [Time.IsZero]: January 1, year 1, 00:00:00 UTC. *)
Definition IsZero (t : Time) : bool := (sec t =? 0) && (nsec t =? 0).

Definition After (t u : Time) : bool :=
  (sec t >? sec u) || ((sec t =? sec u) && (nsec t >? nsec u)).

Definition Before (t u : Time) : bool :=
  (sec t <? sec u) || ((sec t =? sec u) && (nsec t <? nsec u)).

Definition Equal (t u : Time) : bool :=
  (sec t =? sec u) && (nsec t =? nsec u).

(** [Time.addSec]: the seconds saturate instead of wrapping. *)
Definition addSec (t : Time) (d : Z) : Time :=
  let sum := wrap64 (sec t + d) in
  if Bool.eqb (sum >? sec t) (d >? 0) then mkTime sum (nsec t)
  else if d >? 0 then mkTime (2 ^ 63 - 1) (nsec t)
  else mkTime (- (2 ^ 63 - 1)) (nsec t).

(** [Time.Add]. *)
Definition Add (t : Time) (d : Z) : Time :=
  let dsec := Z.quot d 1000000000 in
  let nsec := nsec t + Z.rem d 1000000000 in
  if nsec >=? 1000000000 then addSec (mkTime (sec t) (nsec - 1000000000)) (dsec + 1)
  else if nsec <? 0 then addSec (mkTime (sec t) (nsec + 1000000000)) (dsec - 1)
  else addSec (mkTime (sec t) nsec) dsec.

(** [Time.Sub]: the difference [t - u] as a Duration, saturated to
    [minDuration] or [maxDuration] when it does not fit. *)
Definition Sub (t u : Time) : Z :=
  let d := wrap64 (wrap64 (wrap64 (sec t - sec u) * Second) + (nsec t - nsec u)) in
  if Equal (Add u d) t then d
  else if Before t u then minDuration
  else maxDuration.

(** [time.Since(t)] is [time.Now().Sub(t)]; the clock reading is the
    argument [now]. *)
Definition Since (now t : Time) : Z := Sub now t.

(** *** Calendar

    Go renders instants in the proleptic Gregorian calendar.  Days are
    counted from January 1, 1970; a year is split in eras of 400 years
    (146097 days) that start on March 1, so that the leap day comes
    last. *)

Definition secondsPerDay : Z := 86400.

Definition isLeap (year : Z) : bool :=
  (year mod 4 =? 0) && (negb (year mod 100 =? 0) || (year mod 400 =? 0)).

(** [daysIn(month, year)]. *)
Definition daysIn (month year : Z) : Z :=
  if month =? 2 then (if isLeap year then 29 else 28)
  else if (month =? 4) || (month =? 6) || (month =? 9) || (month =? 11) then 30
  else 31.

Definition daysPer400Years : Z := 146097.

(** Civil date of the day [doe] of an era, the years counted from the
    start of the era. *)
Definition civilOfEraDay (doe : Z) : Z * Z * Z :=
  let yoe := (doe - doe / 1460 + doe / 36524 - doe / 146096) / 365 in
  let doy := doe - (365 * yoe + yoe / 4 - yoe / 100) in
  let mp := (5 * doy + 2) / 153 in
  let d := doy - (153 * mp + 2) / 5 + 1 in
  let m := if mp <? 10 then mp + 3 else mp - 9 in
  (if m <=? 2 then yoe + 1 else yoe, m, d).

(** Civil date [(year, month, day)] of a day number. *)
Definition civilFromDays (days : Z) : Z * Z * Z :=
  let z := days + 719468 in
  let era := z / daysPer400Years in
  let doe := z - era * daysPer400Years in
  let '(y, m, d) := civilOfEraDay doe in
  (y + era * 400, m, d).

(** Day number of a civil date. *)
Definition daysFromCivil (year month day : Z) : Z :=
  let y := if month <=? 2 then year - 1 else year in
  let era := y / 400 in
  let yoe := y - era * 400 in
  let mp := if month >? 2 then month - 3 else month + 9 in
  let doy := (153 * mp + 2) / 5 + day - 1 in
  let doe := yoe * 365 + yoe / 4 - yoe / 100 + doy in
  era * 146097 + doe - 719468.

(** [time.Date(year, month, day, hour, min, sec, nsec, UTC)] for fields
    that are in range (the parsers below validate them first). *)
Definition Date (year month day hour min sec nsec : Z) : Time :=
  unixTime (daysFromCivil year month day * secondsPerDay
            + hour * 3600 + min * 60 + sec) nsec.

(** *** Formatting *)

Definition digit (d : Z) : ascii := ascii_of_N (48 + Z.to_N d).

(** Decimal digits of [u >= 0], most significant first; [fuel] bounds the
    number of digits. *)
Fixpoint digitsFuel (fuel : nat) (u : Z) (acc : string) : string :=
  match fuel with
  | O => acc
  | S fuel' =>
      let acc' := String (digit (u mod 10)) acc in
      if u / 10 =? 0 then acc' else digitsFuel fuel' (u / 10) acc'
  end.

Definition decimal (u : Z) : string := digitsFuel (S (Z.to_nat (Z.log2 u))) u "".

Fixpoint zeros (n : nat) : string :=
  match n with
  | O => ""
  | S n' => String "0" (zeros n')
  end.

Definition twoDigits (u : Z) : string :=
  String (digit (u / 10)) (String (digit (u mod 10)) "").

Definition fourDigits (u : Z) : string :=
  String (digit (u / 1000)) (String (digit (u / 100 mod 10))
    (String (digit (u / 10 mod 10)) (String (digit (u mod 10)) ""))).

(** [appendInt(b, x, width)]: [x] in decimal, zero-padded to [width]
    digits, after a minus sign when negative; fields of two and of four
    digits take a short cut. *)
Definition appendInt (x : Z) (width : nat) : string :=
  let u := Z.abs x in
  (if x <? 0 then "-" else "") ++
  (if (width =? 2)%nat && (u <? 100) then twoDigits u
   else if (width =? 4)%nat && (u <? 10000) then fourDigits u
   else let ds := decimal u in zeros (width - String.length ds) ++ ds).

(** [Time.Format(time.RFC3339)], layout [2006-01-02T15:04:05Z07:00], of a
    Time whose location is [loc]. *)
Definition FormatRFC3339 (loc : Location) (t : Time) : string :=
  let offset := lookup loc (unixSec t) in
  let abs := unixSec t + offset in
  let '(year, month, day) := civilFromDays (abs / secondsPerDay) in
  let secOfDay := abs mod secondsPerDay in
  let hour := secOfDay / 3600 in
  let min := (secOfDay mod 3600) / 60 in
  let sec := secOfDay mod 60 in
  appendInt year 4 ++ "-" ++ appendInt month 2 ++ "-" ++ appendInt day 2 ++ "T"
  ++ appendInt hour 2 ++ ":" ++ appendInt min 2 ++ ":" ++ appendInt sec 2
  ++ (if offset =? 0 then "Z"
      else
        let zone := Z.quot offset 60 in
        (if zone <? 0 then "-" else "+")
        ++ appendInt (Z.quot (Z.abs zone) 60) 2 ++ ":"
        ++ appendInt (Z.rem (Z.abs zone) 60) 2).

(** *** Parsing *)

Definition isDigitByte (c : ascii) : bool :=
  ((48 <=? N_of_ascii c) && (N_of_ascii c <=? 57))%N.

Definition digitVal (c : ascii) : Z := Z.of_N (N_of_ascii c) - 48.

Fixpoint parseDigits (s : string) (x : Z) : option Z :=
  match s with
  | EmptyString => Some x
  | String c s' =>
      if isDigitByte c then parseDigits s' (x * 10 + digitVal c) else None
  end.

(** The [parseUint] closure of [parseRFC3339]: an unsigned decimal integer
    within [min, max]. *)
Definition parseUint (s : string) (min max : Z) : option Z :=
  x ← parseDigits s 0;
  if (x <? min) || (max <? x) then None else Some x.

(** [s[i:j]] and [s[i:]] for indices within the string. *)
Definition slice (s : string) (i j : nat) : string := String.substring i (j - i) s.
Definition drop (s : string) (i : nat) : string := String.substring i (String.length s - i) s.

Definition byteIs (s : string) (i : nat) (c : ascii) : bool :=
  match String.get i s with
  | Some c' => Ascii.eqb c' c
  | None => false
  end.

(** [isDigit(s, i)]: false when [i] is past the end. *)
Definition isDigit (s : string) (i : nat) : bool :=
  match String.get i s with
  | Some c => isDigitByte c
  | None => false
  end.

(** Leading run of digits of [s], split off. *)
Fixpoint spanDigits (s : string) : string * string :=
  match s with
  | EmptyString => (EmptyString, EmptyString)
  | String c s' =>
      if isDigitByte c then let '(ds, rest) := spanDigits s' in (String c ds, rest)
      else (EmptyString, s)
  end.

(** Fractional second [.ddd...] at the head of [s] (the separator is
    already checked): the first nine digits give the nanoseconds, the
    whole run of digits is consumed. *)
Definition parseFraction (s : string) : option (Z * string) :=
  let '(ds, rest) := spanDigits (drop s 1) in
  let ds9 := String.substring 0 9 ds in
  ns ← parseDigits ds9 0;
  Some (ns * 10 ^ Z.of_nat (9 - String.length ds9), rest).

(** [parseRFC3339]: the strict fast path of [time.Parse]. *)
Definition parseRFC3339 (s : string) : option Time :=
  if (String.length s <? 19)%nat then None else
  year ← parseUint (slice s 0 4) 0 9999;
  month ← parseUint (slice s 5 7) 1 12;
  day ← parseUint (slice s 8 10) 1 (daysIn month year);
  hour ← parseUint (slice s 11 13) 0 23;
  min ← parseUint (slice s 14 16) 0 59;
  sec ← parseUint (slice s 17 19) 0 59;
  if negb (byteIs s 4 "-" && byteIs s 7 "-" && byteIs s 10 "T"
           && byteIs s 13 ":" && byteIs s 16 ":") then None else
  let s := drop s 19 in
  '(nsec, s) ← (if (2 <=? String.length s)%nat && byteIs s 0 "." && isDigit s 1
                then parseFraction s else Some (0, s));
  let t := Date year month day hour min sec nsec in
  if (String.length s =? 1)%nat && byteIs s 0 "Z" then Some t else
  if negb (String.length s =? 6)%nat then None else
  hr ← parseUint (slice s 1 3) 0 23;
  mm ← parseUint (slice s 4 6) 0 59;
  if negb ((byteIs s 0 "-" || byteIs s 0 "+") && byteIs s 3 ":") then None else
  let zoneOffset := (hr * 60 + mm) * 60 in
  let zoneOffset := if byteIs s 0 "-" then - zoneOffset else zoneOffset in
  Some (addSec t (- zoneOffset)).

(** [skip(value, prefix)] for a one-byte literal of the layout. *)
Definition skip (value : string) (c : ascii) : option string :=
  match value with
  | String c' rest => if Ascii.eqb c' c then Some rest else None
  | EmptyString => None
  end.

(** [getnum(s, fixed)]: one or two digits, exactly two when [fixed]. *)
Definition getnum (s : string) (fixed : bool) : option (Z * string) :=
  match s with
  | String c0 s1 =>
      if negb (isDigitByte c0) then None else
      match s1 with
      | String c1 s2 =>
          if isDigitByte c1 then Some (digitVal c0 * 10 + digitVal c1, s2)
          else if fixed then None else Some (digitVal c0, s1)
      | EmptyString => if fixed then None else Some (digitVal c0, s1)
      end
  | EmptyString => None
  end.

(** The general layout-driven [parse], unfolded for the layout
    [2006-01-02T15:04:05Z07:00]: [time.Parse] falls back to it when the
    fast path rejects the value. *)
Definition parseLayoutRFC3339 (value : string) : option Time :=
  if (String.length value <? 4)%nat || negb (isDigit value 0) then None else
  year ← parseDigits (slice value 0 4) 0;
  value ← skip (drop value 4) "-";
  '(month, value) ← getnum value true;
  if (month <=? 0) || (12 <? month) then None else
  value ← skip value "-";
  '(day, value) ← getnum value true;
  value ← skip value "T";
  '(hour, value) ← getnum value false;
  if 24 <=? hour then None else
  value ← skip value ":";
  '(min, value) ← getnum value true;
  if 60 <=? min then None else
  value ← skip value ":";
  '(sec, value) ← getnum value true;
  if 60 <=? sec then None else
  '(nsec, value) ← (if (2 <=? String.length value)%nat
                       && (byteIs value 0 "." || byteIs value 0 ",")
                       && isDigit value 1
                    then parseFraction value else Some (0, value));
  '(zoneOffset, value) ←
    (if byteIs value 0 "Z" then Some (0, drop value 1)
     else if (String.length value <? 6)%nat then None
     else if negb (byteIs value 3 ":") then None
     else
       '(hr, _) ← getnum (slice value 1 3) true;
       '(mm, _) ← getnum (slice value 4 6) true;
       if (24 <? hr) || (60 <? mm) then None else
       let zoneOffset := (hr * 60 + mm) * 60 in
       if byteIs value 0 "+" then Some (zoneOffset, drop value 6)
       else if byteIs value 0 "-" then Some (- zoneOffset, drop value 6)
       else None);
  if negb (String.length value =? 0)%nat then None else
  if (day <? 1) || (daysIn month year <? day) then None else
  Some (addSec (Date year month day hour min sec nsec) (- zoneOffset)).

(** [time.Parse(time.RFC3339, value)]; [None] stands for a non-nil
    error. *)
Definition ParseRFC3339 (value : string) : option Time :=
  match parseRFC3339 value with
  | Some t => Some t
  | None => parseLayoutRFC3339 value
  end.

(** [Duration.Hours]: the duration as a floating-point number of hours. *)
Definition Hours (d : Z) : Q :=
  let hour := Z.quot d Hour in
  let nsec := Z.rem d Hour in
  float64.add (float64.ofInt hour)
              (float64.div (float64.ofInt nsec) (float64.ofInt (60 * 60 * 1000000000))).

End time.

(** ** Package models *)

Module models.

Record Link := { Href : string }.

Record AuthorUser := {
  AuthorDisplayName : string;
  AuthorUsername : string }.

Record Author := {
  AuthorUserOf : AuthorUser;
  AuthorRole : string;
  AuthorApproved : bool;
  AuthorStatus : string }.

Record ParticipantUser := {
  UserDisplayName : string;
  UserUsername : string;
  UserEmail : string;
  UserActive : bool;
  UserID : Z;
  UserSlug : string;
  UserType : string;
  UserLinksSelf : list Link }.

(** Participant represents a PR participant (reviewer, author, etc.) *)
Record Participant := {
  User : ParticipantUser;
  Role : string;
  Approved : bool;
  Status : string }.

(** PullRequest represents a Bitbucket pull request; the dates are Unix
    timestamps in milliseconds ([int64]). *)
Record PullRequest := {
  ID : Z;
  Title : string;
  Description : string;
  State : string;
  Open : bool;
  Closed : bool;
  CreatedDate : Z;
  UpdatedDate : Z;
  PRAuthor : Author;
  Participants : list Participant;
  LinksSelf : list Link }.

Record CommentUser := {
  CommentDisplayName : string;
  CommentUsername : string;
  CommentEmail : string }.

(** Comment represents a PR comment/activity. *)
Record Comment := {
  CommentID : Z;
  Content : string;
  CommentCreatedDate : Z;
  CommentUpdatedDate : Z;
  CommentUserOf : CommentUser }.

End models.

Import models.

(** ** Package bitbucket: keyword filter and approval evaluator *)

Module bitbucket.

Section Filter.

Variable mapUnicodeToLower : string -> string.

Abbreviation ToLower := (strings.ToLower mapUnicodeToLower).

(** The [for _, kw := range keywords] loop of [containsIgnoreKeyword],
    with [titleLower] already computed. *)
Fixpoint containsLoop (titleLower : string) (keywords : list string) : bool :=
  match keywords with
  | [] => false
  | kw :: rest =>
      if strings.Contains titleLower (ToLower kw) then true
      else containsLoop titleLower rest
  end.

(** containsIgnoreKeyword checks if the title contains any forbidden keyword *)
Definition containsIgnoreKeyword (title : string) (keywords : list string) : bool :=
  let titleLower := ToLower title in
  containsLoop titleLower keywords.

(** FilterPRs filters PRs by ignored keywords: the loop appends every PR
    whose title has no forbidden keyword to [filtered]. *)
Definition FilterPRs (prs : list PullRequest) (ignoreKeywords : list string)
  : list PullRequest :=
  fold_left
    (fun filtered pr =>
       if containsIgnoreKeyword (Title pr) ignoreKeywords then filtered
       else filtered ++ [pr])
    prs [].

End Filter.

Definition REVIEWER : string := "REVIEWER".

(** IsPRApproved checks if PR is approved by all reviewers *)
Fixpoint IsPRApproved (participants : list Participant) : bool :=
  match participants with
  | [] => true
  | p :: rest =>
      if String.eqb (Role p) REVIEWER && negb (Approved p) then false
      else IsPRApproved rest
  end.

(** CountApprovals counts the number of approved reviewers; the result is
    the pair [(approved, total)]. *)
Definition CountApprovals (participants : list Participant) : Z * Z :=
  fold_left
    (fun '(approved, total) p =>
       if String.eqb (Role p) REVIEWER then
         (if Approved p then approved + 1 else approved, total + 1)
       else (approved, total))
    participants (0, 0).

(** The [for _, c := range comments] loop of [GetLastActivity]: a comment's
    [UpdatedDate] replaces [last] when it is after it. *)
Definition scanComments (last : time.Time) (comments : list Comment) : time.Time :=
  fold_left
    (fun last c =>
       let commentTime := time.UnixMilli (CommentUpdatedDate c) in
       if time.After commentTime last then commentTime else last)
    comments last.

(** The value of [last] when [GetLastActivity] leaves its loop (past the
    first guard). *)
Definition lastActivityTime (pr : PullRequest) (comments : list Comment) : time.Time :=
  let lastUpdated := time.UnixMilli (UpdatedDate pr) in
  let lastCreated := time.UnixMilli (CreatedDate pr) in
  let last := lastUpdated in
  let last := if time.IsZero last then lastCreated else last in
  scanComments last comments.

(** GetLastActivity returns the last activity date.  [time.UnixMilli]
    attaches the process's local zone [Local] to the Times it builds, and
    [Format] renders the result in that zone. *)
Definition GetLastActivity (Local : time.Location)
    (pr : PullRequest) (comments : list Comment) : string :=
  if (UpdatedDate pr =? 0) && (CreatedDate pr =? 0) then ""
  else
    let last := lastActivityTime pr comments in
    if time.IsZero last then ""
    else time.FormatRFC3339 Local last.

End bitbucket.

(** ** Package config *)

Module config.

Record BitbucketConfig := {
  Domain : string;
  Port : Z;
  Workspace : string;
  BitbucketUser : string;
  AppPassword : string;
  Repositories : list string }.

Record PRFilterConfig := {
  IgnoreKeywords : list string;
  StaleAfterDays : Z }.

Record TeamsConfig := { WebhookURL : string }.

Record NotificationConfig := { IntervalHours : Z }.

(** Config represents the application configuration (the SMTP and log
    sections are not read by [run]). *)
Record Config := {
  Bitbucket : BitbucketConfig;
  PRFilter : PRFilterConfig;
  Teams : TeamsConfig;
  Notification : NotificationConfig }.

End config.

(** ** Errors and results *)

Inductive error := errorString (msg : string).

Inductive Result (A : Type) :=
  | Ok (a : A)
  | Err (e : error).

Arguments Ok {A} a.
Arguments Err {A} e.

(** ** The checkpoint store ([models.FileNotificationStateStore])

    The file holds the JSON encoding of a [time.Time]; its content is kept
    as the instant it encodes. *)

Module store.

Inductive FileContent :=
  | Unreadable                    (* [ioutil.ReadFile] fails: no such file, ... *)
  | Malformed                     (* the bytes are not a JSON timestamp *)
  | Timestamp (t : time.Time).

(** GetLastNotificationTime retrieves the last notification time from file *)
Definition GetLastNotificationTime (file : FileContent) : Result time.Time :=
  match file with
  | Unreadable => Ok time.zeroTime   (* Return zero time if file doesn't exist *)
  | Malformed => Err (errorString "error parsing timestamp")
  | Timestamp t => Ok t
  end.

(** The message of an error, its [Error()]. *)
Definition Error (e : error) : string :=
  match e with errorString msg => msg end.

(** How [ioutil.WriteFile] leaves the file when it fails: it opens the
    file, which truncates it, writes the bytes and closes it. *)
Inductive Leftover :=
  | Untouched      (* the file could not be opened *)
  | Truncated      (* opened, then not all bytes written: empty or partial *)
  | Written.       (* all bytes written, then the close failed *)

(** What goes wrong in [SetLastNotificationTime]. *)
Inductive Failure :=
  | MarshalError (err : error)                       (* [json.Marshal] *)
  | WriteFileError (err : error) (state : Leftover).  (* [ioutil.WriteFile] *)

(** The file after a failed save of [t].  No part of the JSON encoding of
    a time is a JSON value itself, so a truncated file is malformed. *)
Definition leftover (failure : Failure) (t : time.Time) (file : FileContent)
  : FileContent :=
  match failure with
  | MarshalError _ => file
  | WriteFileError _ Untouched => file
  | WriteFileError _ Truncated => Malformed
  | WriteFileError _ Written => Timestamp t
  end.

(** SetLastNotificationTime saves the current time as last notification
    time.  [failure] is what goes wrong, if anything does. *)
Definition SetLastNotificationTime (failure : option Failure) (t : time.Time)
    (file : FileContent) : option error * FileContent :=
  match failure with
  | Some (MarshalError err) =>
      (Some (errorString ("error marshaling timestamp: " ++ Error err)),
       leftover (MarshalError err) t file)
  | Some (WriteFileError err state) =>
      (Some (errorString ("error writing timestamp file: " ++ Error err)),
       leftover (WriteFileError err state) t file)
  | None => (None, Timestamp t)
  end.

End store.

(** ** cmd/main.go: the monitoring loop *)

Module main.

Import config.

(** *** The outside world

    What [run] does to its surroundings is kept in a [World]: how often the
    wall clock was read, the checkpoint file, the requests sent to the
    Bitbucket server, the [slog] records [run] writes itself (not those of
    the client and of the notifiers) and the notifications handed to the
    channels (all most recent last). *)

Inductive Level := INFO | WARN | ERROR.

Record LogEntry := { level : Level; msg : string }.

Inductive Request :=
  | ReqListOpenPRs (repo : string)
  | ReqGetParticipants (repo : string) (prID : Z)
  | ReqGetComments (repo : string) (prID : Z).

Record NotifyCall := {
  channel : string;
  notifiedPRs : list PullRequest;
  notifiedRepoPRs : gmap string (list PullRequest);
  notifiedParticipants : gmap Z (list Participant);
  notifiedStaleAfterDays : Z }.

Record World := {
  clockReads : nat;
  file : store.FileContent;
  requests : list Request;
  logs : list LogEntry;
  sent : list NotifyCall }.

(** A [notifier.Notifier]: its only method, [Notify]. *)
Record Notifier := {
  name : string;
  Notify : list PullRequest -> gmap string (list PullRequest) ->
           gmap Z (list Participant) -> Z -> option error }.

(** The [*bitbucket.Client] as [run] sees it: the answer of the server,
    pagination resolved, or the error of the call. *)
Record Client := {
  ListOpenPRs : string -> Result (list PullRequest);
  GetParticipants : string -> Z -> Result (list Participant);
  GetComments : string -> Z -> Result (list Comment) }.

(** What one loop iteration finds around it. *)
Record Env := {
  Local : time.Location;                 (* the local time zone *)
  unicodeToLower : string -> string;     (* Unicode case mapping of the runtime *)
  Now : nat -> time.Time;                (* the n-th reading of the wall clock *)
  bitbucketClient : Client;
  NewEmailNotifier : Notifier;
  NewTeamsNotifier : Notifier;
  writeFailure : time.Time -> option store.Failure;  (* failure of the checkpoint write *)
  doneAtTop : bool;                      (* [ctx.Done()] is ready at the top *)
  doneInWait : bool }.                   (* [ctx.Done()] wins the wait *)

Definition slog (l : Level) (m : string) (w : World) : World :=
  {| clockReads := clockReads w; file := file w; requests := requests w;
     logs := logs w ++ [{| level := l; msg := m |}]; sent := sent w |}.

Definition send (r : Request) (w : World) : World :=
  {| clockReads := clockReads w; file := file w; requests := requests w ++ [r];
     logs := logs w; sent := sent w |}.

Definition setFile (f : store.FileContent) (w : World) : World :=
  {| clockReads := clockReads w; file := f; requests := requests w;
     logs := logs w; sent := sent w |}.

Definition record (n : NotifyCall) (w : World) : World :=
  {| clockReads := clockReads w; file := file w; requests := requests w;
     logs := logs w; sent := sent w ++ [n] |}.

(** [time.Now()]. *)
Definition readClock (env : Env) (w : World) : time.Time * World :=
  (Now env (clockReads w),
   {| clockReads := S (clockReads w); file := file w; requests := requests w;
      logs := logs w; sent := sent w |}).

(** *** The check cycle *)

(** [allPRsToNotify], [repoPRsToNotify] and [prParticipants]. *)
Record Batch := {
  allPRsToNotify : list PullRequest;
  repoPRsToNotify : gmap string (list PullRequest);
  prParticipants : gmap Z (list Participant) }.

Definition emptyBatch : Batch :=
  {| allPRsToNotify := []; repoPRsToNotify := ∅; prParticipants := ∅ |}.

(** [int(time.Since(lastTime).Hours() / 24)] *)
Definition daysWithoutActivity (now lastTime : time.Time) : Z :=
  float64.toInt (float64.div (time.Hours (time.Since now lastTime)) (24 # 1)).

(** [daysWithoutActivity >= cfg.PRFilter.StaleAfterDays] *)
Definition isStale (cfg : Config) (now lastTime : time.Time) : bool :=
  daysWithoutActivity now lastTime >=? StaleAfterDays (PRFilter cfg).

(** The body of [for _, pr := range filtered]. *)
Definition processPR (cfg : Config) (env : Env) (repo : string)
    (st : Batch * World) (pr : PullRequest) : Batch * World :=
  let '(b, w) := st in
  let w := send (ReqGetParticipants repo (ID pr)) w in
  match GetParticipants (bitbucketClient env) repo (ID pr) with
  | Err _ => (b, slog ERROR "Error fetching PR participants" w)
  | Ok participants =>
      let b := {| allPRsToNotify := allPRsToNotify b;
                  repoPRsToNotify := repoPRsToNotify b;
                  prParticipants := <[ID pr := participants]> (prParticipants b) |} in
      if bitbucket.IsPRApproved participants then (b, w)
      else
        let w := send (ReqGetComments repo (ID pr)) w in
        match GetComments (bitbucketClient env) repo (ID pr) with
        | Err _ => (b, slog ERROR "Error fetching PR comments" w)
        | Ok comments =>
            let lastActivity := bitbucket.GetLastActivity (Local env) pr comments in
            if String.eqb lastActivity "" then
              (b, slog WARN "No last activity date found for PR" w)
            else
              match time.ParseRFC3339 lastActivity with
              | None => (b, slog WARN "Error parsing PR last activity date" w)
              | Some lastTime =>
                  let '(now, w) := readClock env w in
                  if isStale cfg now lastTime then
                    ({| allPRsToNotify := allPRsToNotify b ++ [pr];
                        repoPRsToNotify :=
                          <[repo := default [] (repoPRsToNotify b !! repo) ++ [pr]]>
                            (repoPRsToNotify b);
                        prParticipants := prParticipants b |}, w)
                  else (b, w)
              end
        end
  end.

(** The body of [for _, repo := range cfg.Bitbucket.Repositories]. *)
Definition processRepo (cfg : Config) (env : Env)
    (st : Batch * World) (repo : string) : Batch * World :=
  let '(b, w) := st in
  let w := slog INFO "Fetching open PRs for repository" w in
  let w := send (ReqListOpenPRs repo) w in
  match ListOpenPRs (bitbucketClient env) repo with
  | Err _ => (b, slog ERROR "Error fetching PRs for repository" w)
  | Ok prs =>
      let w := slog INFO "Total open PRs" w in
      let filtered :=
        bitbucket.FilterPRs (unicodeToLower env) prs (IgnoreKeywords (PRFilter cfg)) in
      let w := slog INFO "PRs after keyword filter" w in
      fold_left (processPR cfg env repo) filtered (b, w)
  end.

Definition cycle (cfg : Config) (env : Env) (w : World) : Batch * World :=
  fold_left (processRepo cfg env) (Repositories (Bitbucket cfg)) (emptyBatch, w).

(** *** Notification and the loop *)

(** The notifiers [run] initialises: email always, Teams when a webhook
    URL is configured. *)
Definition notifiers (cfg : Config) (env : Env) : list Notifier :=
  [NewEmailNotifier env] ++
  (if String.eqb (WebhookURL (Teams cfg)) "" then [] else [NewTeamsNotifier env]).

(** The body of [for _, notifier := range notifiers]. *)
Definition notifyOne (cfg : Config) (b : Batch) (w : World) (n : Notifier) : World :=
  let w := record {| channel := name n;
                     notifiedPRs := allPRsToNotify b;
                     notifiedRepoPRs := repoPRsToNotify b;
                     notifiedParticipants := prParticipants b;
                     notifiedStaleAfterDays := StaleAfterDays (PRFilter cfg) |} w in
  match Notify n (allPRsToNotify b) (repoPRsToNotify b) (prParticipants b)
               (StaleAfterDays (PRFilter cfg)) with
  | Some _ => slog ERROR "Error notifying" w
  | None => w
  end.

Inductive Outcome :=
  | Return (err : option error)    (* [run] returns [err] *)
  | Continue.                      (* the loop goes round again *)

(** The closing [select]: the context is cancelled or the timer fires. *)
Definition wait (env : Env) (w : World) : Outcome * World :=
  let w := slog INFO "Sleeping until next check..." w in
  if doneInWait env then (Return None, w) else (Continue, w).

(** [time.Duration(cfg.Notification.IntervalHours) * time.Hour] *)
Definition interval (cfg : Config) : Z :=
  time.wrap64 (IntervalHours (Notification cfg) * time.Hour).

(** [lastNotified.IsZero() || time.Since(lastNotified) >= interval]; the
    clock is read only when the left operand is false. *)
Definition shouldNotify (cfg : Config) (env : Env) (lastNotified : time.Time)
    (w : World) : bool * World :=
  if time.IsZero lastNotified then (true, w)
  else
    let '(now, w) := readClock env w in
    (time.Since now lastNotified >=? interval cfg, w).

(** What follows the cycle: dispatch and checkpoint update when the
    batch is not empty. *)
Definition conclude (cfg : Config) (env : Env) (b : Batch) (w : World) : World :=
  if (0 <? length (allPRsToNotify b))%nat then
    let w := slog INFO "Sending summary notification email" w in
    let w := fold_left (notifyOne cfg b) (notifiers cfg env) w in
    let '(now, w) := readClock env w in
    let '(err, f) := store.SetLastNotificationTime (writeFailure env now) now (file w) in
    let w := setFile f w in
    match err with
    | Some _ => slog ERROR "Error updating last notification time" w
    | None => w
    end
  else slog INFO "No PRs to notify in this cycle." w.

(** One pass through the body of [for { select { ... } }]. *)
Definition iteration (cfg : Config) (env : Env) (w : World) : Outcome * World :=
  if doneAtTop env then (Return None, w)
  else
    match store.GetLastNotificationTime (file w) with
    | Err e => (Return (Some e), w)
    | Ok lastNotified =>
        let '(go, w) := shouldNotify cfg env lastNotified w in
        if negb go then
          wait env (slog INFO "No notification sent (interval not reached)" w)
        else
          let '(b, w) := cycle cfg env w in
          wait env (conclude cfg env b w)
    end.

(** [run]: at most [fuel] iterations, the i-th in the surroundings
    [envs i].  [None] means that [run] has not returned yet. *)
Fixpoint run (cfg : Config) (envs : nat -> Env) (fuel i : nat) (w : World)
    : option (option error) * World :=
  match fuel with
  | O => (None, w)
  | S fuel' =>
      match iteration cfg (envs i) w with
      | (Return r, w') => (Some r, w')
      | (Continue, w') => run cfg envs fuel' (S i) w'
      end
  end.

End main.

(** ** Vocabulary of the specification *)

(** [sub] occurs in [s]: some bytes, then [sub], then the rest. *)
Definition isSubstring (sub s : string) : Prop :=
  exists pre post, s = String.append pre (String.append sub post).

(** A participant whose role is the reviewing role. *)
Definition isReviewer (p : Participant) : bool := String.eqb (Role p) bitbucket.REVIEWER.

(** The activity resolver as the specification words it, on millisecond
    timestamps: start from [updatedAt]; if that is zero fall back to
    [createdAt]; if both are zero there is no activity; then every comment's
    [updatedAt] replaces the running maximum when it is strictly later. *)
Module ActivitySpec.

Definition start (pr : PullRequest) : option Z :=
  if UpdatedDate pr =? 0 then
    (if CreatedDate pr =? 0 then None else Some (CreatedDate pr))
  else Some (UpdatedDate pr).

Definition scan (m : Z) (comments : list Comment) : Z :=
  fold_left
    (fun m c => if CommentUpdatedDate c >? m then CommentUpdatedDate c else m)
    comments m.

Definition resolve (pr : PullRequest) (comments : list Comment) : option Z :=
  m ← start pr; Some (scan m comments).

Definition GetLastActivity (Local : time.Location)
    (pr : PullRequest) (comments : list Comment) : string :=
  match resolve pr comments with
  | None => ""
  | Some m => time.FormatRFC3339 Local (time.UnixMilli m)
  end.

End ActivitySpec.

(** The millisecond timestamp of Go's zero Time, January 1, year 1. *)
Definition zeroTimeMilli : Z := -62135596800000.

(** The bytes of an instant rendered by [time.FormatRFC3339]: year, month,
    day, hour, minute and second digits around their separators, then the
    zone. *)
Definition rendered (y0 y1 y2 y3 m0 m1 d0 d1 h0 h1 i0 i1 s0 s1 : ascii)
    (zone : string) : string :=
  String y0 (String y1 (String y2 (String y3 (String "-"
  (String m0 (String m1 (String "-"
  (String d0 (String d1 (String "T"
  (String h0 (String h1 (String ":"
  (String i0 (String i1 (String ":"
  (String s0 (String s1 zone)))))))))))))))))).

(** An instant that [time.FormatRFC3339] renders as RFC 3339 text from which
    [time.ParseRFC3339] recovers its second: the year, read in the zone, is
    within 0 to 9999 and the zone offset is a whole number of minutes, less
    than a day. *)
Definition renderable (loc : time.Location) (t : time.Time) : Prop :=
  let offset := time.lookup loc (time.unixSec t) in
  -62167219200 <= time.unixSec t + offset < 253402300800
  /\ -86400 < offset < 86400
  /\ Z.rem offset 60 = 0.

(** A Time as Go builds them: nanoseconds within the second, seconds within
    64 bits. *)
Definition wellFormed (t : time.Time) : Prop :=
  0 <= time.nsec t < 1000000000 /\ - 2 ^ 63 <= time.sec t < 2 ^ 63.

(** [t - u] in nanoseconds, as an integer. *)
Definition exactDiff (t u : time.Time) : Z :=
  (time.sec t - time.sec u) * 1000000000 + (time.nsec t - time.nsec u).

(** What a check cycle leaves alone: the checkpoint file and the record of
    notifications. *)
Definition untouched (w w' : main.World) : Prop :=
  main.file w' = main.file w /\ main.sent w' = main.sent w.

(** ** Sample data *)

Module sample.

Definition link : Link := {| Href := "https://bitbucket.example/pr" |}.

Definition author : Author :=
  {| AuthorUserOf := {| AuthorDisplayName := "Ada"; AuthorUsername := "ada" |};
     AuthorRole := "AUTHOR"; AuthorApproved := false; AuthorStatus := "UNAPPROVED" |}.

(** An open pull request with the given id, title and dates. *)
Definition pullRequest (id : Z) (title : string) (created updated : Z) : PullRequest :=
  {| ID := id; Title := title; Description := ""; State := "OPEN";
     Open := true; Closed := false;
     CreatedDate := created; UpdatedDate := updated;
     PRAuthor := author; Participants := []; LinksSelf := [link] |}.

Definition comment (created updated : Z) : Comment :=
  {| CommentID := 1; Content := "ping";
     CommentCreatedDate := created; CommentUpdatedDate := updated;
     CommentUserOf := {| CommentDisplayName := "Bob"; CommentUsername := "bob";
                         CommentEmail := "bob@example.org" |} |}.

Definition participant (role : string) (approved : bool) : Participant :=
  {| User := {| UserDisplayName := "Bob"; UserUsername := "bob";
                UserEmail := "bob@example.org"; UserActive := true; UserID := 7;
                UserSlug := "bob"; UserType := "NORMAL"; UserLinksSelf := [] |};
     Role := role; Approved := approved;
     Status := if approved then "APPROVED" else "UNAPPROVED" |}.

End sample.

(** One repository with three open pull requests: a work in progress, one
    approved by its only reviewer, and one not approved whose last activity
    is ten days old; the threshold is five days. *)
Module scenario.

Import config main.

Definition day : Z := 86400000.

(** 2023-11-14T22:13:20Z, in Unix milliseconds. *)
Definition t0 : Z := 1700000000000.

Definition wip : PullRequest := sample.pullRequest 1 "[WIP] x" t0 t0.
Definition approved : PullRequest := sample.pullRequest 2 "Add login" t0 t0.
Definition stale : PullRequest := sample.pullRequest 3 "Fix logout" t0 t0.

Definition cfg : Config :=
  {| Bitbucket := {| Domain := "bitbucket.example"; Port := 443; Workspace := "ws";
                     BitbucketUser := "bot"; AppPassword := "secret";
                     Repositories := ["repo1"] |};
     PRFilter := {| IgnoreKeywords := ["[WIP]"; "[DRAFT]"]; StaleAfterDays := 5 |};
     Teams := {| WebhookURL := "" |};
     Notification := {| IntervalHours := 12 |} |}.

Definition client : Client :=
  {| ListOpenPRs := fun repo =>
       if String.eqb repo "repo1" then Ok [wip; approved; stale]
       else Err (errorString "error fetching PRs: 404 Not Found");
     GetParticipants := fun repo id =>
       if id =? 2 then Ok [sample.participant "REVIEWER" true]
       else Ok [sample.participant "REVIEWER" false; sample.participant "AUTHOR" false];
     GetComments := fun repo id => Ok [] |}.

Definition silent (channel : string) : Notifier :=
  {| name := channel; Notify := fun _ _ _ _ => None |}.

(** Ten days after [t0]; the checkpoint write fails when [failure] says
    so. *)
Definition env (failure : option store.Failure) : Env :=
  {| Local := time.UTC;
     unicodeToLower := fun s => s;
     Now := fun _ => time.UnixMilli (t0 + 10 * day);
     bitbucketClient := client;
     NewEmailNotifier := silent "email";
     NewTeamsNotifier := silent "teams";
     writeFailure := fun _ => failure;
     doneAtTop := false;
     doneInWait := false |}.

(** The same configuration with another staleness threshold. *)
Definition threshold (days : Z) : Config :=
  {| Bitbucket := Bitbucket cfg;
     PRFilter := {| IgnoreKeywords := IgnoreKeywords (PRFilter cfg);
                    StaleAfterDays := days |};
     Teams := Teams cfg;
     Notification := Notification cfg |}.

(** First run: no checkpoint file, nothing done yet. *)
Definition world : World :=
  {| clockReads := 0; file := store.Unreadable; requests := []; logs := [];
     sent := [] |}.

(** A later run: the checkpoint holds the instant [ms], in Unix
    milliseconds. *)
Definition notifiedAt (ms : Z) : World :=
  {| clockReads := 0; file := store.Timestamp (time.UnixMilli ms); requests := [];
     logs := []; sent := [] |}.

(** A run that finds a checkpoint file it cannot parse. *)
Definition corrupt : World :=
  {| clockReads := 0; file := store.Malformed; requests := []; logs := [];
     sent := [] |}.

End scenario.

(** A reviewer who has approved. *)
Definition isApprovingReviewer (p : Participant) : bool := isReviewer p && Approved p.

(** The latest of a start timestamp and the [updatedAt] of the comments. *)
Definition latestUpdate (start : Z) (comments : list Comment) : Z :=
  fold_right Z.max start (map CommentUpdatedDate comments).

(** ** Vocabulary of the check cycle *)

(** What makes the check cycle report [pr] of [repo] at the [n]-th clock
    reading: the repository is listed, the pull request passes the keyword
    filter, its participants are fetched and do not all approve, its
    comments are fetched, its last activity is found and parsed, and it is
    stale at that reading. *)
Definition reportable (cfg : config.Config) (env : main.Env) (repo : string)
    (pr : PullRequest) (n : nat) : Prop :=
  exists prs ps cs lastTime,
    main.ListOpenPRs (main.bitbucketClient env) repo = Ok prs
    /\ In pr (bitbucket.FilterPRs (main.unicodeToLower env) prs
                (config.IgnoreKeywords (config.PRFilter cfg)))
    /\ main.GetParticipants (main.bitbucketClient env) repo (ID pr) = Ok ps
    /\ bitbucket.IsPRApproved ps = false
    /\ main.GetComments (main.bitbucketClient env) repo (ID pr) = Ok cs
    /\ time.ParseRFC3339 (bitbucket.GetLastActivity (main.Local env) pr cs) = Some lastTime
    /\ main.isStale cfg (main.Now env n) lastTime = true.

(** The notification handed to a channel for the batch [b]. *)
Definition notification (cfg : config.Config) (b : main.Batch) (n : main.Notifier)
  : main.NotifyCall :=
  {| main.channel := main.name n;
     main.notifiedPRs := main.allPRsToNotify b;
     main.notifiedRepoPRs := main.repoPRsToNotify b;
     main.notifiedParticipants := main.prParticipants b;
     main.notifiedStaleAfterDays := config.StaleAfterDays (config.PRFilter cfg) |}.


(** The requests of one check cycle, as the answers of the server determine
    them: one listing per repository; for each listed pull request that
    passes the keyword filter one participants request, followed by one
    comments request unless all reviewers approve. *)
Definition requestsForPR (env : main.Env) (repo : string) (pr : PullRequest)
  : list main.Request :=
  main.ReqGetParticipants repo (ID pr) ::
  match main.GetParticipants (main.bitbucketClient env) repo (ID pr) with
  | Ok ps =>
      if bitbucket.IsPRApproved ps then [] else [main.ReqGetComments repo (ID pr)]
  | Err _ => []
  end.

Definition requestsForRepo (cfg : config.Config) (env : main.Env) (repo : string)
  : list main.Request :=
  main.ReqListOpenPRs repo ::
  match main.ListOpenPRs (main.bitbucketClient env) repo with
  | Ok prs =>
      flat_map (requestsForPR env repo)
        (bitbucket.FilterPRs (main.unicodeToLower env) prs
           (config.IgnoreKeywords (config.PRFilter cfg)))
  | Err _ => []
  end.

(** The sample scenario with a second repository, listed first, that the
    server does not know. *)
Module outage.

Definition cfg : config.Config :=
  {| config.Bitbucket :=
       {| config.Domain := "bitbucket.example"; config.Port := 443;
          config.Workspace := "ws"; config.BitbucketUser := "bot";
          config.AppPassword := "secret";
          config.Repositories := ["ghost"; "repo1"] |};
     config.PRFilter := config.PRFilter scenario.cfg;
     config.Teams := {| config.WebhookURL := "https://teams.example/hook" |};
     config.Notification := config.Notification scenario.cfg |}.

(** A notifier that always fails. *)
Definition broken (channel : string) : main.Notifier :=
  {| main.name := channel;
     main.Notify := fun _ _ _ _ => Some (errorString "connection refused") |}.

(** The surroundings of the sample scenario with a failing email channel;
    the context is cancelled during the wait of the pass [stop]. *)
Definition envs (stop : nat) (i : nat) : main.Env :=
  {| main.Local := time.UTC;
     main.unicodeToLower := fun s => s;
     main.Now := fun _ => time.UnixMilli (scenario.t0 + 10 * scenario.day);
     main.bitbucketClient := scenario.client;
     main.NewEmailNotifier := broken "email";
     main.NewTeamsNotifier := scenario.silent "teams";
     main.writeFailure := fun _ => None;
     main.doneAtTop := false;
     main.doneInWait := Nat.eqb i stop |}.

End outage.

(** ** internal/bitbucket/client.go: the HTTP client

    What the client finds on the network is kept in a [Network]: whether
    [http.NewRequest] accepts a URL, the outcome of the n-th [Client.Do] of
    the run (the headers are the same for every request of a client, so the
    outcome is indexed by the URL), and what [json.Unmarshal] makes of a
    body for each of the three response types.  The [slog] records of this
    package are left out. *)

Module client.

Import config.

Record Response := { Status : string; StatusCode : Z; Body : string }.

(** Response types for JSON unmarshaling *)
Record PRListResponse := { PRValues : list PullRequest; PRNext : string }.

Record ParticipantsResponse := { ParticipantValues : list Participant }.

Record CommentsResponse := { CommentValues : list Comment; CommentNext : string }.

Record Network := {
  NewRequest : string -> option error;
  Do : nat -> string -> Result Response;
  unmarshalPRList : string -> Result PRListResponse;
  unmarshalParticipants : string -> Result ParticipantsResponse;
  unmarshalComments : string -> Result CommentsResponse }.

(** Client represents a Bitbucket API client *)
Record Client := { Config : config.Config; BaseURL : string }.

(** NewClient creates a new Bitbucket client *)
Definition NewClient (cfg : config.Config) : Client :=
  {| Config := cfg; BaseURL := "" |}.

(** The verb [%d] of [fmt.Sprintf]. *)
Definition Itoa (x : Z) : string := time.appendInt x 0.

(** [https://%s:%d] with the configured domain and port. *)
Definition origin (c : Client) : string :=
  "https://" ++ Domain (Bitbucket (Config c)) ++ ":" ++ Itoa (Port (Bitbucket (Config c))).

(** The first URL of [ListOpenPRs]. *)
Definition pullRequestsURL (c : Client) (repo : string) : string :=
  if negb (String.eqb (BaseURL c) "") then
    BaseURL c ++ "/rest/api/1.0/projects/" ++ Workspace (Bitbucket (Config c))
      ++ "/repos/" ++ repo ++ "/pull-requests?state=OPEN"
  else
    origin c ++ "/rest/api/1.0/projects/" ++ Workspace (Bitbucket (Config c))
      ++ "/repos/" ++ repo ++ "/pull-requests?state=OPEN".

(** The URL of [GetParticipants]. *)
Definition participantsURL (c : Client) (repo : string) (prID : Z) : string :=
  if negb (String.eqb (BaseURL c) "") then
    BaseURL c ++ "/rest/api/1.0/projects/" ++ Workspace (Bitbucket (Config c))
      ++ "/repos/" ++ repo ++ "/pull-requests/" ++ Itoa prID ++ "/participants"
  else
    origin c ++ "/rest/api/1.0/projects/" ++ Workspace (Bitbucket (Config c))
      ++ "/repos/" ++ repo ++ "/pull-requests/" ++ Itoa prID ++ "/participants".

(** The first URL of [GetComments]. *)
Definition activitiesURL (c : Client) (repo : string) (prID : Z) : string :=
  if negb (String.eqb (BaseURL c) "") then
    BaseURL c ++ "/rest/api/1.0/projects/" ++ Workspace (Bitbucket (Config c))
      ++ "/repos/" ++ repo ++ "/pull-requests/" ++ Itoa prID ++ "/activities"
  else
    origin c ++ "/rest/api/1.0/projects/" ++ Workspace (Bitbucket (Config c))
      ++ "/repos/" ++ repo ++ "/pull-requests/" ++ Itoa prID ++ "/activities".

(** [fmt.Errorf("...: %s (URL: %s, Body: %s)", resp.Status, url, string(body))] *)
Definition statusError (what : string) (resp : Response) (url : string) : error :=
  errorString (what ++ ": " ++ Status resp ++ " (URL: " ++ url ++ ", Body: "
               ++ Body resp ++ ")").

(** The URL [ListOpenPRs] goes to after a page whose [next] is [next]: a
    relative [next] is put behind the base URL or the origin. *)
Definition nextURL (c : Client) (next : string) : string :=
  if negb (String.eqb next "") && strings.HasPrefix next "/" then
    if negb (String.eqb (BaseURL c) "") then BaseURL c ++ next
    else origin c ++ next
  else next.

(** The loop [for url != ""] of [ListOpenPRs], at most [fuel] tests of
    its condition; [sent] holds the URLs requested so far by the process.
    [None] means that the loop has not ended yet. *)
Fixpoint listOpenPRsLoop (net : Network) (c : Client) (fuel : nat) (url : string)
    (prs : list PullRequest) (sent : list string)
    : option (Result (list PullRequest)) * list string :=
  match fuel with
  | O => (None, sent)
  | S fuel' =>
      if String.eqb url "" then (Some (Ok prs), sent)
      else
        match NewRequest net url with
        | Some err => (Some (Err err), sent)
        | None =>
            match Do net (length sent) url with
            | Err err => (Some (Err err), sent ++ [url])
            | Ok resp =>
                if negb (StatusCode resp =? 200) then
                  (Some (Err (statusError "error fetching PRs" resp url)), sent ++ [url])
                else
                  match unmarshalPRList net (Body resp) with
                  | Err err => (Some (Err err), sent ++ [url])
                  | Ok prResp =>
                      listOpenPRsLoop net c fuel' (nextURL c (PRNext prResp))
                        (prs ++ PRValues prResp) (sent ++ [url])
                  end
            end
        end
  end.

(** ListOpenPRs fetches open PRs for a repository *)
Definition ListOpenPRs (net : Network) (c : Client) (fuel : nat) (repo : string)
    (sent : list string) : option (Result (list PullRequest)) * list string :=
  listOpenPRsLoop net c fuel (pullRequestsURL c repo) [] sent.

(** GetParticipants fetches PR participants (reviewers) *)
Definition GetParticipants (net : Network) (c : Client) (repo : string) (prID : Z)
    (sent : list string) : Result (list Participant) * list string :=
  let url := participantsURL c repo prID in
  match NewRequest net url with
  | Some err => (Err err, sent)
  | None =>
      match Do net (length sent) url with
      | Err err => (Err err, sent ++ [url])
      | Ok resp =>
          if negb (StatusCode resp =? 200) then
            (Err (statusError "error fetching participants" resp url), sent ++ [url])
          else
            match unmarshalParticipants net (Body resp) with
            | Err err => (Err err, sent ++ [url])
            | Ok pResp => (Ok (ParticipantValues pResp), sent ++ [url])
            end
      end
  end.

(** The loop [for url != ""] of [GetComments]: the [next] of a page is
    requested as it is. *)
Fixpoint getCommentsLoop (net : Network) (fuel : nat) (url : string)
    (comments : list Comment) (sent : list string)
    : option (Result (list Comment)) * list string :=
  match fuel with
  | O => (None, sent)
  | S fuel' =>
      if String.eqb url "" then (Some (Ok comments), sent)
      else
        match NewRequest net url with
        | Some err => (Some (Err err), sent)
        | None =>
            match Do net (length sent) url with
            | Err err => (Some (Err err), sent ++ [url])
            | Ok resp =>
                if negb (StatusCode resp =? 200) then
                  (Some (Err (statusError "error fetching comments/activities" resp url)),
                   sent ++ [url])
                else
                  match unmarshalComments net (Body resp) with
                  | Err err => (Some (Err err), sent ++ [url])
                  | Ok cResp =>
                      getCommentsLoop net fuel' (CommentNext cResp)
                        (comments ++ CommentValues cResp) (sent ++ [url])
                  end
            end
        end
  end.

(** GetComments fetches all comments/activities for a PR *)
Definition GetComments (net : Network) (c : Client) (fuel : nat) (repo : string)
    (prID : Z) (sent : list string) : option (Result (list Comment)) * list string :=
  getCommentsLoop net fuel (activitiesURL c repo prID) [] sent.

End client.

(** A page served at the [n]-th request for [url]: the request is
    accepted, the answer has status 200 and its body decodes. *)
Definition servesPRs (net : client.Network) (n : nat) (url : string)
    (page : client.PRListResponse) : Prop :=
  url <> ""%string
  /\ client.NewRequest net url = None
  /\ exists resp, client.Do net n url = Ok resp
                  /\ client.StatusCode resp = 200
                  /\ client.unmarshalPRList net (client.Body resp) = Ok page.

Definition servesComments (net : client.Network) (n : nat) (url : string)
    (page : client.CommentsResponse) : Prop :=
  url <> ""%string
  /\ client.NewRequest net url = None
  /\ exists resp, client.Do net n url = Ok resp
                  /\ client.StatusCode resp = 200
                  /\ client.unmarshalComments net (client.Body resp) = Ok page.

(** The pages [ListOpenPRs] is served one after the other, from the [n]-th
    request on and starting at [url], each with the URL it is requested at,
    which is the one the page before leads to; the last page leads to
    [final]. *)
Fixpoint pullRequestPages (net : client.Network) (c : client.Client) (n : nat)
    (url : string) (pages : list (string * client.PRListResponse)) (final : string)
    : Prop :=
  match pages with
  | [] => url = final
  | (u, page) :: rest =>
      u = url /\ servesPRs net n u page
      /\ pullRequestPages net c (S n) (client.nextURL c (client.PRNext page)) rest final
  end.

(** The same for [GetComments], which follows [next] as it is. *)
Fixpoint commentPages (net : client.Network) (n : nat) (url : string)
    (pages : list (string * client.CommentsResponse)) (final : string) : Prop :=
  match pages with
  | [] => url = final
  | (u, page) :: rest =>
      u = url /\ servesComments net n u page
      /\ commentPages net (S n) (client.CommentNext page) rest final
  end.

(** A request that does not yield a page: the URL is refused, the call
    fails, the status is not 200 or the body does not decode. *)
Definition failsWith (net : client.Network) (what : string)
    (decodes : string -> option error) (n : nat) (url : string) (e : error) : Prop :=
  url <> ""%string
  /\ (client.NewRequest net url = Some e
      \/ (client.NewRequest net url = None
          /\ (client.Do net n url = Err e
              \/ exists resp,
                   client.Do net n url = Ok resp
                   /\ ((client.StatusCode resp <> 200
                        /\ e = client.statusError what resp url)
                       \/ (client.StatusCode resp = 200
                           /\ decodes (client.Body resp) = Some e))))).

(** The error of a decoder, if any. *)
Definition decodeError {A : Type} (unmarshal : string -> Result A) (body : string)
  : option error :=
  match unmarshal body with
  | Ok _ => None
  | Err e => Some e
  end.

(** Sample networks for the client of the sample scenario. *)
Module wire.

Definition c : client.Client := client.NewClient scenario.cfg.

Definition ok (body : string) : client.Response :=
  {| client.Status := "200 OK"; client.StatusCode := 200; client.Body := body |}.

(** Every body is the URL it was requested at.  The pull requests come in
    two pages, the second behind a relative [next]; so do the comments,
    behind an absolute one. *)
Definition twoPages : client.Network :=
  {| client.NewRequest := fun _ => None;
     client.Do := fun _ url => Ok (ok url);
     client.unmarshalPRList := fun body =>
       if String.eqb body (client.pullRequestsURL c "repo1") then
         Ok {| client.PRValues := [scenario.wip; scenario.approved];
               client.PRNext := "/rest/page2" |}
       else Ok {| client.PRValues := [scenario.stale]; client.PRNext := "" |};
     client.unmarshalParticipants := fun _ =>
       Ok {| client.ParticipantValues := [sample.participant "REVIEWER" false] |};
     client.unmarshalComments := fun body =>
       if String.eqb body (client.activitiesURL c "repo1" 3) then
         Ok {| client.CommentValues := [sample.comment 1 2];
               client.CommentNext := "https://bitbucket.example:443/rest/more" |}
       else Ok {| client.CommentValues := [sample.comment 3 4];
                  client.CommentNext := "" |} |}.

(** The same network, whose second answer is a server error. *)
Definition broken : client.Network :=
  {| client.NewRequest := client.NewRequest twoPages;
     client.Do := fun n url =>
       if (n =? 1)%nat then
         Ok {| client.Status := "500 Internal Server Error"; client.StatusCode := 500;
               client.Body := "oops" |}
       else client.Do twoPages n url;
     client.unmarshalPRList := client.unmarshalPRList twoPages;
     client.unmarshalParticipants := client.unmarshalParticipants twoPages;
     client.unmarshalComments := client.unmarshalComments twoPages |}.

(** A server whose every page leads on. *)
Definition endless : client.Network :=
  {| client.NewRequest := fun _ => None;
     client.Do := fun _ url => Ok (ok url);
     client.unmarshalPRList := fun _ =>
       Ok {| client.PRValues := [scenario.stale]; client.PRNext := "/rest/more" |};
     client.unmarshalParticipants := fun _ => Ok {| client.ParticipantValues := [] |};
     client.unmarshalComments := fun _ =>
       Ok {| client.CommentValues := []; client.CommentNext := "/rest/more" |} |}.

End wire.

(** ** internal/logger/logger.go

    A [slog.Handler] is kept as its two methods that matter here: whether
    it is enabled for a level, and what handling a record does, that is
    the error it returns and the writes it makes, in order. *)

Module logger.

(** [slog.LevelDebug], [slog.LevelInfo], [slog.LevelWarn], [slog.LevelError] *)
Definition LevelDebug : Z := -4.
Definition LevelInfo : Z := 0.
Definition LevelWarn : Z := 4.
Definition LevelError : Z := 8.

(** The [log] part of the configuration (the rotation settings, which this
    package only passes on, are left out). *)
Record LogConfig := { File : string; Level : string; Stdout : bool }.

(** A [slog.Record]. *)
Record Entry := { EntryLevel : Z; Message : string }.

Inductive Sink :=
  | LogFile (filename : string)
  | StandardOutput.

Definition Write : Type := Sink * Entry.

Record Handler := {
  Enabled : Z -> bool;
  Handle : Entry -> option error * list Write }.

(** [slog.NewJSONHandler(w, &slog.HandlerOptions{Level: level})]: enabled
    from [level] up; handling a record writes it to [w], and returns the
    error of that write, if any. *)
Definition NewJSONHandler (writeError : Sink -> option error) (w : Sink) (level : Z)
  : Handler :=
  {| Enabled := fun l => level <=? l;
     Handle := fun r => (writeError w, [(w, r)]) |}.

(** Enabled returns true if any handler is enabled for the given level *)
Fixpoint MultiHandler_Enabled (handlers : list Handler) (level : Z) : bool :=
  match handlers with
  | [] => false
  | handler :: rest =>
      if Enabled handler level then true else MultiHandler_Enabled rest level
  end.

(** Handle writes the record to all handlers *)
Definition MultiHandler_Handle (handlers : list Handler) (r : Entry)
  : option error * list Write :=
  fold_left
    (fun '(lastErr, written) handler =>
       if Enabled handler (EntryLevel r) then
         let '(err, writes) := Handle handler r in
         (match err with Some _ => err | None => lastErr end, written ++ writes)
       else (lastErr, written))
    handlers (None, []).

(** MultiHandler writes to multiple handlers *)
Definition MultiHandler (handlers : list Handler) : Handler :=
  {| Enabled := MultiHandler_Enabled handlers;
     Handle := MultiHandler_Handle handlers |}.

(** getLogLevel converts string level to slog.Level *)
Definition getLogLevel (level : string) : Z :=
  if String.eqb level "debug" then LevelDebug
  else if String.eqb level "info" then LevelInfo
  else if String.eqb level "warn" then LevelWarn
  else if String.eqb level "error" then LevelError
  else LevelInfo.

(** Init initializes the logger with the given configuration: the handler
    of the default logger it sets, or [None] when the log directory cannot
    be created and the default logger stays as it was. *)
Definition Init (mkdirFails : bool) (writeError : Sink -> option error)
    (cfg : LogConfig) : option Handler :=
  if mkdirFails then None
  else
    let fileHandler :=
      NewJSONHandler writeError (LogFile (File cfg)) (getLogLevel (Level cfg)) in
    let handlers := [fileHandler] in
    let handlers :=
      if Stdout cfg then
        handlers ++ [NewJSONHandler writeError StandardOutput (getLogLevel (Level cfg))]
      else handlers in
    if (1 <? length handlers)%nat then Some (MultiHandler handlers)
    else head handlers.

(** The [log] method of [slog.Logger]: a record goes to the handler when
    the handler is enabled for its level; the handler's error is dropped. *)
Definition log (h : Handler) (r : Entry) : list Write :=
  if Enabled h (EntryLevel r) then snd (Handle h r) else [].

End logger.

(** ** internal/notifier/teams.go: the Teams message

    The payload is kept as the value handed to [json.Marshal], its maps as
    records of the keys they are built with.  [range repoPRs] visits the
    map in an order of the runtime's choosing: [ranged] is the list of
    entries in the order of the visit.  [None] is the run-time panic of
    [pr.Links.Self[0]] on a pull request without self link. *)

Module teams.

Record Fact := { name : string; value : string }.

Record Section := {
  activityTitle : string;
  activitySubtitle : option string;
  text : option string;
  facts : option (list Fact) }.

Record Payload := {
  type_ : string;
  context : string;
  themeColor : string;
  summary : string;
  sections : list Section }.

(** The verb [%d] of [fmt.Sprintf]. *)
Definition Itoa (x : Z) : string := time.appendInt x 0.

(** The body of [for _, pr := range prs]. *)
Definition fact (prParticipants : gmap Z (list Participant)) (pr : PullRequest)
  : option Fact :=
  let participants := default [] (prParticipants !! ID pr) in
  let '(approved, total) := bitbucket.CountApprovals participants in
  match LinksSelf pr with
  | [] => None
  | self :: _ =>
      Some {| name := "PR #" ++ Itoa (ID pr);
              value := "[" ++ Title pr ++ "](" ++ Href self ++ ") by "
                       ++ AuthorDisplayName (AuthorUserOf (PRAuthor pr))
                       ++ " (" ++ Itoa approved ++ "/" ++ Itoa total ++ " approvals)" |}
  end.

(** The loop [for _, pr := range prs]. *)
Fixpoint repoFacts (prParticipants : gmap Z (list Participant))
    (prs : list PullRequest) (facts : list Fact) : option (list Fact) :=
  match prs with
  | [] => Some facts
  | pr :: rest =>
      f ← fact prParticipants pr;
      repoFacts prParticipants rest (facts ++ [f])
  end.

(** The loop [for repo, prs := range repoPRs]. *)
Fixpoint repoSections (prParticipants : gmap Z (list Participant))
    (ranged : list (string * list PullRequest)) (sections : list Section)
  : option (list Section) :=
  match ranged with
  | [] => Some sections
  | (repo, prs) :: rest =>
      facts ← repoFacts prParticipants prs [];
      repoSections prParticipants rest
        (sections ++ [{| activityTitle := "Repository: " ++ repo;
                         activitySubtitle := None; text := None;
                         facts := Some facts |}])
  end.

(** generateTeamsPayload creates the Teams message payload *)
Definition generateTeamsPayload (ranged : list (string * list PullRequest))
    (allPRs : list PullRequest) (prParticipants : gmap Z (list Participant))
    (staleAfterDays : Z) : option Payload :=
  sections ← repoSections prParticipants ranged [];
  Some
    {| type_ := "MessageCard";
       context := "http://schema.org/extensions";
       themeColor := "FF0000";
       summary := "Stale Pull Requests Alert - " ++ Itoa (Z.of_nat (length allPRs))
                  ++ " PRs need attention";
       sections :=
         [{| activityTitle := "🚨 Stale Pull Requests Alert";
             activitySubtitle :=
               Some (Itoa (Z.of_nat (length allPRs))
                     ++ " pull requests have been inactive for "
                     ++ Itoa staleAfterDays ++ " days or more")%string;
             text := Some "The following pull requests need attention:";
             facts := None |}]
         ++ (sections ++
             [{| activityTitle := "📊 Summary";
                 activitySubtitle := None; text := None;
                 facts :=
                   Some [{| name := "Total Stale PRs";
                            value := Itoa (Z.of_nat (length allPRs)) |};
                         {| name := "Stale Threshold";
                            value := (Itoa staleAfterDays ++ " days")%string |}] |}]) |}.

End teams.

(** The facts of the sections between the header and the summary. *)
Definition listedFacts (p : teams.Payload) : list teams.Fact :=
  flat_map (fun s => default [] (teams.facts s))
    (removelast (tail (teams.sections p))).

(** * Properties *)

(** Splits a goal into its conjuncts, leaving equations alone. *)
Ltac conjuncts :=
  repeat first [ progress intros
               | match goal with |- _ /\ _ => split end
               | progress cbv zeta ].

(** ** Keyword filter *)

Section KeywordFilter.

Variable mapUnicodeToLower : string -> string.

Abbreviation lowercase := (strings.ToLower mapUnicodeToLower).

Lemma HasPrefix_spec s p :
  strings.HasPrefix s p = true <-> exists post, s = String.append p post.
Proof.
  revert s; induction p as [|c p IH]; intros s; simpl.
  - split; [intros _; now exists s | reflexivity].
  - destruct s as [|c' s].
    + split; [discriminate | intros [post H]; discriminate].
    + rewrite andb_true_iff, Ascii.eqb_eq, IH. split.
      * intros [-> [post ->]]. now exists post.
      * intros [post H]. injection H as -> ->. split; [reflexivity | now exists post].
Qed.

Lemma Contains_spec s sub :
  strings.Contains s sub = true <-> isSubstring sub s.
Proof.
  unfold isSubstring. induction s as [|c s IH]; simpl.
  - rewrite orb_false_r, HasPrefix_spec. split.
    + intros [post H]. now exists EmptyString, post.
    + intros [pre [post H]]. destruct pre; [now exists post | discriminate].
  - rewrite orb_true_iff, HasPrefix_spec, IH. split.
    + intros [[post H] | [pre [post H]]].
      * now exists EmptyString, post.
      * exists (String c pre), post. simpl. now rewrite H.
    + intros [pre [post H]]. destruct pre as [|c' pre].
      * left. now exists post.
      * right. simpl in H. injection H as _ H. now exists pre, post.
Qed.

Lemma Contains_empty s : strings.Contains s EmptyString = true.
Proof. destruct s; reflexivity. Qed.

Lemma containsLoop_spec titleLower K :
  bitbucket.containsLoop mapUnicodeToLower titleLower K = true <->
  exists k, In k K /\ isSubstring (lowercase k) titleLower.
Proof.
  induction K as [|kw K IH]; simpl.
  - split; [discriminate | intros [k [[] _]]].
  - destruct (strings.Contains titleLower (lowercase kw)) eqn:E.
    + split; [intros _ | reflexivity].
      exists kw. split; [now left | now apply Contains_spec].
    + rewrite IH. split.
      * intros [k [Hin Hk]]. exists k. split; [now right | exact Hk].
      * intros [k [[<- | Hin] Hk]].
        -- apply Contains_spec in Hk. congruence.
        -- now exists k.
Qed.

Lemma FilterPRs_fold prs K acc :
  fold_left
    (fun filtered pr =>
       if bitbucket.containsIgnoreKeyword mapUnicodeToLower (Title pr) K then filtered
       else filtered ++ [pr]) prs acc
  = acc ++ List.filter
             (fun pr => negb (bitbucket.containsIgnoreKeyword mapUnicodeToLower (Title pr) K))
             prs.
Proof.
  revert acc; induction prs as [|pr prs IH]; intros acc; simpl.
  - now rewrite app_nil_r.
  - rewrite IH.
    destruct (bitbucket.containsIgnoreKeyword mapUnicodeToLower (Title pr) K); simpl.
    + reflexivity.
    + now rewrite <- app_assoc.
Qed.

Lemma FilterPRs_filter prs K :
  bitbucket.FilterPRs mapUnicodeToLower prs K
  = List.filter
      (fun pr => negb (bitbucket.containsIgnoreKeyword mapUnicodeToLower (Title pr) K)) prs.
Proof. unfold bitbucket.FilterPRs. now rewrite FilterPRs_fold. Qed.

Lemma lowercase_empty : lowercase EmptyString = EmptyString.
Proof. reflexivity. Qed.

(** C6, as the code has it: a title is disqualified exactly when the
    lower-cased form of some keyword occurs in the lower-cased title; no
    keyword, no exclusion; the empty title is disqualified exactly when
    some keyword lower-cases to the empty string; FilterPRs keeps, in
    order, the pull requests whose title is not disqualified. *)
Theorem keyword_filter_characterised (T : string) (K : list string)
    (prs : list PullRequest) :
  (bitbucket.containsIgnoreKeyword mapUnicodeToLower T K = true <->
     exists k, In k K /\ isSubstring (lowercase k) (lowercase T))
  /\ bitbucket.containsIgnoreKeyword mapUnicodeToLower T [] = false
  /\ (bitbucket.containsIgnoreKeyword mapUnicodeToLower EmptyString K = true <->
        exists k, In k K /\ lowercase k = EmptyString)
  /\ bitbucket.FilterPRs mapUnicodeToLower prs K
     = List.filter
         (fun pr => negb (bitbucket.containsIgnoreKeyword mapUnicodeToLower (Title pr) K))
         prs.
Proof.
  repeat split.
  - intros H. now apply containsLoop_spec in H.
  - intros H. now apply containsLoop_spec.
  - intros H. apply containsLoop_spec in H. destruct H as [k [Hin [pre [post Hk]]]].
    exists k. split; [exact Hin|].
    rewrite lowercase_empty in Hk.
    destruct pre; [|discriminate]. simpl in Hk.
    destruct (lowercase k); [reflexivity | discriminate].
  - intros [k [Hin Hk]]. apply containsLoop_spec. exists k. split; [exact Hin|].
    rewrite Hk. now exists EmptyString, EmptyString.
  - apply FilterPRs_filter.
Qed.

End KeywordFilter.

(** C6, counterexample: with the empty keyword in the set, the empty title
    is disqualified, although the claim has an empty title never match. *)
Lemma empty_title_matches_empty_keyword :
  bitbucket.containsIgnoreKeyword (fun s => s) EmptyString [EmptyString] = true.
Proof. reflexivity. Qed.

(** ** Approval evaluator *)

Lemma IsPRApproved_true_iff (P : list Participant) :
  bitbucket.IsPRApproved P = true <->
  forall p, In p P -> Role p = bitbucket.REVIEWER -> Approved p = true.
Proof.
  induction P as [|q P IH]; simpl.
  - split; [intros _ p [] | reflexivity].
  - destruct (String.eqb (Role q) bitbucket.REVIEWER) eqn:Er; simpl.
    + apply String.eqb_eq in Er. destruct (Approved q) eqn:Ea; simpl.
      * rewrite IH. split.
        -- intros H p [<- | Hin] Hr; [exact Ea | now apply H].
        -- intros H p Hin. apply H. now right.
      * split; [discriminate|]. intros H.
        specialize (H q (or_introl eq_refl) Er). congruence.
    + apply String.eqb_neq in Er. rewrite IH. split.
      * intros H p [<- | Hin] Hr; [contradiction | now apply H].
      * intros H p Hin. apply H. now right.
Qed.

(** C7: IsPRApproved is true exactly when no participant with role REVIEWER
    has [Approved = false]; the empty list is approved; participants with
    another role do not count. *)
Theorem IsPRApproved_characterised (P : list Participant) :
  (bitbucket.IsPRApproved P = true <->
     ~ exists p, In p P /\ Role p = bitbucket.REVIEWER /\ Approved p = false)
  /\ bitbucket.IsPRApproved [] = true
  /\ bitbucket.IsPRApproved P = bitbucket.IsPRApproved (List.filter isReviewer P).
Proof.
  split; [|split].
  - rewrite IsPRApproved_true_iff. split.
    + intros H [p [Hin [Hr Ha]]]. rewrite (H p Hin Hr) in Ha. discriminate.
    + intros H p Hin Hr. destruct (Approved p) eqn:Ea; [reflexivity|].
      exfalso. apply H. now exists p.
  - reflexivity.
  - induction P as [|q P IH]; [reflexivity|]. simpl. unfold isReviewer at 1.
    destruct (String.eqb (Role q) bitbucket.REVIEWER) eqn:Er; simpl.
    + rewrite Er. simpl. now rewrite IH.
    + exact IH.
Qed.

(** ** Package time: instants built from Unix milliseconds *)

Lemma UnixMilli_floor (ms : Z) :
  time.UnixMilli ms
  = time.mkTime (ms / 1000 + time.unixToInternal) (ms mod 1000 * 1000000).
Proof.
  unfold time.UnixMilli, time.Unix, time.unixTime.
  set (r := Z.rem ms 1000 * 1000000).
  assert (Hr : -1000000000 < r < 1000000000)
    by (subst r; Z.to_euclidean_division_equations; lia).
  assert (Hn : Z.quot r 1000000000 = 0) by (Z.to_euclidean_division_equations; lia).
  rewrite Hn. replace (r - 0 * 1000000000) with r by lia.
  replace (Z.quot ms 1000 + 0) with (Z.quot ms 1000) by lia.
  replace (1000000000 <=? r) with false by (symmetry; apply Z.leb_gt; lia).
  rewrite orb_false_r.
  destruct (Z.ltb_spec r 0); f_equal; subst r;
    Z.to_euclidean_division_equations; lia.
Qed.

Lemma IsZero_UnixMilli (ms : Z) :
  time.IsZero (time.UnixMilli ms) = (ms =? zeroTimeMilli).
Proof.
  rewrite UnixMilli_floor. unfold time.IsZero, zeroTimeMilli; simpl.
  pose proof (Z.div_mod ms 1000 ltac:(lia)).
  pose proof (Z.mod_pos_bound ms 1000 ltac:(lia)).
  change time.unixToInternal with 62135596800.
  destruct (Z.eqb_spec ms (-62135596800000)) as [-> | Hne].
  - reflexivity.
  - apply andb_false_iff.
    destruct (Z.eqb_spec (ms / 1000 + 62135596800) 0); [|now left].
    right. apply Z.eqb_neq. lia.
Qed.

Lemma After_UnixMilli (a b : Z) :
  time.After (time.UnixMilli a) (time.UnixMilli b) = (a >? b).
Proof.
  rewrite !UnixMilli_floor. unfold time.After; simpl.
  pose proof (Z.div_mod a 1000 ltac:(lia)).
  pose proof (Z.mod_pos_bound a 1000 ltac:(lia)).
  pose proof (Z.div_mod b 1000 ltac:(lia)).
  pose proof (Z.mod_pos_bound b 1000 ltac:(lia)).
  destruct (Z.gtb_spec a b) as [Hgt | Hle].
  - apply orb_true_iff.
    destruct (Z.gtb_spec (a / 1000 + time.unixToInternal) (b / 1000 + time.unixToInternal));
      [now left | right].
    apply andb_true_iff. split; [apply Z.eqb_eq | apply Z.gtb_lt]; lia.
  - apply orb_false_iff. split.
    + rewrite Z.gtb_ltb. apply Z.ltb_ge. lia.
    + apply andb_false_iff.
      destruct (Z.eqb_spec (a / 1000 + time.unixToInternal) (b / 1000 + time.unixToInternal));
        [right | now left].
      rewrite Z.gtb_ltb. apply Z.ltb_ge. lia.
Qed.

(** ** Activity resolver *)

(** Where the code starts its running maximum, as a millisecond timestamp. *)
Lemma scanComments_UnixMilli (m : Z) (cs : list Comment) :
  bitbucket.scanComments (time.UnixMilli m) cs = time.UnixMilli (ActivitySpec.scan m cs).
Proof.
  unfold bitbucket.scanComments, ActivitySpec.scan.
  revert m; induction cs as [|c cs IH]; intros m; simpl; [reflexivity|].
  rewrite After_UnixMilli. destruct (CommentUpdatedDate c >? m); apply IH.
Qed.

Lemma lastActivityTime_UnixMilli (pr : PullRequest) (cs : list Comment) :
  bitbucket.lastActivityTime pr cs
  = time.UnixMilli
      (ActivitySpec.scan
         (if UpdatedDate pr =? zeroTimeMilli then CreatedDate pr else UpdatedDate pr) cs).
Proof.
  unfold bitbucket.lastActivityTime. rewrite IsZero_UnixMilli.
  destruct (UpdatedDate pr =? zeroTimeMilli); apply scanComments_UnixMilli.
Qed.

Lemma scan_ge (m : Z) (cs : list Comment) : m <= ActivitySpec.scan m cs.
Proof.
  unfold ActivitySpec.scan. revert m; induction cs as [|c cs IH]; intros m; simpl; [lia|].
  destruct (Z.gtb_spec (CommentUpdatedDate c) m).
  - specialize (IH (CommentUpdatedDate c)). lia.
  - apply IH.
Qed.

(** ** Package time: the calendar *)

Lemma eraDay_fields (doe : Z) :
  0 <= doe < 146097 ->
  let yoe := (doe - doe / 1460 + doe / 36524 - doe / 146096) / 365 in
  let doy := doe - (365 * yoe + yoe / 4 - yoe / 100) in
  let mp := (5 * doy + 2) / 153 in
  let d := doy - (153 * mp + 2) / 5 + 1 in
  0 <= yoe <= 399 /\ 0 <= doy <= 365 /\ 0 <= mp <= 11 /\ 1 <= d <= 31
  /\ (doy = 365 -> (yoe + 1) mod 4 = 0 /\ ((yoe + 1) mod 100 <> 0 \/ (yoe + 1) mod 400 = 0))
  /\ (mp = 11 -> d <= 29) /\ (mp = 11 -> d = 29 -> doy = 365)
  /\ (mp = 1 \/ mp = 3 \/ mp = 6 \/ mp = 8 -> d <= 30)
  /\ (146037 <= doe <-> yoe = 399 /\ 10 <= mp).
Proof.
  intros H yoe doy mp d. subst d mp doy yoe.
  Z.to_euclidean_division_equations; lia.
Qed.

Lemma isLeap_period (y k : Z) : time.isLeap (y + k * 400) = time.isLeap y.
Proof.
  unfold time.isLeap.
  replace ((y + k * 400) mod 4) with (y mod 4)
    by (Z.to_euclidean_division_equations; lia).
  replace ((y + k * 400) mod 100) with (y mod 100)
    by (Z.to_euclidean_division_equations; lia).
  replace ((y + k * 400) mod 400) with (y mod 400)
    by (Z.to_euclidean_division_equations; lia).
  reflexivity.
Qed.

Lemma isLeap_true (y : Z) :
  y mod 4 = 0 -> (y mod 100 <> 0 \/ y mod 400 = 0) -> time.isLeap y = true.
Proof.
  intros H4 H. unfold time.isLeap. rewrite H4; simpl.
  destruct H as [H | H].
  - apply Z.eqb_neq in H. now rewrite H.
  - rewrite H. apply orb_true_r.
Qed.

(** The civil date of an era day: its fields are in range and it is found
    back by [daysFromCivil]. *)
Lemma civilOfEraDay_valid (doe : Z) :
  0 <= doe < 146097 ->
  let '(y, m, d) := time.civilOfEraDay doe in
  1 <= m <= 12 /\ 1 <= d <= time.daysIn m y /\ 0 <= y <= 400
  /\ (y = 400 <-> 146037 <= doe)
  /\ time.daysFromCivil y m d = doe - 719468.
Proof.
  intros H. unfold time.civilOfEraDay.
  pose proof (eraDay_fields doe H) as F. cbv zeta in F.
  set (yoe := (doe - doe / 1460 + doe / 36524 - doe / 146096) / 365) in *.
  set (doy := doe - (365 * yoe + yoe / 4 - yoe / 100)) in *.
  set (mp := (5 * doy + 2) / 153) in *.
  set (d := doy - (153 * mp + 2) / 5 + 1) in *.
  destruct F as (Hy & Hdoy & Hmp & Hd & Hleap & H29 & H29' & H30 & Hlast).
  assert (Hera : yoe / 400 = 0) by (apply Z.div_small; lia).
  destruct (Z.ltb_spec mp 10) as [Hlt | Hge].
  - replace (mp + 3 <=? 2) with false by (symmetry; apply Z.leb_gt; lia).
    split; [lia|]. split; [|split; [lia|split; [lia|]]].
    + split; [lia|]. unfold time.daysIn.
      replace (mp + 3 =? 2) with false by (symmetry; apply Z.eqb_neq; lia).
      destruct ((mp + 3 =? 4) || (mp + 3 =? 6) || (mp + 3 =? 9) || (mp + 3 =? 11)) eqn:E;
        [|lia].
      apply H30. rewrite !orb_true_iff, !Z.eqb_eq in E. lia.
    + unfold time.daysFromCivil.
      replace (mp + 3 <=? 2) with false by (symmetry; apply Z.leb_gt; lia).
      replace (mp + 3 >? 2) with true by (symmetry; apply Z.gtb_lt; lia).
      replace (mp + 3 - 3) with mp by lia. rewrite Hera.
      subst d doy. Z.to_euclidean_division_equations; lia.
  - replace (mp - 9 <=? 2) with true by (symmetry; apply Z.leb_le; lia).
    split; [lia|]. split; [|split; [lia|split; [lia|]]].
    + split; [lia|]. unfold time.daysIn.
      destruct (Z.eqb_spec (mp - 9) 2) as [E2 | E2].
      * destruct (time.isLeap (yoe + 1)) eqn:El; [apply H29; lia|].
        assert (d <= 29) by (apply H29; lia).
        destruct (Z.eq_dec d 29) as [E29 | E29]; [|lia].
        assert (Hd365 : doy = 365) by (apply H29'; [lia | exact E29]).
        destruct (Hleap Hd365) as [L4 L100].
        rewrite (isLeap_true _ L4 L100) in El. discriminate.
      * destruct ((mp - 9 =? 4) || (mp - 9 =? 6) || (mp - 9 =? 9) || (mp - 9 =? 11)) eqn:E;
          [|lia].
        rewrite !orb_true_iff, !Z.eqb_eq in E. lia.
    + unfold time.daysFromCivil.
      replace (mp - 9 <=? 2) with true by (symmetry; apply Z.leb_le; lia).
      replace (mp - 9 >? 2) with false
        by (symmetry; rewrite Z.gtb_ltb; apply Z.ltb_ge; lia).
      replace (yoe + 1 - 1) with yoe by lia.
      replace (mp - 9 + 9) with mp by lia. rewrite Hera.
      subst d doy. Z.to_euclidean_division_equations; lia.
Qed.

Lemma daysFromCivil_period (y m d k : Z) :
  time.daysFromCivil (y + k * 400) m d = time.daysFromCivil y m d + k * 146097.
Proof.
  unfold time.daysFromCivil.
  set (y' := if m <=? 2 then y - 1 else y).
  replace (if m <=? 2 then y + k * 400 - 1 else y + k * 400) with (y' + k * 400)
    by (subst y'; destruct (m <=? 2); lia).
  rewrite Z.div_add by lia.
  replace (y' + k * 400 - (y' / 400 + k) * 400) with (y' - y' / 400 * 400) by lia.
  lia.
Qed.

Lemma daysIn_period (m y k : Z) : time.daysIn m (y + k * 400) = time.daysIn m y.
Proof. unfold time.daysIn. now rewrite isLeap_period. Qed.

(** Every day number has a valid civil date, found back by
    [daysFromCivil]. *)
Lemma civilFromDays_valid (days : Z) :
  let '(y, m, d) := time.civilFromDays days in
  1 <= m <= 12 /\ 1 <= d <= time.daysIn m y /\ time.daysFromCivil y m d = days.
Proof.
  unfold time.civilFromDays, time.daysPer400Years.
  set (z := days + 719468). set (era := z / 146097).
  assert (Hdoe : 0 <= z - era * 146097 < 146097)
    by (subst era; Z.to_euclidean_division_equations; lia).
  pose proof (civilOfEraDay_valid _ Hdoe) as V.
  destruct (time.civilOfEraDay (z - era * 146097)) as [[y m] d].
  destruct V as (Hm & Hd & _ & _ & Hrt).
  rewrite daysIn_period, daysFromCivil_period. subst z. repeat split; lia.
Qed.

(** Years 0 to 9999 are the days from 0000-01-01 to 9999-12-31. *)
Lemma civilFromDays_year_range (days : Z) :
  -719528 <= days < 2932897 ->
  0 <= fst (fst (time.civilFromDays days)) <= 9999.
Proof.
  intros Hr. unfold time.civilFromDays, time.daysPer400Years.
  set (z := days + 719468). set (era := z / 146097).
  assert (Hdoe : 0 <= z - era * 146097 < 146097)
    by (subst era; Z.to_euclidean_division_equations; lia).
  assert (Hera : -1 <= era <= 24)
    by (subst era z; Z.to_euclidean_division_equations; lia).
  pose proof (civilOfEraDay_valid _ Hdoe) as V.
  destruct (time.civilOfEraDay (z - era * 146097)) as [[y m] d].
  destruct V as (_ & _ & Hy & Hlast & _). simpl.
  assert (era = -1 -> 146037 <= z - era * 146097) by (subst z; lia).
  assert (era = 24 -> z - era * 146097 < 146037) by (subst z; lia).
  lia.
Qed.

(** ** Package time: RFC 3339 text *)

Lemma digit_isDigitByte (k : Z) : 0 <= k <= 9 -> time.isDigitByte (time.digit k) = true.
Proof.
  intros H.
  assert (E : k = 0 \/ k = 1 \/ k = 2 \/ k = 3 \/ k = 4 \/ k = 5 \/ k = 6 \/ k = 7
              \/ k = 8 \/ k = 9) by lia.
  repeat (destruct E as [-> | E]; [reflexivity|]). now subst.
Qed.

Lemma digit_digitVal (k : Z) : 0 <= k <= 9 -> time.digitVal (time.digit k) = k.
Proof.
  intros H.
  assert (E : k = 0 \/ k = 1 \/ k = 2 \/ k = 3 \/ k = 4 \/ k = 5 \/ k = 6 \/ k = 7
              \/ k = 8 \/ k = 9) by lia.
  repeat (destruct E as [-> | E]; [reflexivity|]). now subst.
Qed.

(** A field of digit bytes, as [parseUint] reads it. *)
Lemma parseUint_2 (c0 c1 : ascii) (lo hi : Z) :
  time.isDigitByte c0 = true -> time.isDigitByte c1 = true ->
  lo <= time.digitVal c0 * 10 + time.digitVal c1 <= hi ->
  time.parseUint (String c0 (String c1 EmptyString)) lo hi
  = Some (time.digitVal c0 * 10 + time.digitVal c1).
Proof.
  intros H0 H1 Hr. unfold time.parseUint; simpl. rewrite H0, H1; simpl.
  replace ((0 * 10 + time.digitVal c0) * 10 + time.digitVal c1)
    with (time.digitVal c0 * 10 + time.digitVal c1) by lia.
  replace (_ || _) with false; [reflexivity|].
  symmetry. apply orb_false_iff. split; [apply Z.ltb_ge | apply Z.ltb_ge]; lia.
Qed.

Lemma parseUint_4 (c0 c1 c2 c3 : ascii) (lo hi : Z) :
  time.isDigitByte c0 = true -> time.isDigitByte c1 = true ->
  time.isDigitByte c2 = true -> time.isDigitByte c3 = true ->
  lo <= ((time.digitVal c0 * 10 + time.digitVal c1) * 10 + time.digitVal c2) * 10
        + time.digitVal c3 <= hi ->
  time.parseUint (String c0 (String c1 (String c2 (String c3 EmptyString)))) lo hi
  = Some (((time.digitVal c0 * 10 + time.digitVal c1) * 10 + time.digitVal c2) * 10
          + time.digitVal c3).
Proof.
  intros H0 H1 H2 H3 Hr. unfold time.parseUint; simpl. rewrite H0, H1, H2, H3; simpl.
  replace ((((0 * 10 + time.digitVal c0) * 10 + time.digitVal c1) * 10
            + time.digitVal c2) * 10 + time.digitVal c3)
    with (((time.digitVal c0 * 10 + time.digitVal c1) * 10 + time.digitVal c2) * 10
          + time.digitVal c3) by lia.
  replace (_ || _) with false; [reflexivity|].
  symmetry. apply orb_false_iff. split; [apply Z.ltb_ge | apply Z.ltb_ge]; lia.
Qed.

Lemma substring_0_0 (s : string) : String.substring 0 0 s = EmptyString.
Proof. now destruct s. Qed.

Lemma substring_0_length (s : string) : String.substring 0 (String.length s) s = s.
Proof. induction s; simpl; [reflexivity | now rewrite IHs]. Qed.

Section ParseRendered.

(** The bytes of a rendered instant and the numbers they spell. *)
Variables y0 y1 y2 y3 m0 m1 d0 d1 h0 h1 i0 i1 s0 s1 : ascii.

Let year := ((time.digitVal y0 * 10 + time.digitVal y1) * 10 + time.digitVal y2) * 10
            + time.digitVal y3.
Let month := time.digitVal m0 * 10 + time.digitVal m1.
Let day := time.digitVal d0 * 10 + time.digitVal d1.
Let hour := time.digitVal h0 * 10 + time.digitVal h1.
Let minute := time.digitVal i0 * 10 + time.digitVal i1.
Let second := time.digitVal s0 * 10 + time.digitVal s1.

Hypothesis digits :
  forallb time.isDigitByte [y0; y1; y2; y3; m0; m1; d0; d1; h0; h1; i0; i1; s0; s1] = true.
Hypothesis year_range : 0 <= year <= 9999.
Hypothesis month_range : 1 <= month <= 12.
Hypothesis day_range : 1 <= day <= time.daysIn month year.
Hypothesis hour_range : 0 <= hour <= 23.
Hypothesis minute_range : 0 <= minute <= 59.
Hypothesis second_range : 0 <= second <= 59.

Lemma parseRFC3339_rendered_prefix (zone : string) :
  time.parseRFC3339 (rendered y0 y1 y2 y3 m0 m1 d0 d1 h0 h1 i0 i1 s0 s1 zone)
  = (let s := zone in
     '(nsec, s) ← (if (2 <=? String.length s)%nat && time.byteIs s 0 "."
                      && time.isDigit s 1
                   then time.parseFraction s else Some (0, s));
     let t := time.Date year month day hour minute second nsec in
     if (String.length s =? 1)%nat && time.byteIs s 0 "Z" then Some t else
     if negb (String.length s =? 6)%nat then None else
     hr ← time.parseUint (time.slice s 1 3) 0 23;
     mm ← time.parseUint (time.slice s 4 6) 0 59;
     if negb ((time.byteIs s 0 "-" || time.byteIs s 0 "+") && time.byteIs s 3 ":")
     then None else
     let zoneOffset := (hr * 60 + mm) * 60 in
     let zoneOffset := if time.byteIs s 0 "-" then - zoneOffset else zoneOffset in
     Some (time.addSec t (- zoneOffset))).
Proof.
  simpl in digits. rewrite !andb_true_iff in digits.
  destruct digits as (Hy0 & Hy1 & Hy2 & Hy3 & Hm0 & Hm1 & Hd0 & Hd1 & Hh0 & Hh1
                      & Hi0 & Hi1 & Hs0 & Hs1 & _).
  unfold year, month, day, hour, minute, second in *.
  unfold time.parseRFC3339, rendered.
  cbn [String.length Nat.ltb Nat.leb].
  change (time.slice (String y0 ?s) 0 4) with
    (String y0 (String y1 (String y2 (String y3 EmptyString)))).
  cbn [time.slice Nat.sub String.substring].
  rewrite (parseUint_4 y0 y1 y2 y3 0 9999 Hy0 Hy1 Hy2 Hy3 year_range).
  cbn [mbind option_bind].
  rewrite (parseUint_2 m0 m1 1 12 Hm0 Hm1 month_range).
  cbn [mbind option_bind].
  rewrite (parseUint_2 d0 d1 1 _ Hd0 Hd1 day_range).
  cbn [mbind option_bind].
  rewrite (parseUint_2 h0 h1 0 23 Hh0 Hh1 hour_range).
  cbn [mbind option_bind].
  rewrite (parseUint_2 i0 i1 0 59 Hi0 Hi1 minute_range).
  cbn [mbind option_bind].
  rewrite substring_0_0.
  rewrite (parseUint_2 s0 s1 0 59 Hs0 Hs1 second_range).
  cbn [mbind option_bind time.byteIs String.get Ascii.eqb Bool.eqb andb negb].
  cbn [time.drop String.length Nat.sub String.substring].
  rewrite Nat.sub_0_r, substring_0_length.
  reflexivity.
Qed.

End ParseRendered.

Lemma append_String (c : ascii) (s t : string) :
  String.append (String c s) t = String c (String.append s t).
Proof. reflexivity. Qed.

Lemma append_Empty (t : string) : String.append EmptyString t = t.
Proof. reflexivity. Qed.

Lemma appendInt_4 (y : Z) : 0 <= y <= 9999 -> time.appendInt y 4 = time.fourDigits y.
Proof.
  intros H. unfold time.appendInt.
  replace (y <? 0) with false by (symmetry; apply Z.ltb_ge; lia).
  rewrite Z.abs_eq by lia. simpl.
  replace (y <? 10000) with true by (symmetry; apply Z.ltb_lt; lia).
  reflexivity.
Qed.

Lemma appendInt_2 (x : Z) : 0 <= x <= 99 -> time.appendInt x 2 = time.twoDigits x.
Proof.
  intros H. unfold time.appendInt.
  replace (x <? 0) with false by (symmetry; apply Z.ltb_ge; lia).
  rewrite Z.abs_eq by lia. simpl.
  replace (x <? 100) with true by (symmetry; apply Z.ltb_lt; lia).
  reflexivity.
Qed.

Lemma wrap64_small (z : Z) : - 2 ^ 63 <= z < 2 ^ 63 -> time.wrap64 z = z.
Proof.
  intros H. unfold time.wrap64. rewrite Z.mod_small; lia.
Qed.

Lemma addSec_small (t : time.Time) (d : Z) :
  - 2 ^ 63 <= time.sec t + d < 2 ^ 63 ->
  time.addSec t d = time.mkTime (time.sec t + d) (time.nsec t).
Proof.
  intros H. unfold time.addSec. rewrite wrap64_small by exact H.
  replace (Bool.eqb (time.sec t + d >? time.sec t) (d >? 0)) with true; [reflexivity|].
  symmetry. destruct (Z.gtb_spec d 0).
  - replace (time.sec t + d >? time.sec t) with true; [reflexivity|].
    symmetry. apply Z.gtb_lt. lia.
  - replace (time.sec t + d >? time.sec t) with false; [reflexivity|].
    symmetry. rewrite Z.gtb_ltb. apply Z.ltb_ge. lia.
Qed.

(** Rendering an instant of the years 0 to 9999 and parsing the text again
    gives back the instant, cut to the whole second (and moved by what the
    zone offset has beyond whole minutes, which the text does not carry). *)
Lemma ParseRFC3339_FormatRFC3339 (loc : time.Location) (t : time.Time) :
  let offset := time.lookup loc (time.unixSec t) in
  -62167219200 <= time.unixSec t + offset < 253402300800 ->
  -86400 < offset < 86400 ->
  time.ParseRFC3339 (time.FormatRFC3339 loc t)
  = Some (time.mkTime (time.sec t + Z.rem offset 60) 0).
Proof.
  intros offset Habs Hoff.
  unfold time.FormatRFC3339. fold offset.
  set (abs := time.unixSec t + offset) in *.
  set (days := abs / time.secondsPerDay).
  assert (Hdays : -719528 <= days < 2932897)
    by (subst days; unfold time.secondsPerDay; Z.to_euclidean_division_equations; lia).
  pose proof (civilFromDays_valid days) as V.
  pose proof (civilFromDays_year_range days Hdays) as Y.
  destruct (time.civilFromDays days) as [[y m] d]. simpl in Y.
  destruct V as (Hm & Hd & Hrt).
  set (sod := abs mod time.secondsPerDay).
  assert (Hsod : 0 <= sod < 86400) by (subst sod; apply Z.mod_pos_bound; reflexivity).
  assert (Hd31 : d <= 31).
  { destruct Hd as [_ Hd]. unfold time.daysIn in Hd.
    destruct (m =? 2); [destruct (time.isLeap y); lia|].
    destruct ((m =? 4) || (m =? 6) || (m =? 9) || (m =? 11)); lia. }
  set (hh := sod / 3600). set (mi := sod mod 3600 / 60). set (ss := sod mod 60).
  assert (Hhh : 0 <= hh <= 23) by (subst hh; Z.to_euclidean_division_equations; lia).
  assert (Hmi : 0 <= mi <= 59) by (subst mi; Z.to_euclidean_division_equations; lia).
  assert (Hss : 0 <= ss <= 59) by (subst ss; Z.to_euclidean_division_equations; lia).
  assert (Hsplit : hh * 3600 + mi * 60 + ss = sod)
    by (subst hh mi ss; Z.to_euclidean_division_equations; lia).
  rewrite (appendInt_4 y) by lia.
  rewrite (appendInt_2 m), (appendInt_2 d), (appendInt_2 hh), (appendInt_2 mi),
    (appendInt_2 ss) by lia.
  unfold time.fourDigits, time.twoDigits at 1 2 3 4 5.
  rewrite ?append_String, ?append_Empty.
  match goal with
  | |- time.ParseRFC3339 (String ?a0 (String ?a1 (String ?a2 (String ?a3 (String _
         (String ?b0 (String ?b1 (String _ (String ?c0 (String ?c1 (String _
         (String ?e0 (String ?e1 (String _ (String ?f0 (String ?f1 (String _
         (String ?g0 (String ?g1 ?zone))))))))))))))))))) = _ =>
      change (time.ParseRFC3339 (rendered a0 a1 a2 a3 b0 b1 c0 c1 e0 e1 f0 f1 g0 g1 zone)
              = Some (time.mkTime (time.sec t + Z.rem offset 60) 0))
  end.
  assert (Dy : forall k, 0 <= k <= 9 -> time.isDigitByte (time.digit k) = true)
    by exact digit_isDigitByte.
  unfold time.ParseRFC3339.
  rewrite parseRFC3339_rendered_prefix.
  2:{ cbn [forallb]. rewrite !Dy by (Z.to_euclidean_division_equations; lia).
      reflexivity. }
  2-7: rewrite !digit_digitVal by (Z.to_euclidean_division_equations; lia).
  2-3, 5-7: (Z.to_euclidean_division_equations; lia).
  2:{ replace (m / 10 * 10 + m mod 10) with m by (Z.to_euclidean_division_equations; lia).
      replace (d / 10 * 10 + d mod 10) with d by (Z.to_euclidean_division_equations; lia).
      replace (((y / 1000 * 10 + y / 100 mod 10) * 10 + y / 10 mod 10) * 10 + y mod 10)
        with y by (Z.to_euclidean_division_equations; lia).
      exact Hd. }
  rewrite !digit_digitVal by (Z.to_euclidean_division_equations; lia).
  replace (m / 10 * 10 + m mod 10) with m by (Z.to_euclidean_division_equations; lia).
  replace (d / 10 * 10 + d mod 10) with d by (Z.to_euclidean_division_equations; lia).
  replace (hh / 10 * 10 + hh mod 10) with hh by (Z.to_euclidean_division_equations; lia).
  replace (mi / 10 * 10 + mi mod 10) with mi by (Z.to_euclidean_division_equations; lia).
  replace (ss / 10 * 10 + ss mod 10) with ss by (Z.to_euclidean_division_equations; lia).
  replace (((y / 1000 * 10 + y / 100 mod 10) * 10 + y / 10 mod 10) * 10 + y mod 10)
    with y by (Z.to_euclidean_division_equations; lia).
  assert (HDate : forall n, time.Date y m d hh mi ss n
                            = time.mkTime (time.sec t + offset) n).
  { intros n. unfold time.Date, time.unixTime. rewrite Hrt. f_equal.
    replace (days * time.secondsPerDay + hh * 3600 + mi * 60 + ss) with abs.
    - subst abs. unfold time.unixSec. lia.
    - subst days sod. unfold time.secondsPerDay in *.
      Z.to_euclidean_division_equations; lia. }
  assert (Hsec : -31622400 <= time.sec t + offset < 315537897600).
  { subst abs. unfold time.unixSec in Habs. change time.unixToInternal with 62135596800 in Habs.
    lia. }
  destruct (Z.eqb_spec offset 0) as [E0 | Hne].
  - cbn. rewrite HDate, E0. reflexivity.
  - set (zone := Z.quot offset 60).
    assert (Hzone : -1440 < zone < 1440)
      by (subst zone; Z.to_euclidean_division_equations; lia).
    set (zh := Z.quot (Z.abs zone) 60). set (zm := Z.rem (Z.abs zone) 60).
    assert (Hzh : 0 <= zh <= 23) by (subst zh; Z.to_euclidean_division_equations; lia).
    assert (Hzm : 0 <= zm <= 59) by (subst zm; Z.to_euclidean_division_equations; lia).
    assert (Hz : zh * 60 + zm = Z.abs zone)
      by (subst zh zm; Z.to_euclidean_division_equations; lia).
    rewrite (appendInt_2 zh), (appendInt_2 zm) by lia.
    unfold time.twoDigits.
    assert (Hpz : time.parseUint (String (time.digit (zh / 10))
                    (String (time.digit (zh mod 10)) EmptyString)) 0 23 = Some zh).
    { rewrite parseUint_2; rewrite ?digit_digitVal, ?Dy;
        try reflexivity; try (f_equal); Z.to_euclidean_division_equations; lia. }
    assert (Hpm : time.parseUint (String (time.digit (zm / 10))
                    (String (time.digit (zm mod 10)) EmptyString)) 0 59 = Some zm).
    { rewrite parseUint_2; rewrite ?digit_digitVal, ?Dy;
        try reflexivity; try (f_equal); Z.to_euclidean_division_equations; lia. }
    destruct (Z.ltb_spec zone 0) as [Hneg | Hpos];
      rewrite ?append_String, ?append_Empty;
      cbn [String.length Nat.leb andb time.byteIs String.get Ascii.eqb
           Bool.eqb mbind option_bind Nat.eqb negb orb time.slice Nat.sub
           String.substring];
      rewrite Hpz; cbn [mbind option_bind]; rewrite Hpm; cbn [mbind option_bind];
      rewrite HDate, addSec_small by (cbn [time.sec]; lia);
      cbn [time.sec time.nsec]; f_equal; f_equal;
      subst zone; Z.to_euclidean_division_equations; lia.
Qed.

(** ** Activity resolver: result *)

Lemma FormatRFC3339_nonempty (loc : time.Location) (t : time.Time) :
  time.FormatRFC3339 loc t <> EmptyString.
Proof.
  unfold time.FormatRFC3339.
  destruct (time.civilFromDays _) as [[y m] d].
  match goal with
  | |- String.append ?a (String.append (String ?c EmptyString) ?r) <> _ =>
      change (String.append a (String c r) <> EmptyString); destruct a; discriminate
  end.
Qed.

Lemma GetLastActivity_empty_iff (Local : time.Location) (pr : PullRequest)
    (cs : list Comment) :
  bitbucket.GetLastActivity Local pr cs = EmptyString <->
  (UpdatedDate pr = 0 /\ CreatedDate pr = 0)
  \/ time.IsZero (bitbucket.lastActivityTime pr cs) = true.
Proof.
  unfold bitbucket.GetLastActivity.
  destruct ((UpdatedDate pr =? 0) && (CreatedDate pr =? 0)) eqn:E0.
  - apply andb_true_iff in E0. rewrite !Z.eqb_eq in E0. tauto.
  - destruct (time.IsZero (bitbucket.lastActivityTime pr cs)) eqn:Ez.
    + tauto.
    + split.
      * intros H. now apply FormatRFC3339_nonempty in H.
      * intros [[Hu Hc] | H]; [|discriminate].
        rewrite Hu, Hc in E0. discriminate.
Qed.

(** Where the code agrees with the specification's algorithm: [updatedAt]
    is neither 0 nor at or before Go's zero time, or both dates are 0. *)
Lemma GetLastActivity_agrees_with_spec (Local : time.Location) (pr : PullRequest)
    (cs : list Comment) :
  (UpdatedDate pr <> 0 /\ zeroTimeMilli < UpdatedDate pr)
  \/ (UpdatedDate pr = 0 /\ CreatedDate pr = 0) ->
  bitbucket.GetLastActivity Local pr cs = ActivitySpec.GetLastActivity Local pr cs.
Proof.
  intros [[Hnz Hgt] | [Hu Hc]].
  - unfold bitbucket.GetLastActivity, ActivitySpec.GetLastActivity, ActivitySpec.resolve,
      ActivitySpec.start.
    apply Z.eqb_neq in Hnz. rewrite Hnz. simpl.
    rewrite lastActivityTime_UnixMilli.
    replace (UpdatedDate pr =? zeroTimeMilli) with false
      by (symmetry; apply Z.eqb_neq; lia).
    rewrite IsZero_UnixMilli.
    pose proof (scan_ge (UpdatedDate pr) cs).
    replace (ActivitySpec.scan (UpdatedDate pr) cs =? zeroTimeMilli) with false
      by (symmetry; apply Z.eqb_neq; lia).
    reflexivity.
  - unfold bitbucket.GetLastActivity, ActivitySpec.GetLastActivity, ActivitySpec.resolve,
      ActivitySpec.start.
    rewrite Hu, Hc. reflexivity.
Qed.

(** C1, the code at a failing input: a pull request never updated
    ([updatedAt = 0]) but created on 2023-11-14 resolves to the Unix epoch,
    where the specified algorithm falls back to [createdAt]. *)
Theorem GetLastActivity_zero_updatedAt_ignores_createdAt :
  let pr := sample.pullRequest 1 "Add login" 1700000000000 0 in
  bitbucket.GetLastActivity time.UTC pr [] = "1970-01-01T00:00:00Z"%string
  /\ ActivitySpec.GetLastActivity time.UTC pr [] = "2023-11-14T22:13:20Z"%string.
Proof. split; vm_compute; reflexivity. Qed.

(** The same for every pull request with [updatedAt = 0] and a non-zero
    [createdAt]: the scan starts from the Unix epoch. *)
Lemma lastActivityTime_zero_updatedAt (pr : PullRequest) (cs : list Comment) :
  UpdatedDate pr = 0 ->
  bitbucket.lastActivityTime pr cs = time.UnixMilli (ActivitySpec.scan 0 cs).
Proof.
  intros Hu. rewrite lastActivityTime_UnixMilli, Hu. reflexivity.
Qed.

(** C10, counterexample: with both dates at Go's zero time the result is
    empty although neither date is 0; and a date in the year 10000 gives a
    non-empty text that [time.Parse] rejects. *)
Lemma GetLastActivity_empty_or_unparseable :
  (let pr := sample.pullRequest 1 "Add login" (-62135596800000) (-62135596800000) in
   bitbucket.GetLastActivity time.UTC pr [] = EmptyString
   /\ UpdatedDate pr <> 0 /\ CreatedDate pr <> 0)
  /\ (let pr := sample.pullRequest 1 "Add login" 0 253402300800000 in
      bitbucket.GetLastActivity time.UTC pr [] = "10000-01-01T00:00:00Z"%string
      /\ time.ParseRFC3339 (bitbucket.GetLastActivity time.UTC pr []) = None).
Proof.
  split; [split; [vm_compute; reflexivity | split; discriminate]|].
  split; vm_compute; reflexivity.
Qed.

(** A non-empty result that is renderable parses back to the latest instant
    found, cut to the second. *)
Lemma GetLastActivity_parses (Local : time.Location) (pr : PullRequest)
    (cs : list Comment) :
  bitbucket.GetLastActivity Local pr cs <> EmptyString ->
  renderable Local (bitbucket.lastActivityTime pr cs) ->
  time.ParseRFC3339 (bitbucket.GetLastActivity Local pr cs)
  = Some (time.mkTime (time.sec (bitbucket.lastActivityTime pr cs)) 0).
Proof.
  intros Hne (Habs & Hoff & Hrem).
  unfold bitbucket.GetLastActivity in *.
  destruct ((UpdatedDate pr =? 0) && (CreatedDate pr =? 0)); [contradiction|].
  destruct (time.IsZero (bitbucket.lastActivityTime pr cs)); [contradiction|].
  rewrite ParseRFC3339_FormatRFC3339 by assumption.
  rewrite Hrem. do 2 f_equal. lia.
Qed.

(** C10, as the code has it: the result is empty exactly when both dates
    are 0 or the latest instant found is Go's zero time (whatever the
    comments are in the first case); a non-empty result of the years 0 to
    9999, in a zone offset of whole minutes, parses back to the latest
    instant cut to the second. *)
Theorem GetLastActivity_empty_and_parse (Local : time.Location) (pr : PullRequest)
    (cs : list Comment) :
  (bitbucket.GetLastActivity Local pr cs = EmptyString <->
     (UpdatedDate pr = 0 /\ CreatedDate pr = 0)
     \/ time.IsZero (bitbucket.lastActivityTime pr cs) = true)
  /\ (UpdatedDate pr = 0 /\ CreatedDate pr = 0 ->
      forall cs', bitbucket.GetLastActivity Local pr cs' = EmptyString)
  /\ (bitbucket.GetLastActivity Local pr cs <> EmptyString ->
      renderable Local (bitbucket.lastActivityTime pr cs) ->
      time.ParseRFC3339 (bitbucket.GetLastActivity Local pr cs)
      = Some (time.mkTime (time.sec (bitbucket.lastActivityTime pr cs)) 0)).
Proof.
  split; [apply GetLastActivity_empty_iff | split].
  - intros H cs'. apply GetLastActivity_empty_iff. now left.
  - apply GetLastActivity_parses.
Qed.

Lemma GetLastActivity_empty_and_parse_witness :
  let pr := sample.pullRequest 1 "Add login" 1700000000000 1700000500123 in
  let cs := [sample.comment 1700000100000 1700000900456] in
  time.ParseRFC3339 (bitbucket.GetLastActivity time.UTC pr cs)
  = Some (time.mkTime (time.sec (bitbucket.lastActivityTime pr cs)) 0).
Proof.
  intros pr cs.
  apply (proj2 (proj2 (GetLastActivity_empty_and_parse time.UTC pr cs))).
  - vm_compute. discriminate.
  - unfold renderable. vm_compute. repeat split; discriminate.
Defined.

(** ** Activity resolver: appending a comment *)

Lemma lastActivityTime_app (pr : PullRequest) (cs : list Comment) (c : Comment) :
  bitbucket.lastActivityTime pr (cs ++ [c])
  = (let commentTime := time.UnixMilli (CommentUpdatedDate c) in
     if time.After commentTime (bitbucket.lastActivityTime pr cs) then commentTime
     else bitbucket.lastActivityTime pr cs).
Proof.
  unfold bitbucket.lastActivityTime, bitbucket.scanComments.
  now rewrite fold_left_app.
Qed.

Lemma nsec_lastActivityTime_nonneg (pr : PullRequest) (cs : list Comment) :
  0 <= time.nsec (bitbucket.lastActivityTime pr cs).
Proof.
  rewrite lastActivityTime_UnixMilli, UnixMilli_floor. simpl.
  Z.to_euclidean_division_equations; lia.
Qed.

(** C3, counterexample: the pull request was updated at 1.5 s, so its
    resolved value is the instant 1 s; a comment updated at 1.7 s is strictly
    later than that value, and yet the resolved value stays the same. *)
Lemma later_comment_same_value :
  let pr := sample.pullRequest 1 "Add login" 1000 1500 in
  let c := sample.comment 1700 1700 in
  let v := time.mkTime 62135596801 0 in
  time.ParseRFC3339 (bitbucket.GetLastActivity time.UTC pr []) = Some v
  /\ time.After (time.UnixMilli (CommentUpdatedDate c)) v = true
  /\ time.ParseRFC3339 (bitbucket.GetLastActivity time.UTC pr ([] ++ [c])) = Some v.
Proof. conjuncts; vm_compute; reflexivity. Qed.

(** C3, as the code has it.  Let the resolved value parse to the instant
    [v], a whole second.  A further comment updated in a later second than
    [v] (renderable, and not at Go's zero time) gives a resolved value
    strictly after [v]; a further comment updated at or before [v] leaves
    the result as it is. *)
Theorem appended_comment_monotone (Local : time.Location) (pr : PullRequest)
    (cs : list Comment) (c : Comment) :
  let commentTime := time.UnixMilli (CommentUpdatedDate c) in
  bitbucket.GetLastActivity Local pr cs <> EmptyString ->
  renderable Local (bitbucket.lastActivityTime pr cs) ->
  exists v,
    time.ParseRFC3339 (bitbucket.GetLastActivity Local pr cs) = Some v
    /\ (time.sec v < time.sec commentTime ->
        time.IsZero commentTime = false ->
        renderable Local commentTime ->
        exists v',
          time.ParseRFC3339 (bitbucket.GetLastActivity Local pr (cs ++ [c])) = Some v'
          /\ time.After v' v = true)
    /\ (time.After commentTime v = false ->
        bitbucket.GetLastActivity Local pr (cs ++ [c])
        = bitbucket.GetLastActivity Local pr cs).
Proof.
  intros commentTime Hne Hr.
  pose proof (GetLastActivity_empty_iff Local pr cs) as Hiff.
  exists (time.mkTime (time.sec (bitbucket.lastActivityTime pr cs)) 0).
  split; [now apply GetLastActivity_parses|].
  assert (Hnz : (UpdatedDate pr =? 0) && (CreatedDate pr =? 0) = false).
  { destruct ((UpdatedDate pr =? 0) && (CreatedDate pr =? 0)) eqn:E; [|reflexivity].
    exfalso. apply Hne. apply Hiff. left.
    apply andb_true_iff in E. now rewrite !Z.eqb_eq in E. }
  pose proof (lastActivityTime_app pr cs c) as Happ. cbv zeta in Happ.
  fold commentTime in Happ.
  split.
  - cbn [time.sec]. intros Hlater Hcz Hrc.
    assert (Hafter : time.After commentTime (bitbucket.lastActivityTime pr cs) = true).
    { unfold time.After. apply orb_true_iff. left. apply Z.gtb_lt. exact Hlater. }
    rewrite Hafter in Happ.
    exists (time.mkTime (time.sec commentTime) 0). split.
    + pose proof (GetLastActivity_empty_iff Local pr (cs ++ [c])) as Hiff'.
      pose proof (GetLastActivity_parses Local pr (cs ++ [c])) as Hp'.
      rewrite Happ in Hp'. apply Hp'; [|exact Hrc].
      intros He. apply Hiff' in He. destruct He as [[Hu Hc] | Hz].
      * rewrite Hu, Hc in Hnz. discriminate.
      * rewrite Happ in Hz. congruence.
    + unfold time.After. cbn [time.sec time.nsec].
      apply orb_true_iff. left. apply Z.gtb_lt. exact Hlater.
  - intros Hnot.
    assert (Hafter : time.After commentTime (bitbucket.lastActivityTime pr cs) = false).
    { pose proof (nsec_lastActivityTime_nonneg pr cs) as Hn.
      unfold time.After in *. cbn [time.sec time.nsec] in Hnot.
      apply orb_false_iff in Hnot. destruct Hnot as [Hs He].
      rewrite Z.gtb_ltb in Hs. apply Z.ltb_ge in Hs.
      apply orb_false_iff. split.
      - rewrite Z.gtb_ltb. apply Z.ltb_ge. exact Hs.
      - apply andb_false_iff in He. destruct He as [He | He].
        + rewrite He. reflexivity.
        + apply andb_false_iff. right.
          rewrite Z.gtb_ltb in *. apply Z.ltb_ge in He. apply Z.ltb_ge. lia. }
    rewrite Hafter in Happ.
    unfold bitbucket.GetLastActivity. now rewrite Happ.
Qed.

Lemma appended_comment_monotone_witness :
  let pr := sample.pullRequest 1 "Add login" 1700000000000 1700000500123 in
  let cs := [sample.comment 1700000100000 1700000900456] in
  let c := sample.comment 1700000100000 1700000950000 in
  exists v,
    time.ParseRFC3339 (bitbucket.GetLastActivity time.UTC pr cs) = Some v
    /\ (time.sec v < time.sec (time.UnixMilli (CommentUpdatedDate c)) ->
        time.IsZero (time.UnixMilli (CommentUpdatedDate c)) = false ->
        renderable time.UTC (time.UnixMilli (CommentUpdatedDate c)) ->
        exists v',
          time.ParseRFC3339 (bitbucket.GetLastActivity time.UTC pr (cs ++ [c])) = Some v'
          /\ time.After v' v = true)
    /\ (time.After (time.UnixMilli (CommentUpdatedDate c)) v = false ->
        bitbucket.GetLastActivity time.UTC pr (cs ++ [c])
        = bitbucket.GetLastActivity time.UTC pr cs).
Proof.
  intros pr cs c.
  apply (appended_comment_monotone time.UTC pr cs c).
  - vm_compute. discriminate.
  - unfold renderable. vm_compute. repeat split; discriminate.
Defined.

(** ** Package time: differences *)

Lemma wrap64_mod (z : Z) : time.wrap64 z = z + 2 ^ 64 * (- ((z + 2 ^ 63) / 2 ^ 64)).
Proof.
  unfold time.wrap64. rewrite Z.mod_eq by lia. lia.
Qed.

Lemma wrap64_congr (a b k : Z) : a = b + 2 ^ 64 * k -> time.wrap64 a = time.wrap64 b.
Proof.
  intros ->. unfold time.wrap64.
  replace (b + 2 ^ 64 * k + 2 ^ 63) with (b + 2 ^ 63 + k * 2 ^ 64) by lia.
  now rewrite Z.mod_add by lia.
Qed.

(** [Time.Sub] is the exact difference whenever that fits a Duration. *)
Lemma Sub_exact (t u : time.Time) :
  wellFormed t -> wellFormed u ->
  time.minDuration <= exactDiff t u <= time.maxDuration ->
  time.Sub t u = exactDiff t u.
Proof.
  intros [Htn Hts] [Hun Hus] Hd. unfold time.minDuration, time.maxDuration in Hd.
  unfold time.Sub.
  set (d := time.wrap64 (time.wrap64 (time.wrap64 (time.sec t - time.sec u) * time.Second)
                         + (time.nsec t - time.nsec u))).
  assert (Ed : d = exactDiff t u).
  { subst d. rewrite <- (wrap64_small (exactDiff t u)) by lia.
    rewrite (wrap64_mod (time.sec t - time.sec u)).
    set (k1 := - ((time.sec t - time.sec u + 2 ^ 63) / 2 ^ 64)).
    rewrite (wrap64_mod ((time.sec t - time.sec u + 2 ^ 64 * k1) * time.Second)).
    set (k2 := - (((time.sec t - time.sec u + 2 ^ 64 * k1) * time.Second + 2 ^ 63) / 2 ^ 64)).
    apply (wrap64_congr _ _ (k1 * 1000000000 + k2)).
    unfold exactDiff. change time.Second with 1000000000. lia. }
  rewrite Ed. clear d Ed.
  set (d := exactDiff t u) in *.
  assert (Hadd : time.Add u d = t).
  { unfold time.Add.
    assert (Hq : d = 1000000000 * Z.quot d 1000000000 + Z.rem d 1000000000)
      by apply Z.quot_rem'.
    assert (Hr : -1000000000 < Z.rem d 1000000000 < 1000000000)
      by (Z.to_euclidean_division_equations; lia).
    unfold exactDiff in d. destruct t as [ts tn], u as [us un]; cbn [time.sec time.nsec] in *.
    destruct (Z.geb_spec (un + Z.rem d 1000000000) 1000000000) as [Hge | Hlt].
    - assert (Z.quot d 1000000000 + 1 = ts - us /\ un + Z.rem d 1000000000 - 1000000000 = tn)
        as [E1 E2] by (subst d; lia).
      rewrite addSec_small; cbn [time.sec time.nsec]; [f_equal; lia | lia].
    - destruct (Z.ltb_spec (un + Z.rem d 1000000000) 0) as [Hneg | Hpos].
      + assert (Z.quot d 1000000000 - 1 = ts - us /\ un + Z.rem d 1000000000 + 1000000000 = tn)
          as [E1 E2] by (subst d; lia).
        rewrite addSec_small; cbn [time.sec time.nsec]; [f_equal; lia | lia].
      + assert (Z.quot d 1000000000 = ts - us /\ un + Z.rem d 1000000000 = tn)
          as [E1 E2] by (subst d; lia).
        rewrite addSec_small; cbn [time.sec time.nsec]; [f_equal; lia | lia]. }
  rewrite Hadd. unfold time.Equal. now rewrite !Z.eqb_refl.
Qed.

(** ** The check cycle *)

Section Cycle.

Import config main.

Variables (cfg : Config) (env : Env).

Ltac same := split; reflexivity.

Lemma untouched_refl w : untouched w w.
Proof. now split. Qed.

Lemma untouched_trans w1 w2 w3 : untouched w1 w2 -> untouched w2 w3 -> untouched w1 w3.
Proof. intros [] []. split; congruence. Qed.

Lemma processPR_untouched repo b w pr :
  untouched w (snd (processPR cfg env repo (b, w) pr)).
Proof.
  unfold processPR.
  destruct (GetParticipants _ repo (ID pr)); [|same].
  destruct (bitbucket.IsPRApproved a); [same|].
  destruct (GetComments _ repo (ID pr)); [|same].
  destruct (String.eqb _ _); [same|].
  destruct (time.ParseRFC3339 _); [|same].
  cbn [readClock]. destruct (isStale _ _ _); same.
Qed.

Lemma fold_processPR_untouched repo prs b w :
  untouched w (snd (fold_left (processPR cfg env repo) prs (b, w))).
Proof.
  revert b w; induction prs as [|pr prs IH]; intros b w; cbn [fold_left]; [same|].
  pose proof (processPR_untouched repo b w pr) as H.
  destruct (processPR cfg env repo (b, w) pr) as [b' w']. simpl in H.
  eapply untouched_trans; [exact H | apply IH].
Qed.

Lemma processRepo_untouched b w repo :
  untouched w (snd (processRepo cfg env (b, w) repo)).
Proof.
  unfold processRepo. destruct (ListOpenPRs _ repo); [|same].
  eapply untouched_trans; [|apply fold_processPR_untouched]. same.
Qed.

Lemma fold_processRepo_untouched repos b w :
  untouched w (snd (fold_left (processRepo cfg env) repos (b, w))).
Proof.
  revert b w; induction repos as [|repo repos IH]; intros b w; cbn [fold_left];
    [same|].
  pose proof (processRepo_untouched b w repo) as H.
  destruct (processRepo cfg env (b, w) repo) as [b' w']. simpl in H.
  eapply untouched_trans; [exact H | apply IH].
Qed.

Lemma cycle_untouched w : untouched w (snd (cycle cfg env w)).
Proof. apply fold_processRepo_untouched. Qed.

(** The notifications of a dispatch: one per notifier, each with the
    cycle's accumulators. *)
Lemma fold_notifyOne b ns w :
  let w' := fold_left (notifyOne cfg b) ns w in
  file w' = file w /\ clockReads w' = clockReads w /\ requests w' = requests w
  /\ sent w' = sent w ++
       map (fun n => {| channel := name n;
                        notifiedPRs := allPRsToNotify b;
                        notifiedRepoPRs := repoPRsToNotify b;
                        notifiedParticipants := prParticipants b;
                        notifiedStaleAfterDays := StaleAfterDays (PRFilter cfg) |}) ns.
Proof.
  revert w; induction ns as [|n ns IH]; intros w; simpl.
  - now rewrite app_nil_r.
  - specialize (IH (notifyOne cfg b w n)). simpl in IH.
    destruct IH as (Hf & Hc & Hr & Hs). rewrite Hf, Hc, Hr, Hs.
    unfold notifyOne. destruct (Notify n _ _ _ _); simpl; rewrite <- app_assoc; auto.
Qed.

(** C8: a cycle never writes the checkpoint; after a cycle without stale
    pull request the checkpoint is the one before (no clock reading, no
    notification either); the checkpoint differs from the one before only
    when there was a stale pull request, and a successful write stores the
    clock reading taken after the dispatch. *)
Theorem checkpoint_moves_only_with_stale_PRs (w : World) :
  let b := fst (cycle cfg env w) in
  let w1 := snd (cycle cfg env w) in
  let w2 := conclude cfg env b w1 in
  file w1 = file w
  /\ (allPRsToNotify b = [] ->
      file w2 = file w /\ sent w2 = sent w /\ clockReads w2 = clockReads w1)
  /\ (file w2 <> file w -> allPRsToNotify b <> [])
  /\ (allPRsToNotify b <> [] ->
      writeFailure env (Now env (clockReads w1)) = None ->
      file w2 = store.Timestamp (Now env (clockReads w1))).
Proof.
  intros b w1 w2. destruct (cycle_untouched w) as [Hf Hs]. fold w1 in Hf, Hs.
  assert (Hempty : allPRsToNotify b = [] ->
                   file w2 = file w /\ sent w2 = sent w /\ clockReads w2 = clockReads w1).
  { intros He. subst w2. unfold conclude. rewrite He. simpl. auto. }
  split; [exact Hf|]. split; [exact Hempty|]. split.
  - intros Hne He. apply Hne. now apply Hempty.
  - intros Hne Hw. subst w2. unfold conclude.
    destruct (allPRsToNotify b) as [|p ps] eqn:E; [contradiction|].
    cbn [length Nat.ltb Nat.leb].
    pose proof (fold_notifyOne b (notifiers cfg env)
                  (slog INFO "Sending summary notification email" w1)) as F.
    cbv zeta in F. destruct F as (Ff & Fc & _ & _).
    unfold readClock. rewrite Fc. cbn [clockReads slog].
    rewrite Hw. reflexivity.
Qed.









End Cycle.

(** ** The schedule loop *)

Section Loop.

Import config main.

Variable cfg : Config.

(** The pass that runs the check cycle, in the world [w0] left by the
    gate. *)
Abbreviation runsCycle env w0 :=
  (let '(b, w1) := cycle cfg env w0 in wait env (conclude cfg env b w1)).

(** The pass that skips it. *)
Abbreviation skipsCycle env w0 :=
  (wait env (slog INFO "No notification sent (interval not reached)" w0)).

Lemma iteration_gate (env : Env) (w : World) (lastNotified : time.Time) :
  doneAtTop env = false ->
  store.GetLastNotificationTime (file w) = Ok lastNotified ->
  iteration cfg env w
  = (if fst (shouldNotify cfg env lastNotified w)
     then runsCycle env (snd (shouldNotify cfg env lastNotified w))
     else skipsCycle env (snd (shouldNotify cfg env lastNotified w))).
Proof.
  intros Hd Hg. unfold iteration. rewrite Hd, Hg.
  destruct (shouldNotify cfg env lastNotified w) as [go w0]. cbn [fst snd].
  now destruct go.
Qed.

Lemma skipsCycle_frame (env : Env) (w0 : World) :
  let '(o, w') := skipsCycle env w0 in
  requests w' = requests w0 /\ sent w' = sent w0 /\ file w' = file w0
  /\ o = (if doneInWait env then Return None else Continue).
Proof. unfold wait. destruct (doneInWait env); cbn; auto. Qed.

(** C5: with the context still live and the checkpoint read, the pass
    runs the check cycle when the checkpoint is the zero Time (as it is
    when the file cannot be read) or when [now - lastNotified], the
    Duration [time.Since(lastNotified)], is at least the interval;
    otherwise it sends no request, notifies nobody, leaves the checkpoint
    alone and goes to the wait.  That Duration is the exact difference
    whenever the difference is a Duration; one second short of the
    interval skips, one second past it runs. *)
Theorem gate_decides_cycle (env : Env) (w : World) (lastNotified : time.Time) :
  doneAtTop env = false ->
  store.GetLastNotificationTime (file w) = Ok lastNotified ->
  let now := Now env (clockReads w) in
  let elapsed := time.Since now lastNotified in
  (time.IsZero lastNotified = true -> iteration cfg env w = runsCycle env w)
  /\ (file w = store.Unreadable -> iteration cfg env w = runsCycle env w)
  /\ (time.IsZero lastNotified = false -> interval cfg <= elapsed ->
      iteration cfg env w = runsCycle env (snd (readClock env w)))
  /\ (time.IsZero lastNotified = false -> elapsed < interval cfg ->
      iteration cfg env w = skipsCycle env (snd (readClock env w))
      /\ requests (snd (iteration cfg env w)) = requests w
      /\ sent (snd (iteration cfg env w)) = sent w
      /\ file (snd (iteration cfg env w)) = file w
      /\ fst (iteration cfg env w) = (if doneInWait env then Return None else Continue))
  /\ (wellFormed now -> wellFormed lastNotified ->
      time.minDuration <= exactDiff now lastNotified <= time.maxDuration ->
      elapsed = exactDiff now lastNotified)
  /\ (time.IsZero lastNotified = false ->
      wellFormed now -> wellFormed lastNotified ->
      time.minDuration <= interval cfg - time.Second ->
      exactDiff now lastNotified = interval cfg - time.Second ->
      iteration cfg env w = skipsCycle env (snd (readClock env w)))
  /\ (time.IsZero lastNotified = false ->
      wellFormed now -> wellFormed lastNotified ->
      interval cfg + time.Second <= time.maxDuration ->
      exactDiff now lastNotified = interval cfg + time.Second ->
      iteration cfg env w = runsCycle env (snd (readClock env w))).
Proof.
  intros Hd Hg now elapsed.
  pose proof (iteration_gate env w lastNotified Hd Hg) as Hit.
  assert (Hzero : time.IsZero lastNotified = true -> iteration cfg env w = runsCycle env w).
  { intros Hz. rewrite Hit. unfold shouldNotify. now rewrite Hz. }
  assert (Hgate : time.IsZero lastNotified = false ->
                  shouldNotify cfg env lastNotified w
                  = (elapsed >=? interval cfg, snd (readClock env w))).
  { intros Hnz. unfold shouldNotify. rewrite Hnz. reflexivity. }
  assert (Hrun : time.IsZero lastNotified = false -> interval cfg <= elapsed ->
                 iteration cfg env w = runsCycle env (snd (readClock env w))).
  { intros Hnz Hle. rewrite Hit, (Hgate Hnz). cbn [fst snd].
    replace (elapsed >=? interval cfg) with true; [reflexivity|].
    symmetry. apply Z.geb_le. exact Hle. }
  assert (Hskip : time.IsZero lastNotified = false -> elapsed < interval cfg ->
                  iteration cfg env w = skipsCycle env (snd (readClock env w))).
  { intros Hnz Hlt. rewrite Hit, (Hgate Hnz). cbn [fst snd].
    replace (elapsed >=? interval cfg) with false; [reflexivity|].
    symmetry. rewrite Z.geb_leb. apply Z.leb_gt. exact Hlt. }
  assert (Hexact : wellFormed now -> wellFormed lastNotified ->
                   time.minDuration <= exactDiff now lastNotified <= time.maxDuration ->
                   elapsed = exactDiff now lastNotified).
  { intros Hwn Hwl Hr. now apply Sub_exact. }
  assert (Hint : time.minDuration <= interval cfg <= time.maxDuration).
  { unfold interval, time.wrap64, time.minDuration, time.maxDuration.
    pose proof (Z.mod_pos_bound (IntervalHours (Notification cfg) * time.Hour + 2 ^ 63)
                  (2 ^ 64) ltac:(lia)). lia. }
  change time.Second with 1000000000 in *.
  split; [exact Hzero|]. split; [|split; [exact Hrun|split; [|split; [exact Hexact|split]]]].
  - intros Hf. apply Hzero. rewrite Hf in Hg. injection Hg as <-. reflexivity.
  - intros Hnz Hlt. split; [now apply Hskip|]. rewrite (Hskip Hnz Hlt).
    pose proof (skipsCycle_frame env (snd (readClock env w))) as F.
    destruct (skipsCycle env (snd (readClock env w))) as [o w']. cbn [fst snd] in *.
    tauto.
  - intros Hnz Hwn Hwl Hmin He. apply (Hskip Hnz).
    rewrite (Hexact Hwn Hwl) by lia. lia.
  - intros Hnz Hwn Hwl Hmax He. apply (Hrun Hnz).
    rewrite (Hexact Hwn Hwl) by lia. lia.
Qed.

Lemma iteration_error (env : Env) (w w' : World) (e : error) :
  iteration cfg env w = (Return (Some e), w') ->
  doneAtTop env = false /\ store.GetLastNotificationTime (file w) = Err e /\ w' = w.
Proof.
  unfold iteration. destruct (doneAtTop env); [discriminate|].
  destruct (store.GetLastNotificationTime (file w)) as [lastNotified | e'].
  - destruct (shouldNotify cfg env lastNotified w) as [go w0].
    destruct go; cbn [negb].
    + destruct (cycle cfg env w0) as [b w1]. unfold wait.
      destruct (doneInWait env); discriminate.
    + unfold wait. destruct (doneInWait env); discriminate.
  - intros H. injection H as -> ->. auto.
Qed.

(** C2, as the code has it.  A failure to read the checkpoint makes [run]
    return that error at once, and [run] returns an error in no other way:
    when it does, the checkpoint read has just failed with it.  A failure
    to write the checkpoint is not returned: it is logged and the pass ends
    in the wait like any other.  The file is then as the failed write left
    it: as it was when the time could not be encoded or the file could not
    be opened; holding the new time when only the close failed; truncated
    when the write failed after the file was opened, and then the next
    pass that reads the checkpoint returns the read error. *)
Theorem only_checkpoint_read_failure_aborts (envs : nat -> Env) :
  (forall fuel i w e,
      doneAtTop (envs i) = false ->
      store.GetLastNotificationTime (file w) = Err e ->
      run cfg envs (S fuel) i w = (Some (Some e), w))
  /\ (forall fuel i w e w',
        run cfg envs fuel i w = (Some (Some e), w') ->
        store.GetLastNotificationTime (file w') = Err e)
  /\ (forall env b w failure,
        allPRsToNotify b <> [] ->
        writeFailure env (Now env (clockReads w)) = Some failure ->
        let now := Now env (clockReads w) in
        let w' := conclude cfg env b w in
        let w'' := snd (wait env w') in
        last (logs w')
        = Some {| level := ERROR; msg := "Error updating last notification time" |}
        /\ wait env w'
           = (if doneInWait env then Return None else Continue,
              slog INFO "Sleeping until next check..." w')
        /\ file w'' = store.leftover failure now (file w)
        /\ (forall err, failure = store.MarshalError err -> file w'' = file w)
        /\ (forall err, failure = store.WriteFileError err store.Untouched ->
                        file w'' = file w)
        /\ (forall err, failure = store.WriteFileError err store.Written ->
                        file w'' = store.Timestamp now)
        /\ (forall err, failure = store.WriteFileError err store.Truncated ->
              file w'' = store.Malformed
              /\ forall fuel i,
                   doneAtTop (envs i) = false ->
                   run cfg envs (S fuel) i w''
                   = (Some (Some (errorString "error parsing timestamp")), w''))).
Proof.
  assert (Hread : forall fuel i w e,
            doneAtTop (envs i) = false ->
            store.GetLastNotificationTime (file w) = Err e ->
            run cfg envs (S fuel) i w = (Some (Some e), w)).
  { intros fuel i w e Hd Hg. cbn [run]. unfold iteration. now rewrite Hd, Hg. }
  split; [exact Hread|]. split.
  - induction fuel as [|fuel IH]; intros i w e w' H; [discriminate|].
    cbn [run] in H. destruct (iteration cfg (envs i) w) as [[r|] w1] eqn:E.
    + injection H as -> ->. apply iteration_error in E. destruct E as (_ & Hg & ->).
      exact Hg.
    + now apply IH in H.
  - intros env b w failure Hne Hw now w' w''.
    assert (Hwait : wait env w'
                    = (if doneInWait env then Return None else Continue,
                       slog INFO "Sleeping until next check..." w'))
      by (unfold wait; now destruct (doneInWait env)).
    assert (Hconclude : last (logs w')
                        = Some {| level := ERROR;
                                  msg := "Error updating last notification time" |}
                        /\ file w' = store.leftover failure now (file w)).
    { subst w'. unfold conclude.
      destruct (allPRsToNotify b) as [|p l]; [contradiction|].
      cbn [length Nat.ltb Nat.leb].
      pose proof (fold_notifyOne cfg b (notifiers cfg env)
                    (slog INFO "Sending summary notification email" w)) as F.
      cbv zeta in F. destruct F as (Ff & Fc & _ & _).
      unfold readClock. rewrite Fc. cbn [clockReads slog]. rewrite Hw. fold now.
      unfold store.SetLastNotificationTime.
      destruct failure as [err | err state]; cbn [logs file slog setFile];
        (split; [apply last_snoc|]); unfold store.leftover;
        try destruct state; try rewrite Ff; reflexivity. }
    destruct Hconclude as [Hlog Hfile].
    assert (Hfile' : file w'' = store.leftover failure now (file w))
      by (subst w''; rewrite Hwait; cbn [snd file slog]; exact Hfile).
    split; [exact Hlog|]. split; [exact Hwait|]. split; [exact Hfile'|].
    rewrite Hfile'.
    split; [intros err ->; reflexivity|].
    split; [intros err ->; reflexivity|].
    split; [intros err ->; reflexivity|].
    intros err ->. split; [reflexivity|].
    intros fuel i Hd. apply Hread; [exact Hd|]. now rewrite Hfile'.
Qed.

End Loop.

(** C2, counterexample: in the sample scenario the stale pull request is
    notified, the checkpoint write fails (the file cannot be opened), the
    failure is logged, and [run] goes on: after three passes it still has
    not returned. *)
Lemma checkpoint_write_failure_does_not_abort :
  let failure :=
    store.WriteFileError
      (errorString "open tmp/last_notification.txt: no such file or directory")
      store.Untouched in
  let envs := fun _ : nat => scenario.env (Some failure) in
  let w1 := snd (main.iteration scenario.cfg (envs 0%nat) scenario.world) in
  fst (store.SetLastNotificationTime
         (main.writeFailure (envs 0%nat) (main.Now (envs 0%nat) 0%nat))
         (main.Now (envs 0%nat) 0%nat) (main.file scenario.world))
  = Some (errorString
      "error writing timestamp file: open tmp/last_notification.txt: no such file or directory")
  /\ map models.ID (concat (map main.notifiedPRs (main.sent w1))) = [3]
  /\ In {| main.level := main.ERROR;
           main.msg := "Error updating last notification time" |} (main.logs w1)
  /\ fst (main.iteration scenario.cfg (envs 0%nat) scenario.world) = main.Continue
  /\ fst (main.run scenario.cfg envs 3 0 scenario.world) = None.
Proof.
  intros failure envs w1.
  split; [vm_compute; reflexivity|].
  split; [vm_compute; reflexivity|].
  split; [vm_compute; do 4 right; left; reflexivity|].
  split; vm_compute; reflexivity.
Qed.

(** ** float64: rounding to nearest *)

Section Float64.

Lemma roundHalfEven_ge (n d c : Z) :
0 < d -> c * d <= n -> c <= float64.roundHalfEven n d.
Proof.
intros Hd H. unfold float64.roundHalfEven.
assert (c <= n / d) by (apply Z.div_le_lower_bound; lia).
destruct (2 * (n mod d) ?= d); [destruct (Z.even (n / d))|..]; lia.
Qed.

Lemma roundHalfEven_le (n d c : Z) :
0 < d -> n <= c * d -> float64.roundHalfEven n d <= c.
Proof.
intros Hd H. unfold float64.roundHalfEven.
pose proof (Z.div_mod n d ltac:(lia)) as E.
pose proof (Z.mod_pos_bound n d Hd) as B.
destruct (Z.eq_dec n (c * d)) as [-> | Hne].
- rewrite Z.mod_mul, Z.div_mul by lia.
  replace (2 * 0 ?= d) with Lt by (symmetry; apply Z.compare_lt_iff; lia). lia.
- assert (n / d < c) by (apply Z.div_lt_upper_bound; lia).
  destruct (2 * (n mod d) ?= d); [destruct (Z.even (n / d))|..]; lia.
Qed.

Local Open Scope Q_scope.

Lemma pow2_pos (e : Z) : 0 < 2 ^ e.
Proof. apply Qpower_0_lt. reflexivity. Qed.

Lemma pow2_plus (n m : Z) : 2 ^ (n + m) == 2 ^ n * 2 ^ m.
Proof. apply Qpower_plus. discriminate. Qed.

Lemma pow2_inject (k : Z) : (0 <= k)%Z -> inject_Z (2 ^ k) == 2 ^ k.
Proof. intros H. now rewrite Zpower_Qpower. Qed.

Lemma pow2_le (n m : Z) : (n <= m)%Z -> 2 ^ n <= 2 ^ m.
Proof.
intros H. apply Qpower_le_compat_l; [exact H | discriminate].
Qed.

Lemma pow2_lt (n m : Z) : (n < m)%Z -> 2 ^ n < 2 ^ m.
Proof.
intros H. apply Qpower_lt_compat_l; [exact H | reflexivity].
Qed.

(** [2^q] as the quotient of the two integer scalings. *)
Lemma pow2_scale (q : Z) :
inject_Z (2 ^ Z.max 0 q) == 2 ^ q * inject_Z (2 ^ Z.max 0 (- q)).
Proof.
rewrite !pow2_inject by lia.
rewrite <- pow2_plus. destruct (Z.le_gt_cases 0 q).
- now replace (q + Z.max 0 (- q))%Z with (Z.max 0 q) by lia.
- now replace (q + Z.max 0 (- q))%Z with (Z.max 0 q) by lia.
Qed.

Lemma inject_pos (z : Z) : (0 < z)%Z -> 0 < inject_Z z.
Proof. intros H. now rewrite Zlt_Qlt in H. Qed.

(** The integer comparison behind a rounding, read in [Q]. *)
Lemma scaled_le (a b c q : Z) :
(0 < b)%Z ->
(c * (b * 2 ^ Z.max 0 q) <= a * 2 ^ Z.max 0 (- q))%Z <->
inject_Z c * 2 ^ q <= inject_Z a / inject_Z b.
Proof.
intros Hb. rewrite Zle_Qle, !inject_Z_mult, (pow2_scale q).
assert (HB : 0 < inject_Z b) by now apply inject_pos.
assert (HN : 0 < inject_Z (2 ^ Z.max 0 (- q)))
  by (apply inject_pos; apply Z.pow_pos_nonneg; lia).
set (B := inject_Z b) in *. set (N := inject_Z (2 ^ Z.max 0 (- q))) in *.
set (A := inject_Z a). set (C := inject_Z c). set (t := 2 ^ q).
assert (E1 : C * (B * (t * N)) == (C * t * B) * N) by ring. rewrite E1.
rewrite Qmult_le_r by exact HN.
split; intros H.
- now apply Qle_shift_div_l.
- apply (Qmult_le_r _ _ B HB) in H.
  assert (E2 : A / B * B == A) by (field; intros E; rewrite E in HB; inversion HB).
  rewrite E2 in H.
  exact H.
Qed.

Lemma scaled_ge (a b c q : Z) :
(0 < b)%Z ->
(a * 2 ^ Z.max 0 (- q) <= c * (b * 2 ^ Z.max 0 q))%Z <->
inject_Z a / inject_Z b <= inject_Z c * 2 ^ q.
Proof.
intros Hb. rewrite Zle_Qle, !inject_Z_mult, (pow2_scale q).
assert (HB : 0 < inject_Z b) by now apply inject_pos.
assert (HN : 0 < inject_Z (2 ^ Z.max 0 (- q)))
  by (apply inject_pos; apply Z.pow_pos_nonneg; lia).
set (B := inject_Z b) in *. set (N := inject_Z (2 ^ Z.max 0 (- q))) in *.
set (A := inject_Z a). set (C := inject_Z c). set (t := 2 ^ q).
assert (E1 : C * (B * (t * N)) == (C * t * B) * N) by ring. rewrite E1.
rewrite Qmult_le_r by exact HN.
split; intros H.
- apply Qle_shift_div_r; [exact HB | exact H].
- apply (Qmult_le_r _ _ B HB) in H.
  assert (E2 : A / B * B == A) by (field; intros E; rewrite E in HB; inversion HB).
  rewrite E2 in H.
  exact H.
Qed.

(** [ilog2] is the binade of [a/b]. *)
Lemma ilog2_spec (a b : Z) :
(0 < a)%Z -> (0 < b)%Z ->
2 ^ float64.ilog2 a b <= inject_Z a / inject_Z b
/\ inject_Z a / inject_Z b < 2 ^ (float64.ilog2 a b + 1).
Proof.
intros Ha Hb.
assert (HB : 0 < inject_Z b) by now apply inject_pos.
assert (HA : 0 < inject_Z a) by now apply inject_pos.
destruct (Z.log2_spec a Ha) as [La Ua]. destruct (Z.log2_spec b Hb) as [Lb Ub].
pose proof (Z.log2_nonneg a) as Na. pose proof (Z.log2_nonneg b) as Nb.
rewrite Zle_Qle, pow2_inject in La, Lb by lia.
rewrite Zlt_Qlt, pow2_inject in Ua, Ub by lia.
set (la := Z.log2 a) in *. set (lb := Z.log2 b) in *.
unfold float64.ilog2. fold la lb.
assert (Hup : inject_Z a / inject_Z b < 2 ^ (la - lb + 1)).
{ apply Qlt_shift_div_r; [exact HB|].
  apply Qlt_le_trans with (2 ^ Z.succ la); [exact Ua|].
  replace (Z.succ la) with ((la - lb + 1) + lb)%Z by lia. rewrite pow2_plus.
  apply Qmult_le_l; [apply pow2_pos | exact Lb]. }
assert (Hlo : 2 ^ (la - lb - 1) <= inject_Z a / inject_Z b).
{ apply Qle_shift_div_l; [exact HB|].
  apply Qle_trans with (2 ^ la); [|exact La].
  replace la with ((la - lb - 1) + Z.succ lb)%Z at 2 by lia. rewrite pow2_plus.
  apply Qmult_le_l; [apply pow2_pos | apply Qlt_le_weak; exact Ub]. }
unfold float64.geqPow2.
destruct (Z.leb_spec (b * 2 ^ Z.max 0 (la - lb)) (a * 2 ^ Z.max 0 (- (la - lb)))) as [H | H].
- split; [|exact Hup].
  rewrite <- (Z.mul_1_l (b * 2 ^ Z.max 0 (la - lb))) in H.
  apply (scaled_le a b 1 (la - lb) Hb) in H.
  now rewrite Qmult_1_l in H.
- replace (la - lb - 1 + 1)%Z with (la - lb)%Z by lia. split; [exact Hlo|].
  apply Qnot_le_lt. intros C.
  assert (C' : inject_Z 1 * 2 ^ (la - lb) <= inject_Z a / inject_Z b)
    by now rewrite Qmult_1_l.
  apply (scaled_le a b 1 (la - lb) Hb) in C'. lia.
Qed.

Lemma roundPos_value (a b : Z) :
let q := float64.ulpExp a b in
let m := float64.roundHalfEven (a * 2 ^ Z.max 0 (- q)) (b * 2 ^ Z.max 0 q) in
float64.roundPos a b == inject_Z m * 2 ^ q.
Proof.
intros q m. unfold float64.roundPos. fold q. fold m.
rewrite Qmake_Qdiv, inject_Z_mult, (pow2_scale q).
assert (HN : (0 < 2 ^ Z.max 0 (- q))%Z) by (apply Z.pow_pos_nonneg; lia).
rewrite Z2Pos.id by exact HN.
field. intros E. apply inject_pos in HN. rewrite E in HN. inversion HN.
Qed.

Lemma ulpExp_le (a b K j : Z) :
(0 < a)%Z -> (0 < b)%Z -> (0 < K < 2 ^ 53)%Z -> (-1074 <= j)%Z ->
inject_Z a / inject_Z b <= inject_Z K * 2 ^ j ->
(float64.ulpExp a b <= j)%Z.
Proof.
intros Ha Hb HK Hj Hx. unfold float64.ulpExp.
destruct (ilog2_spec a b Ha Hb) as [Hlo _].
set (e := float64.ilog2 a b) in *.
destruct (Z.le_gt_cases (e - 52) j) as [H | H]; [lia|]. exfalso.
assert (HK' : inject_Z K < 2 ^ 53).
{ destruct HK as [_ HK]. rewrite Zlt_Qlt in HK. now rewrite pow2_inject in HK by lia. }
assert (Hlt : inject_Z K * 2 ^ j < 2 ^ e).
{ apply Qlt_le_trans with (2 ^ 53 * 2 ^ j).
  - apply Qmult_lt_r; [apply pow2_pos | exact HK'].
  - rewrite <- pow2_plus. apply pow2_le. lia. }
apply (Qlt_irrefl (2 ^ e)).
eapply Qle_lt_trans; [exact Hlo|]. eapply Qle_lt_trans; [exact Hx | exact Hlt].
Qed.

Lemma inject_scaled (K j q : Z) :
(q <= j)%Z -> inject_Z (K * 2 ^ (j - q)) * 2 ^ q == inject_Z K * 2 ^ j.
Proof.
intros H. rewrite inject_Z_mult, pow2_inject by lia.
rewrite <- Qmult_assoc, <- pow2_plus. now replace (j - q + q)%Z with j by lia.
Qed.

(** Rounding stays below a binary64 value that is above. *)
Lemma roundPos_le (a b K j : Z) :
(0 < a)%Z -> (0 < b)%Z -> (0 < K < 2 ^ 53)%Z -> (-1074 <= j)%Z ->
inject_Z a / inject_Z b <= inject_Z K * 2 ^ j ->
float64.roundPos a b <= inject_Z K * 2 ^ j.
Proof.
intros Ha Hb HK Hj Hx.
pose proof (ulpExp_le a b K j Ha Hb HK Hj Hx) as Hq.
rewrite roundPos_value. cbv zeta.
set (q := float64.ulpExp a b) in *.
assert (HP : (0 < 2 ^ Z.max 0 q)%Z) by (apply Z.pow_pos_nonneg; lia).
assert (Hm : (float64.roundHalfEven (a * 2 ^ Z.max 0 (- q)) (b * 2 ^ Z.max 0 q)
              <= K * 2 ^ (j - q))%Z).
{ apply roundHalfEven_le; [lia|].
  apply (scaled_ge a b _ q Hb). now rewrite inject_scaled. }
rewrite <- (inject_scaled K j q Hq).
apply Qmult_le_r; [apply pow2_pos|]. now rewrite <- Zle_Qle.
Qed.

(** Rounding stays above a binary64 value that is below. *)
Lemma roundPos_ge (a b K j : Z) :
(0 < a)%Z -> (0 < b)%Z -> (0 < K < 2 ^ 53)%Z -> (-1074 <= j)%Z ->
inject_Z K * 2 ^ j <= inject_Z a / inject_Z b ->
inject_Z K * 2 ^ j <= float64.roundPos a b.
Proof.
intros Ha Hb HK Hj Hx.
rewrite roundPos_value. cbv zeta.
destruct (ilog2_spec a b Ha Hb) as [Hlo _].
unfold float64.ulpExp in *.
set (e := float64.ilog2 a b) in *. set (q := Z.max (e - 52) (-1074)).
assert (HP : (0 < 2 ^ Z.max 0 q)%Z) by (apply Z.pow_pos_nonneg; lia).
destruct (Z.le_gt_cases q j) as [Hq | Hq].
- assert (Hm : (K * 2 ^ (j - q)
                <= float64.roundHalfEven (a * 2 ^ Z.max 0 (- q)) (b * 2 ^ Z.max 0 q))%Z).
  { apply roundHalfEven_ge; [lia|].
    apply (scaled_le a b _ q Hb). now rewrite inject_scaled. }
  rewrite <- (inject_scaled K j q Hq).
  apply Qmult_le_r; [apply pow2_pos|]. now rewrite <- Zle_Qle.
- assert (Eq : q = (e - 52)%Z) by lia.
  assert (Hm : (2 ^ 52
                <= float64.roundHalfEven (a * 2 ^ Z.max 0 (- q)) (b * 2 ^ Z.max 0 q))%Z).
  { apply roundHalfEven_ge; [lia|].
    apply (scaled_le a b _ q Hb).
    rewrite pow2_inject by lia. rewrite <- pow2_plus.
    now replace (52 + q)%Z with e by lia. }
  apply Qle_trans with (inject_Z (2 ^ 52) * 2 ^ q).
  + rewrite pow2_inject by lia. rewrite <- pow2_plus.
    apply Qle_trans with (2 ^ 53 * 2 ^ j).
    * apply Qmult_le_r; [apply pow2_pos|].
      apply Qlt_le_weak. destruct HK as [_ HK]. rewrite Zlt_Qlt in HK.
      now rewrite pow2_inject in HK by lia.
    * rewrite <- pow2_plus. apply pow2_le. lia.
  + apply Qmult_le_r; [apply pow2_pos|]. now rewrite <- Zle_Qle.
Qed.

Lemma Q_as_div (x : Q) : x == inject_Z (Qnum x) / inject_Z (Zpos (Qden x)).
Proof. destruct x as [n d]. apply Qmake_Qdiv. Qed.

Lemma Qnum_pos (x : Q) : 0 < x -> (0 < Qnum x)%Z.
Proof. unfold Qlt. simpl. lia. Qed.

Lemma round64_pos (x : Q) :
0 < x -> float64.round64 x = float64.roundPos (Qnum x) (Zpos (Qden x)).
Proof.
intros H. apply Qnum_pos in H. unfold float64.round64.
destruct (Qnum x); try lia. reflexivity.
Qed.

Lemma round64_zero (x : Q) : x == 0 -> float64.round64 x = 0.
Proof.
intros H. unfold Qeq in H. simpl in H. unfold float64.round64.
replace (Qnum x) with 0%Z by lia. reflexivity.
Qed.

(** Brackets: a binary64 value above (below) the exact result is above
  (below) the rounded one. *)
Lemma round64_le (x : Q) (K j : Z) :
0 <= x -> (0 < K < 2 ^ 53)%Z -> (-1074 <= j)%Z ->
x <= inject_Z K * 2 ^ j -> float64.round64 x <= inject_Z K * 2 ^ j.
Proof.
intros H0 HK Hj Hx. destruct (Qle_lt_or_eq _ _ H0) as [Hpos | Hz].
- rewrite round64_pos by exact Hpos.
  apply roundPos_le; try assumption; [now apply Qnum_pos | reflexivity|].
  now rewrite <- Q_as_div.
- rewrite round64_zero by (symmetry; exact Hz).
  apply Qmult_le_0_compat; [|apply Qlt_le_weak, pow2_pos].
  apply Qlt_le_weak, inject_pos. lia.
Qed.

Lemma round64_ge (x : Q) (K j : Z) :
(0 < K < 2 ^ 53)%Z -> (-1074 <= j)%Z ->
inject_Z K * 2 ^ j <= x -> inject_Z K * 2 ^ j <= float64.round64 x.
Proof.
intros HK Hj Hx.
assert (Hpos : 0 < x).
{ eapply Qlt_le_trans; [|exact Hx].
  apply Qmult_lt_0_compat; [apply inject_pos; lia | apply pow2_pos]. }
rewrite round64_pos by exact Hpos.
apply roundPos_ge; try assumption; [now apply Qnum_pos | reflexivity|].
now rewrite <- Q_as_div.
Qed.

Lemma round64_nonneg (x : Q) : 0 <= x -> 0 <= float64.round64 x.
Proof.
intros H0. destruct (Qle_lt_or_eq _ _ H0) as [Hpos | Hz].
- rewrite round64_pos by exact Hpos. rewrite roundPos_value. cbv zeta.
  apply Qmult_le_0_compat; [|apply Qlt_le_weak, pow2_pos].
  rewrite <- (Zle_Qle 0). 
  apply roundHalfEven_ge.
  + apply Z.mul_pos_pos; [reflexivity | apply Z.pow_pos_nonneg; lia].
  + apply Qnum_pos in Hpos.
    assert (0 < 2 ^ Z.max 0 (- float64.ulpExp (Qnum x) (Z.pos (Qden x))))%Z
      by (apply Z.pow_pos_nonneg; lia).
    nia.
- rewrite round64_zero by (symmetry; exact Hz). apply Qle_refl.
Qed.

(** Integers below [2^53] are binary64 values. *)
Lemma round64_int (x : Q) (z : Z) :
(0 <= z < 2 ^ 53)%Z -> x == inject_Z z -> float64.round64 x == inject_Z z.
Proof.
intros Hz Hx. destruct (Z.eq_dec z 0%Z) as [-> | Hne].
- now rewrite round64_zero.
- assert (E : inject_Z z == inject_Z z * 2 ^ 0) by (simpl; ring).
  apply Qle_antisym.
  + rewrite E. apply round64_le; try lia.
    * rewrite Hx. rewrite <- (Zle_Qle 0). lia.
    * rewrite <- E, Hx. apply Qle_refl.
  + rewrite E at 1. apply round64_ge; try lia. rewrite <- E, Hx. apply Qle_refl.
Qed.

Lemma toInt_Qfloor (f : Q) : 0 <= f -> float64.toInt f = Qfloor f.
Proof.
destruct f as [n d]. unfold Qle, float64.toInt. simpl. intros H.
apply Z.quot_div_nonneg; lia.
Qed.

Lemma toInt_le (f : Q) (M : Z) :
0 <= f -> f <= inject_Z M -> (float64.toInt f <= M)%Z.
Proof.
intros H0 Hhi. rewrite toInt_Qfloor by exact H0.
apply Qfloor_resp_le in Hhi. now rewrite Qfloor_Z in Hhi.
Qed.

Lemma toInt_ge (f : Q) (M : Z) :
(0 <= M)%Z -> inject_Z M <= f -> (M <= float64.toInt f)%Z.
Proof.
intros HM Hlo.
assert (H0 : 0 <= f) by (eapply Qle_trans; [|exact Hlo]; rewrite <- (Zle_Qle 0); exact HM).
rewrite toInt_Qfloor by exact H0.
apply Qfloor_resp_le in Hlo. now rewrite Qfloor_Z in Hlo.
Qed.

Lemma toInt_lt (f : Q) (M : Z) :
0 <= f -> f < inject_Z M -> (float64.toInt f < M)%Z.
Proof.
intros H0 Hhi. rewrite toInt_Qfloor by exact H0.
pose proof (Qfloor_le f) as Hf.
assert (Hlt : inject_Z (Qfloor f) < inject_Z M) by (eapply Qle_lt_trans; eassumption).
now rewrite <- Zlt_Qlt in Hlt.
Qed.

(** The fraction of an hour, as [Duration.Hours] computes it. *)
Lemma hourFraction_bounds (r : Z) :
(0 <= r < 3600000000000)%Z ->
let f := float64.div (float64.ofInt r) (float64.ofInt (60 * 60 * 1000000000)) in
0 <= f <= 1
/\ ((r <= 3600000000000 - 1000000)%Z -> f <= inject_Z (2 ^ 22 - 1) * 2 ^ (-22)).
Proof.
intros Hr f. subst f. unfold float64.div, float64.ofInt.
assert (Er : float64.round64 (inject_Z r) == inject_Z r)
  by (apply round64_int; [lia | reflexivity]).
assert (Eh : float64.round64 (inject_Z (60 * 60 * 1000000000)) == inject_Z 3600000000000)
  by (apply round64_int; [lia | reflexivity]).
set (x := float64.round64 (inject_Z r) / float64.round64 (inject_Z (60 * 60 * 1000000000))).
assert (Ex : x == inject_Z r / inject_Z 3600000000000) by (subst x; now rewrite Er, Eh).
assert (H36 : 0 < inject_Z 3600000000000) by reflexivity.
assert (Hx0 : 0 <= x).
{ rewrite Ex. apply Qle_shift_div_l; [exact H36|]. rewrite Qmult_0_l.
  rewrite <- (Zle_Qle 0). lia. }
split; [split|].
- now apply round64_nonneg.
- assert (E1 : 1 == inject_Z 1 * 2 ^ 0) by reflexivity.
  rewrite E1. apply round64_le; try lia; [exact Hx0|]. rewrite <- E1, Ex.
  apply Qle_shift_div_r; [exact H36|]. rewrite Qmult_1_l. rewrite <- Zle_Qle. lia.
- intros Hms. apply round64_le; try lia; [exact Hx0|]. rewrite Ex.
  apply Qle_shift_div_r; [exact H36|].
  apply Qle_trans with (inject_Z (3600000000000 - 1000000)); [rewrite <- Zle_Qle; lia|].
  vm_compute. discriminate.
Qed.

Lemma Hours_bounds (d : Z) :
(0 <= d <= time.maxDuration)%Z ->
let h := (d / time.Hour)%Z in
inject_Z h <= time.Hours d <= inject_Z (h + 1)
/\ ((d mod time.Hour <= time.Hour - time.Millisecond)%Z ->
    time.Hours d <= inject_Z ((h + 1) * 2 ^ 22 - 1) * 2 ^ (-22)).
Proof.
intros Hd h. unfold time.maxDuration in Hd.
change time.Hour with 3600000000000%Z in *. change time.Millisecond with 1000000%Z.
unfold time.Hours. change time.Hour with 3600000000000%Z.
rewrite Z.quot_div_nonneg, Z.rem_mod_nonneg by lia. fold h.
set (r := (d mod 3600000000000)%Z).
assert (Hr : (0 <= r < 3600000000000)%Z) by (subst r; apply Z.mod_pos_bound; lia).
assert (Hh : (0 <= h < 2 ^ 22)%Z) by (subst h; Z.to_euclidean_division_equations; lia).
destruct (hourFraction_bounds r Hr) as [[F0 F1] Fms].
set (f1 := float64.div (float64.ofInt r) (float64.ofInt (60 * 60 * 1000000000))) in *.
assert (Eh : float64.ofInt h == inject_Z h)
  by (apply round64_int; [lia | reflexivity]).
unfold float64.add. set (x := float64.ofInt h + f1).
assert (Hx0 : 0 <= x).
{ subst x. rewrite Eh. apply Qle_trans with (inject_Z h + 0).
  - rewrite Qplus_0_r. rewrite <- (Zle_Qle 0). lia.
  - apply Qplus_le_r. exact F0. }
assert (Hxlo : inject_Z h <= x).
{ subst x. rewrite Eh. rewrite <- (Qplus_0_r (inject_Z h)) at 1.
  apply Qplus_le_r. exact F0. }
split; [split|].
- destruct (Z.eq_dec h 0%Z) as [E0 | Hne].
  + rewrite E0. now apply round64_nonneg.
  + assert (E : inject_Z h == inject_Z h * 2 ^ 0) by (simpl; ring).
    rewrite E at 1. apply round64_ge; try lia. now rewrite <- E.
- assert (E : inject_Z (h + 1) == inject_Z (h + 1) * 2 ^ 0) by (simpl; ring).
  rewrite E. apply round64_le; try lia; [exact Hx0|]. rewrite <- E.
  subst x. rewrite Eh, inject_Z_plus. apply Qplus_le_r. exact F1.
- intros Hms. apply round64_le; try lia; [exact Hx0|].
  subst x. rewrite Eh.
  apply Qle_trans with (inject_Z h + inject_Z (2 ^ 22 - 1) * 2 ^ (-22)).
  + apply Qplus_le_r. apply Fms. exact Hms.
  + change (2 ^ (-22)) with (1 # 4194304). unfold Qle. simpl. lia.
Qed.

(** The whole days of a non-negative duration, as the code computes them:
  the exact number, or one more in the last millisecond of a day. *)
Lemma days_of_duration (d : Z) :
(0 <= d <= time.maxDuration)%Z ->
let days := float64.toInt (float64.div (time.Hours d) (24 # 1)) in
(d / (24 * time.Hour) <= days <= d / (24 * time.Hour) + 1)%Z
/\ ((d mod (24 * time.Hour) <= 24 * time.Hour - time.Millisecond)%Z ->
    days = (d / (24 * time.Hour))%Z).
Proof.
intros Hd days.
destruct (Hours_bounds d Hd) as [[Hlo Hhi] Hms]. cbv zeta in *.
unfold time.maxDuration in Hd.
change time.Hour with 3600000000000%Z in *. change time.Millisecond with 1000000%Z in *.
set (h := (d / 3600000000000)%Z) in *.
set (M := (d / (24 * 3600000000000))%Z).
assert (HM : M = (h / 24)%Z)
  by (subst M h; rewrite Z.div_div by lia; f_equal).
assert (Hh : (0 <= h < 2 ^ 22)%Z) by (subst h; Z.to_euclidean_division_equations; lia).
assert (HM0 : (0 <= M < 2 ^ 18)%Z) by (rewrite HM; Z.to_euclidean_division_equations; lia).
assert (HhM : (24 * M <= h <= 24 * M + 23)%Z)
  by (rewrite HM; Z.to_euclidean_division_equations; lia).
subst days. unfold float64.div.
set (H := time.Hours d) in *. set (y := H / (24 # 1)).
assert (H24 : 0 < 24 # 1) by reflexivity.
assert (HH0 : 0 <= H) by (eapply Qle_trans; [|exact Hlo]; rewrite <- (Zle_Qle 0); lia).
assert (Hy0 : 0 <= y).
{ subst y. apply Qle_shift_div_l; [exact H24|]. now rewrite Qmult_0_l. }
assert (Hylo : inject_Z M <= y).
{ subst y. apply Qle_shift_div_l; [exact H24|].
  eapply Qle_trans; [|exact Hlo].
  unfold Qle. simpl. rewrite ?Pos.mul_1_l, ?Pos.mul_1_r. lia. }
assert (Hyhi : y <= inject_Z (M + 1)).
{ subst y. apply Qle_shift_div_r; [exact H24|].
  eapply Qle_trans; [exact Hhi|]. unfold Qle. simpl. rewrite ?Pos.mul_1_l, ?Pos.mul_1_r. lia. }
assert (Hf0 : 0 <= float64.round64 y) by now apply round64_nonneg.
assert (Hflo : inject_Z M <= float64.round64 y).
{ destruct (Z.eq_dec M 0%Z) as [E0 | Hne]; [now rewrite E0|].
  assert (E : inject_Z M == inject_Z M * 2 ^ 0) by (simpl; ring).
  rewrite E at 1. apply round64_ge; try lia. now rewrite <- E. }
assert (Hfhi : float64.round64 y <= inject_Z (M + 1)).
{ assert (E : inject_Z (M + 1) == inject_Z (M + 1) * 2 ^ 0) by (simpl; ring).
  rewrite E. apply round64_le; try lia; [exact Hy0|]. now rewrite <- E. }
split; [split|].
- now apply toInt_ge.
- now apply toInt_le.
- intros Hguard.
  assert (Hlt : float64.round64 y < inject_Z (M + 1)).
  { destruct (Z.le_gt_cases (h + 1) (24 * M + 23)) as [Hcase | Hcase].
    - apply Qle_lt_trans with (inject_Z (32 * M + 31) * 2 ^ (-5)).
      + apply round64_le; try lia; [exact Hy0|].
        subst y. apply Qle_shift_div_r; [exact H24|].
        eapply Qle_trans; [exact Hhi|].
        change (2 ^ (-5)) with (1 # 32). unfold Qle. simpl. rewrite ?Pos.mul_1_l, ?Pos.mul_1_r. lia.
      + change (2 ^ (-5)) with (1 # 32). unfold Qlt. simpl. rewrite ?Pos.mul_1_l, ?Pos.mul_1_r. lia.
    - assert (Eh : (h + 1 = 24 * (M + 1))%Z) by lia.
      assert (Hr : (d mod 3600000000000 <= 3600000000000 - 1000000)%Z).
      { revert Hguard Hcase. subst h M. clear. intros.
        Z.to_euclidean_division_equations; lia. }
      specialize (Hms Hr).
      apply Qle_lt_trans with (inject_Z ((M + 1) * 2 ^ 27 - 1) * 2 ^ (-27)).
      + apply round64_le; try lia; [exact Hy0|].
        subst y. apply Qle_shift_div_r; [exact H24|].
        eapply Qle_trans; [exact Hms|]. rewrite Eh.
        change (2 ^ (-22)) with (1 # 4194304). change (2 ^ (-27)) with (1 # 134217728).
        unfold Qle. simpl. rewrite ?Pos.mul_1_l, ?Pos.mul_1_r. lia.
      + change (2 ^ (-27)) with (1 # 134217728). unfold Qlt. simpl. rewrite ?Pos.mul_1_l, ?Pos.mul_1_r. lia. }
  apply Z.le_antisymm.
  + apply Z.lt_succ_r. unfold Z.succ. now apply toInt_lt.
  + now apply toInt_ge.
Qed.

End Float64.

(** ** Staleness classifier *)

(** C4, counterexample.  With threshold 0, an activity one millisecond in
    the future is stale, although the floor of the elapsed days is -1.  With
    threshold 200, an activity 200 days less one nanosecond in the past is
    stale, although the floor of the elapsed days is 199. *)
Lemma stale_against_floor :
  (let now := time.UnixMilli scenario.t0 in
   let lastActivity := time.UnixMilli (scenario.t0 + 1) in
   main.isStale (scenario.threshold 0) now lastActivity = true
   /\ exactDiff now lastActivity / (24 * time.Hour) = -1)
  /\ (let lastActivity := time.UnixMilli scenario.t0 in
      let now := time.mkTime (time.sec lastActivity + 200 * 86400 - 1) 999999999 in
      main.isStale (scenario.threshold 200) now lastActivity = true
      /\ exactDiff now lastActivity / (24 * time.Hour) = 199).
Proof. conjuncts; vm_compute; reflexivity. Qed.

(** C4, as the code has it.  For an activity not in the future and at most
    the longest Duration back, the day count of the code is the floor of
    [(now - t) / 24h], except in the last millisecond before a whole number
    of days, where rounding may give one more.  So a pull request is stale
    when the floor reaches the threshold, and outside those milliseconds
    only then; exactly N days back is stale, N days less a millisecond is
    not (N at least 1). *)
Theorem stale_by_elapsed_days (cfg : config.Config) (now lastActivity : time.Time) :
  let elapsed := exactDiff now lastActivity in
  let N := config.StaleAfterDays (config.PRFilter cfg) in
  let day := 24 * time.Hour in
  wellFormed now -> wellFormed lastActivity ->
  0 <= elapsed <= time.maxDuration ->
  (N <= elapsed / day -> main.isStale cfg now lastActivity = true)
  /\ (main.isStale cfg now lastActivity = true -> N <= (elapsed + time.Millisecond) / day)
  /\ (elapsed mod day <= day - time.Millisecond ->
      (main.isStale cfg now lastActivity = true <-> N <= elapsed / day))
  /\ (elapsed = N * day -> main.isStale cfg now lastActivity = true)
  /\ (1 <= N -> elapsed = N * day - time.Millisecond ->
      main.isStale cfg now lastActivity = false).
Proof.
  intros elapsed N day Hwn Hwl Hrange.
  assert (Hsub : time.Since now lastActivity = elapsed).
  { unfold time.Since. apply Sub_exact; try assumption.
    unfold time.minDuration. fold elapsed. lia. }
  destruct (days_of_duration elapsed Hrange) as [[Hlo Hhi] Hexact]. cbv zeta in *.
  unfold main.isStale, main.daysWithoutActivity. rewrite Hsub. fold N. fold day in Hlo, Hhi, Hexact.
  set (days := float64.toInt (float64.div (time.Hours elapsed) (24 # 1))) in *.
  assert (Hday : day = 86400000000000) by reflexivity.
  change time.Millisecond with 1000000 in *.
  assert (Hup : days <= (elapsed + 1000000) / day).
  { destruct (Z.le_gt_cases (elapsed mod day) (day - 1000000)) as [Hg | Hg].
    - rewrite (Hexact Hg). apply Z.div_le_mono; lia.
    - revert Hhi Hg. rewrite Hday. clear. intros.
      Z.to_euclidean_division_equations; lia. }
  assert (Hiff : elapsed mod day <= day - 1000000 -> (days >=? N) = true <-> N <= elapsed / day).
  { intros Hg. rewrite (Hexact Hg). rewrite Z.geb_le. reflexivity. }
  split; [|split; [|split; [|split]]].
  - intros H. apply Z.geb_le. lia.
  - intros H. apply Z.geb_le in H. lia.
  - exact Hiff.
  - intros He. apply Z.geb_le.
    assert (elapsed / day = N) by (rewrite He, Hday; apply Z.div_mul; lia). lia.
  - intros HN He.
    assert (Hg : elapsed mod day <= day - 1000000).
    { rewrite He, Hday. Z.to_euclidean_division_equations; lia. }
    apply not_true_is_false. intros E.
    apply (Hiff Hg) in E. revert E. rewrite He, Hday.
    Z.to_euclidean_division_equations; lia.
Qed.

Lemma stale_by_elapsed_days_witness :
  let now := time.UnixMilli (scenario.t0 + 10 * scenario.day) in
  let lastActivity := time.UnixMilli scenario.t0 in
  (5 <= exactDiff now lastActivity / (24 * time.Hour) ->
   main.isStale scenario.cfg now lastActivity = true)
  /\ main.isStale scenario.cfg now lastActivity = true.
Proof.
  intros now lastActivity.
  assert (Hn : wellFormed now) by (unfold wellFormed; vm_compute; repeat split; discriminate).
  assert (Hl : wellFormed lastActivity)
    by (unfold wellFormed; vm_compute; repeat split; discriminate).
  assert (Hr : 0 <= exactDiff now lastActivity <= time.maxDuration)
    by (vm_compute; split; discriminate).
  pose proof (stale_by_elapsed_days scenario.cfg now lastActivity Hn Hl Hr) as H.
  split; [exact (proj1 H)|].
  apply (proj1 H). vm_compute. discriminate.
Defined.

(** ** The sample scenario *)

Lemma gate_decides_cycle_witness :
  let env := scenario.env None in
  let w := scenario.notifiedAt (scenario.t0 + 10 * scenario.day - 43201000) in
  main.iteration scenario.cfg env w
  = (let '(b, w1) := main.cycle scenario.cfg env (snd (main.readClock env w)) in
     main.wait env (main.conclude scenario.cfg env b w1)).
Proof.
  intros env w.
  assert (Hd : main.doneAtTop env = false) by reflexivity.
  assert (Hg : store.GetLastNotificationTime (main.file w)
               = Ok (time.UnixMilli (scenario.t0 + 10 * scenario.day - 43201000)))
    by reflexivity.
  pose proof (gate_decides_cycle scenario.cfg env w _ Hd Hg) as H. cbv zeta in H.
  destruct H as (_ & _ & _ & _ & _ & _ & H).
  apply H.
  - vm_compute. reflexivity.
  - unfold wellFormed. vm_compute. repeat split; discriminate.
  - unfold wellFormed. vm_compute. repeat split; discriminate.
  - vm_compute. discriminate.
  - vm_compute. reflexivity.
Defined.


Lemma only_checkpoint_read_failure_aborts_witness :
  let failure :=
    store.WriteFileError (errorString "write tmp/last_notification.txt: no space left on device")
      store.Truncated in
  let envs := fun _ : nat => scenario.env (Some failure) in
  fst (main.run scenario.cfg (fun _ => scenario.env None) 3 0 scenario.corrupt)
  = Some (Some (errorString "error parsing timestamp"))
  /\ fst (main.iteration scenario.cfg (envs 0%nat) scenario.world) = main.Continue
  /\ fst (main.run scenario.cfg envs 1 1
            (snd (main.iteration scenario.cfg (envs 0%nat) scenario.world)))
     = Some (Some (errorString "error parsing timestamp")).
Proof.
  intros failure envs. split; [|split].
  - rewrite (proj1 (only_checkpoint_read_failure_aborts scenario.cfg
                      (fun _ => scenario.env None)) 2%nat 0%nat scenario.corrupt
               (errorString "error parsing timestamp")); reflexivity.
  - vm_compute. reflexivity.
  - destruct (only_checkpoint_read_failure_aborts scenario.cfg envs) as (_ & _ & H).
    pose (st := main.cycle scenario.cfg (envs 0%nat) scenario.world).
    assert (Hne : main.allPRsToNotify (fst st) <> []) by (vm_compute; discriminate).
    assert (Hw : main.writeFailure (envs 0%nat)
                   (main.Now (envs 0%nat) (main.clockReads (snd st))) = Some failure)
      by reflexivity.
    specialize (H (envs 0%nat) (fst st) (snd st) failure Hne Hw). cbv zeta in H.
    destruct H as (_ & _ & _ & _ & _ & _ & H).
    destruct (H _ eq_refl) as [_ Hrun].
    specialize (Hrun 0%nat 1%nat eq_refl).
    replace (snd (main.iteration scenario.cfg (envs 0%nat) scenario.world))
      with (snd (main.wait (envs 0%nat)
                   (main.conclude scenario.cfg (envs 0%nat) (fst st) (snd st))))
      by (vm_compute; reflexivity).
    now rewrite Hrun.
Defined.

Lemma checkpoint_moves_only_with_stale_PRs_witness :
  let cfg := scenario.threshold 50 in
  let env := scenario.env None in
  let w := scenario.notifiedAt scenario.t0 in
  let b := fst (main.cycle cfg env w) in
  let w2 := main.conclude cfg env b (snd (main.cycle cfg env w)) in
  main.file w2 = main.file w /\ main.sent w2 = main.sent w.
Proof.
  intros cfg env w b w2.
  destruct (checkpoint_moves_only_with_stale_PRs cfg env w) as (_ & H & _).
  destruct H as (Hf & Hs & _); [vm_compute; reflexivity|].
  split; assumption.
Defined.

(** * Further properties *)

(** ** Approval counts *)

Lemma CountApprovals_fold (P : list Participant) (a t : Z) :
  fold_left
    (fun '(approved, total) p =>
       if String.eqb (Role p) bitbucket.REVIEWER then
         (if Approved p then approved + 1 else approved, total + 1)
       else (approved, total)) P (a, t)
  = (a + Z.of_nat (length (List.filter isApprovingReviewer P)),
     t + Z.of_nat (length (List.filter isReviewer P))).
Proof.
  revert a t; induction P as [|p P IH]; intros a t; cbn [fold_left List.filter length].
  - rewrite !Z.add_0_r. reflexivity.
  - unfold isApprovingReviewer at 1. fold (isReviewer p).
    destruct (isReviewer p), (Approved p); cbn [andb length]; rewrite IH;
      apply f_equal2; lia.
Qed.

Lemma CountApprovals_filter (P : list Participant) :
  bitbucket.CountApprovals P
  = (Z.of_nat (length (List.filter isApprovingReviewer P)),
     Z.of_nat (length (List.filter isReviewer P))).
Proof. unfold bitbucket.CountApprovals. now rewrite CountApprovals_fold. Qed.

Lemma approving_le_reviewers (P : list Participant) :
  (length (List.filter isApprovingReviewer P) <= length (List.filter isReviewer P))%nat.
Proof.
  induction P as [|p P IH]; cbn [List.filter length]; [lia|].
  unfold isApprovingReviewer at 1. destruct (isReviewer p); cbn [andb].
  - destruct (Approved p); cbn [length]; lia.
  - exact IH.
Qed.

Lemma CountApprovals_le (P : list Participant) :
  fst (bitbucket.CountApprovals P) <= snd (bitbucket.CountApprovals P)
  /\ 0 <= fst (bitbucket.CountApprovals P)
  /\ snd (bitbucket.CountApprovals P) <= Z.of_nat (length P).
Proof.
  rewrite CountApprovals_filter. cbn [fst snd].
  pose proof (approving_le_reviewers P).
  pose proof (List.filter_length_le isReviewer P). lia.
Qed.

Lemma CountApprovals_agree (P : list Participant) :
  fst (bitbucket.CountApprovals P) = snd (bitbucket.CountApprovals P)
  <-> bitbucket.IsPRApproved P = true.
Proof.
  rewrite CountApprovals_filter. cbn [fst snd].
  induction P as [|p P IH]; cbn [bitbucket.IsPRApproved List.filter length].
  - split; reflexivity.
  - pose proof (approving_le_reviewers P) as Hle.
    unfold isApprovingReviewer at 1. fold (isReviewer p).
    destruct (isReviewer p), (Approved p); cbn [andb negb length]; rewrite <- ?IH;
      try tauto; try lia.
Qed.

Lemma filter_length_Permutation {A} (f : A -> bool) (l l' : list A) :
  Permutation l l' -> length (List.filter f l) = length (List.filter f l').
Proof.
  induction 1 as [|x l l' _ IH|x y l|l l' l'' _ IH1 _ IH2]; cbn [List.filter].
  - reflexivity.
  - destruct (f x); cbn [length]; congruence.
  - destruct (f x), (f y); reflexivity.
  - congruence.
Qed.

(** X1: CountApprovals returns the number of reviewers who approved and the
    number of reviewers: the first is never negative and never above the
    second, which is at most the number of participants. *)
Theorem CountApprovals_counts (P : list Participant) :
  bitbucket.CountApprovals P
  = (Z.of_nat (length (List.filter isApprovingReviewer P)),
     Z.of_nat (length (List.filter isReviewer P)))
  /\ 0 <= fst (bitbucket.CountApprovals P) <= snd (bitbucket.CountApprovals P)
  /\ snd (bitbucket.CountApprovals P) <= Z.of_nat (length P).
Proof.
  split; [apply CountApprovals_filter|].
  destruct (CountApprovals_le P) as (H1 & H2 & H3). lia.
Qed.

(** X2: IsPRApproved and CountApprovals agree: a pull request is approved by
    all reviewers exactly when the two counts are equal (so also when there
    is no reviewer, 0 of 0). *)
Theorem approved_iff_counts_agree (P : list Participant) :
  bitbucket.IsPRApproved P = true
  <-> fst (bitbucket.CountApprovals P) = snd (bitbucket.CountApprovals P).
Proof. symmetry. apply CountApprovals_agree. Qed.

(** X3: Neither the counts nor the verdict depend on the order of the
    participants. *)
Theorem approvals_ignore_order (P Q : list Participant) :
  Permutation P Q ->
  bitbucket.CountApprovals P = bitbucket.CountApprovals Q
  /\ bitbucket.IsPRApproved P = bitbucket.IsPRApproved Q.
Proof.
  intros HP.
  assert (Hc : bitbucket.CountApprovals P = bitbucket.CountApprovals Q).
  { rewrite !CountApprovals_filter. f_equal; f_equal.
    - now apply filter_length_Permutation.
    - now apply filter_length_Permutation. }
  split; [exact Hc|].
  pose proof (CountApprovals_agree P) as HPi.
  pose proof (CountApprovals_agree Q) as HQi.
  rewrite Hc in HPi.
  destruct (bitbucket.IsPRApproved P), (bitbucket.IsPRApproved Q); try reflexivity.
  - symmetry. apply HQi. now apply HPi.
  - apply HPi. now apply HQi.
Qed.

Lemma approvals_ignore_order_witness :
  bitbucket.CountApprovals
    [sample.participant "REVIEWER" true; sample.participant "REVIEWER" false]
  = bitbucket.CountApprovals
      [sample.participant "REVIEWER" false; sample.participant "REVIEWER" true]
  /\ bitbucket.IsPRApproved
       [sample.participant "REVIEWER" true; sample.participant "REVIEWER" false]
     = bitbucket.IsPRApproved
         [sample.participant "REVIEWER" false; sample.participant "REVIEWER" true].
Proof. apply approvals_ignore_order. apply perm_swap. Defined.

(** ** Keyword filter *)

Section FilterLaws.

Variable mapUnicodeToLower : string -> string.

Abbreviation disqualified := (bitbucket.containsIgnoreKeyword mapUnicodeToLower).
Abbreviation FilterPRs := (bitbucket.FilterPRs mapUnicodeToLower).

Lemma containsLoop_app (t : string) (K K' : list string) :
  bitbucket.containsLoop mapUnicodeToLower t (K ++ K')
  = bitbucket.containsLoop mapUnicodeToLower t K
    || bitbucket.containsLoop mapUnicodeToLower t K'.
Proof.
  induction K as [|k K IH]; cbn [app bitbucket.containsLoop orb]; [reflexivity|].
  destruct (strings.Contains t _); [reflexivity | exact IH].
Qed.

Lemma filter_filter_andb {A} (f g : A -> bool) (l : list A) :
  List.filter g (List.filter f l) = List.filter (fun x => f x && g x) l.
Proof.
  induction l as [|x l IH]; cbn [List.filter]; [reflexivity|].
  destruct (f x); cbn [List.filter andb]; [destruct (g x)|]; now rewrite IH.
Qed.

(** X4: FilterPRs works pull request by pull request: it distributes over
    concatenation, filtering twice is filtering once, the result is the
    input with some pull requests left out, in the same order, and nothing
    is left out exactly when no title is disqualified. *)
Theorem FilterPRs_laws (prs prs' : list PullRequest) (K : list string) :
  FilterPRs (prs ++ prs') K = FilterPRs prs K ++ FilterPRs prs' K
  /\ FilterPRs (FilterPRs prs K) K = FilterPRs prs K
  /\ sublist (FilterPRs prs K) prs
  /\ (FilterPRs prs K = prs <->
        forall pr, In pr prs -> disqualified (Title pr) K = false).
Proof.
  rewrite !FilterPRs_filter. split; [apply List.filter_app|].
  split.
  { rewrite filter_filter_andb. apply List.filter_ext. intros pr.
    now destruct (negb _). }
  split.
  { induction prs as [|pr l IH]; cbn [List.filter]; [constructor|].
    destruct (negb _); now constructor. }
  split.
  - intros Heq pr Hin. rewrite <- Heq in Hin. apply List.filter_In in Hin.
    destruct Hin as [_ H]. now apply negb_true_iff in H.
  - intros Hall. induction prs as [|pr l IH]; cbn [List.filter]; [reflexivity|].
    rewrite (Hall pr (or_introl eq_refl)). cbn [negb]. f_equal.
    apply IH. intros q Hq. apply Hall. now right.
Qed.

(** X5: Keywords add up: filtering with two keyword lists one after the
    other is filtering with their concatenation, in either order. *)
Theorem FilterPRs_keywords_app (prs : list PullRequest) (K K' : list string) :
  FilterPRs prs (K ++ K') = FilterPRs (FilterPRs prs K) K'
  /\ FilterPRs prs (K ++ K') = FilterPRs prs (K' ++ K).
Proof.
  rewrite !FilterPRs_filter, filter_filter_andb. split.
  - apply List.filter_ext. intros pr. unfold bitbucket.containsIgnoreKeyword.
    rewrite containsLoop_app. apply negb_orb.
  - apply List.filter_ext. intros pr. unfold bitbucket.containsIgnoreKeyword.
    rewrite !containsLoop_app. now rewrite orb_comm.
Qed.

(** X6: Only the set of keywords matters to FilterPRs, neither their order
    nor their repetition. *)
Theorem FilterPRs_keyword_set (prs : list PullRequest) (K K' : list string) :
  (forall k, In k K <-> In k K') -> FilterPRs prs K = FilterPRs prs K'.
Proof.
  intros Hset. rewrite !FilterPRs_filter. apply List.filter_ext. intros pr. f_equal.
  unfold bitbucket.containsIgnoreKeyword.
  apply eq_true_iff_eq. rewrite !containsLoop_spec.
  split; intros [k [Hin Hk]]; exists k; (split; [now apply Hset | exact Hk]).
Qed.

Lemma isASCII_app (a b : string) :
  strings.isASCII (String.append a b) = strings.isASCII a && strings.isASCII b.
Proof.
  induction a as [|c a IH]; [reflexivity|].
  rewrite append_String. cbn [strings.isASCII]. now rewrite IH, andb_assoc.
Qed.

Lemma lowerASCII_app (a b : string) :
  strings.lowerASCII (String.append a b)
  = String.append (strings.lowerASCII a) (strings.lowerASCII b).
Proof.
  induction a as [|c a IH]; [reflexivity|].
  rewrite append_String. cbn [strings.lowerASCII]. now rewrite IH, append_String.
Qed.

Lemma isASCIIByte_lowerByte (c : ascii) :
  strings.isASCIIByte (strings.lowerByte c) = strings.isASCIIByte c.
Proof. destruct c as [[] [] [] [] [] [] [] []]; reflexivity. Qed.

Lemma isASCII_lowerASCII (s : string) :
  strings.isASCII (strings.lowerASCII s) = strings.isASCII s.
Proof.
  induction s as [|c s IH]; [reflexivity|].
  cbn [strings.lowerASCII strings.isASCII]. now rewrite isASCIIByte_lowerByte, IH.
Qed.

(** X7: The match is blind to the case of ASCII letters: a keyword that
    occurs in an ASCII title, as it is or with some ASCII letters in the
    other case, disqualifies the title. *)
Theorem keyword_matches_in_any_case (T k k' : string) (K : list string) :
  strings.isASCII T = true -> In k K ->
  strings.lowerASCII k' = strings.lowerASCII k -> isSubstring k' T ->
  disqualified T K = true.
Proof.
  intros HT Hin Hcase [pre [post ->]].
  apply containsLoop_spec. exists k. split; [exact Hin|].
  pose proof HT as Hall. rewrite !isASCII_app in Hall.
  apply andb_true_iff in Hall. destruct Hall as [_ Hall].
  apply andb_true_iff in Hall. destruct Hall as [Hk' _].
  assert (Hk : strings.isASCII k = true)
    by (rewrite <- isASCII_lowerASCII, <- Hcase, isASCII_lowerASCII; exact Hk').
  unfold strings.ToLower. rewrite Hk, HT, !lowerASCII_app, Hcase.
  now exists (strings.lowerASCII pre), (strings.lowerASCII post).
Qed.

End FilterLaws.

Lemma FilterPRs_keyword_set_witness :
  bitbucket.FilterPRs (fun s => s) [scenario.wip; scenario.stale] ["[WIP]"; "[DRAFT]"]
  = bitbucket.FilterPRs (fun s => s) [scenario.wip; scenario.stale]
      ["[DRAFT]"; "[WIP]"; "[DRAFT]"].
Proof.
  apply FilterPRs_keyword_set. intros k. cbn [In]. tauto.
Defined.

Lemma keyword_matches_in_any_case_witness :
  bitbucket.containsIgnoreKeyword (fun s => s) "[wip] x" ["[DRAFT]"; "[WIP]"] = true.
Proof.
  apply (keyword_matches_in_any_case (fun s => s) "[wip] x" "[WIP]" "[wip]").
  - reflexivity.
  - cbn [In]. tauto.
  - reflexivity.
  - exists EmptyString, " x"%string. reflexivity.
Defined.

(** ** Activity resolver: the running maximum *)

Lemma scan_latestUpdate (m : Z) (cs : list Comment) :
  ActivitySpec.scan m cs = latestUpdate m cs.
Proof.
  unfold ActivitySpec.scan, latestUpdate.
  revert m; induction cs as [|c cs IH]; intros m; cbn [fold_left map fold_right];
    [reflexivity|].
  rewrite IH. clear IH.
  assert (Hmax : forall a b l, fold_right Z.max (Z.max a b) l
                               = Z.max a (fold_right Z.max b l)).
  { intros a b l. induction l as [|x l IHl]; cbn [fold_right]; [reflexivity|].
    rewrite IHl. lia. }
  destruct (Z.gtb_spec (CommentUpdatedDate c) m) as [Hgt | Hle].
  - rewrite <- Hmax. f_equal. lia.
  - rewrite <- Hmax. f_equal. lia.
Qed.

(** X8: The instant GetLastActivity settles on is the latest of its start
    (the pull request's [updatedAt], or [createdAt] when that is Go's zero
    time) and the [updatedAt] of the comments: it is not before the start
    nor before any comment, and it is the start or some comment's
    [updatedAt]. *)
Theorem lastActivityTime_is_latest (pr : PullRequest) (cs : list Comment) :
  let start := if UpdatedDate pr =? zeroTimeMilli then CreatedDate pr else UpdatedDate pr in
  bitbucket.lastActivityTime pr cs = time.UnixMilli (latestUpdate start cs)
  /\ start <= latestUpdate start cs
  /\ (forall c, In c cs -> CommentUpdatedDate c <= latestUpdate start cs)
  /\ (latestUpdate start cs = start
      \/ exists c, In c cs /\ latestUpdate start cs = CommentUpdatedDate c).
Proof.
  intros start. split.
  { rewrite lastActivityTime_UnixMilli. fold start. now rewrite scan_latestUpdate. }
  generalize start as m. intros m. unfold latestUpdate.
  induction cs as [|c cs [IH1 [IH2 IH3]]]; cbn [map fold_right In].
  - split; [lia|]. split; [tauto | now left].
  - split; [lia|]. split.
    + intros c' [<- | Hin]; [lia|]. specialize (IH2 c' Hin). lia.
    + destruct (Z.max_spec (CommentUpdatedDate c)
                  (fold_right Z.max m (map CommentUpdatedDate cs))) as [[_ ->] | [_ ->]].
      * destruct IH3 as [-> | [c' [Hin ->]]]; [now left | right].
        exists c'. split; [now right | reflexivity].
      * right. exists c. split; [now left | reflexivity].
Qed.

(** X9: GetLastActivity reads nothing of the comments but their [updatedAt],
    and not their order. *)
Theorem GetLastActivity_reads_updatedAt_only (Local : time.Location)
    (pr : PullRequest) (cs cs' : list Comment) :
  Permutation (map CommentUpdatedDate cs) (map CommentUpdatedDate cs') ->
  bitbucket.GetLastActivity Local pr cs = bitbucket.GetLastActivity Local pr cs'.
Proof.
  intros HP. unfold bitbucket.GetLastActivity.
  rewrite !lastActivityTime_UnixMilli, !scan_latestUpdate.
  assert (H : forall m, latestUpdate m cs = latestUpdate m cs').
  { intros m. unfold latestUpdate.
    induction HP as [|x l l' _ IH|x y l|l l' l'' _ IH1 _ IH2]; cbn [fold_right].
    - reflexivity.
    - now rewrite IH.
    - lia.
    - congruence. }
  now rewrite H.
Qed.

Lemma GetLastActivity_reads_updatedAt_only_witness :
  bitbucket.GetLastActivity time.UTC (sample.pullRequest 1 "x" scenario.t0 scenario.t0)
    [sample.comment 5 (scenario.t0 + 1000); sample.comment 6 (scenario.t0 + 2000)]
  = bitbucket.GetLastActivity time.UTC (sample.pullRequest 1 "x" scenario.t0 scenario.t0)
      [sample.comment 0 (scenario.t0 + 2000); sample.comment 0 (scenario.t0 + 1000)].
Proof.
  apply GetLastActivity_reads_updatedAt_only. apply perm_swap.
Defined.

(** ** The check cycle: what the batch holds *)

Section CycleLaws.

Import config main.

Variables (cfg : Config) (env : Env).

Abbreviation keywords := (IgnoreKeywords (PRFilter cfg)).
Abbreviation server := (bitbucketClient env).
Abbreviation filtered prs := (bitbucket.FilterPRs (unicodeToLower env) prs keywords).
Abbreviation repositories := (Repositories (Bitbucket cfg)).

(** One pull request through the loop body: the ways it can leave the
    batch and the world. *)
Lemma processPR_spec (repo : string) (b : Batch) (w : World) (pr : PullRequest) :
  let b' := fst (processPR cfg env repo (b, w) pr) in
  let w' := snd (processPR cfg env repo (b, w) pr) in
  file w' = file w /\ sent w' = sent w
  /\ requests w' = requests w ++ requestsForPR env repo pr
  /\ ((exists e, GetParticipants server repo (ID pr) = Err e
                 /\ b' = b /\ clockReads w' = clockReads w)
      \/ (exists ps, GetParticipants server repo (ID pr) = Ok ps
            /\ prParticipants b' = <[ID pr := ps]> (prParticipants b)
            /\ ((allPRsToNotify b' = allPRsToNotify b
                 /\ repoPRsToNotify b' = repoPRsToNotify b
                 /\ (clockReads w <= clockReads w' <= S (clockReads w))%nat)
                \/ (bitbucket.IsPRApproved ps = false
                    /\ (exists cs lastTime,
                          GetComments server repo (ID pr) = Ok cs
                          /\ time.ParseRFC3339
                               (bitbucket.GetLastActivity (Local env) pr cs) = Some lastTime
                          /\ isStale cfg (Now env (clockReads w)) lastTime = true)
                    /\ allPRsToNotify b' = allPRsToNotify b ++ [pr]
                    /\ repoPRsToNotify b'
                       = <[repo := default [] (repoPRsToNotify b !! repo) ++ [pr]]>
                           (repoPRsToNotify b)
                    /\ clockReads w' = S (clockReads w))))).
Proof.
  unfold processPR, requestsForPR.
  destruct (GetParticipants server repo (ID pr)) as [ps | e] eqn:Eps; cbn zeta.
  2:{ cbn. split; [reflexivity|]. split; [reflexivity|]. split; [reflexivity|].
      left. exists e. auto. }
  destruct (bitbucket.IsPRApproved ps) eqn:Eap.
  { cbn. split; [reflexivity|]. split; [reflexivity|]. split; [reflexivity|].
    right. exists ps. split; [reflexivity|]. split; [reflexivity|]. left.
    split; [reflexivity|]. split; [reflexivity|]. lia. }
  assert (Hreq : forall A B : Request, forall l, (l ++ [A]) ++ [B] = l ++ [A; B])
    by (intros; now rewrite <- app_assoc).
  destruct (GetComments server repo (ID pr)) as [cs | e] eqn:Ecs.
  2:{ cbn. rewrite Hreq. split; [reflexivity|]. split; [reflexivity|].
      split; [reflexivity|].
      right. exists ps. split; [reflexivity|]. split; [reflexivity|]. left.
      split; [reflexivity|]. split; [reflexivity|]. lia. }
  destruct (String.eqb _ _).
  { cbn. rewrite Hreq. split; [reflexivity|]. split; [reflexivity|].
    split; [reflexivity|].
    right. exists ps. split; [reflexivity|]. split; [reflexivity|]. left.
    split; [reflexivity|]. split; [reflexivity|]. lia. }
  destruct (time.ParseRFC3339 _) as [lastTime|] eqn:Et.
  2:{ cbn. rewrite Hreq. split; [reflexivity|]. split; [reflexivity|].
      split; [reflexivity|].
      right. exists ps. split; [reflexivity|]. split; [reflexivity|]. left.
      split; [reflexivity|]. split; [reflexivity|]. lia. }
  cbn [readClock send clockReads requests file sent logs].
  destruct (isStale cfg _ lastTime) eqn:Est.
  - cbn. rewrite Hreq. split; [reflexivity|]. split; [reflexivity|].
    split; [reflexivity|].
    right. exists ps. split; [reflexivity|]. split; [reflexivity|]. right.
    split; [exact Eap|]. split.
    { exists cs, lastTime. split; [reflexivity|]. split; [exact Et | exact Est]. }
    split; [reflexivity|]. split; reflexivity.
  - cbn. rewrite Hreq. split; [reflexivity|]. split; [reflexivity|].
    split; [reflexivity|].
    right. exists ps. split; [reflexivity|]. split; [reflexivity|]. left.
    split; [reflexivity|]. split; [reflexivity|]. lia.
Qed.


(** Induction over the inner loop: a property of the batch and the world
    that survives the loop body holds when the loop ends. *)
Lemma processPRs_ind (P : Batch -> World -> Prop) (repo : string)
    (l : list PullRequest) :
  (forall pr b w, In pr l -> P b w ->
      P (fst (processPR cfg env repo (b, w) pr)) (snd (processPR cfg env repo (b, w) pr))) ->
  forall b w, P b w ->
  P (fst (fold_left (processPR cfg env repo) l (b, w)))
    (snd (fold_left (processPR cfg env repo) l (b, w))).
Proof.
  induction l as [|pr l IH]; intros Hstep b w HP; cbn [fold_left]; [exact HP|].
  pose proof (Hstep pr b w (or_introl eq_refl) HP) as H1.
  destruct (processPR cfg env repo (b, w) pr) as [b1 w1]. cbn [fst snd] in H1.
  apply IH; [|exact H1]. intros q b' w' Hq. apply Hstep. now right.
Qed.

(** Induction over the two nested loops of the cycle: the property must
    also survive logging and sending. *)
Lemma cycle_ind (P : Batch -> World -> Prop) (repos : list string) :
  (forall b w l m, P b w -> P b (slog l m w)) ->
  (forall b w r, P b w -> P b (send r w)) ->
  (forall repo prs pr b w,
      In repo repos -> ListOpenPRs server repo = Ok prs -> In pr (filtered prs) ->
      P b w ->
      P (fst (processPR cfg env repo (b, w) pr)) (snd (processPR cfg env repo (b, w) pr))) ->
  forall b w, P b w ->
  P (fst (fold_left (processRepo cfg env) repos (b, w)))
    (snd (fold_left (processRepo cfg env) repos (b, w))).
Proof.
  intros Hlog Hsend Hstep.
  assert (Houter : forall l, (forall r, In r l -> In r repos) ->
            forall b w, P b w ->
            P (fst (fold_left (processRepo cfg env) l (b, w)))
              (snd (fold_left (processRepo cfg env) l (b, w)))).
  { induction l as [|repo l IH]; intros Hl b w HP; cbn [fold_left]; [exact HP|].
    assert (H1 : P (fst (processRepo cfg env (b, w) repo))
                   (snd (processRepo cfg env (b, w) repo))).
    { unfold processRepo.
      destruct (ListOpenPRs server repo) as [prs | e] eqn:Eprs.
      - apply processPRs_ind.
        + intros pr b' w' Hpr HP'.
          exact (Hstep repo prs pr b' w' (Hl repo (or_introl eq_refl)) Eprs Hpr HP').
        + apply Hlog, Hlog, Hsend, Hlog, HP.
      - cbn [fst snd]. apply Hlog, Hsend, Hlog, HP. }
    destruct (processRepo cfg env (b, w) repo) as [b1 w1]. cbn [fst snd] in H1.
    apply IH; [|exact H1]. intros r Hr. apply Hl. now right. }
  apply Houter. auto.
Qed.

(** What holds of the batch throughout a cycle started in [w0]. *)
Lemma cycle_sound (w0 : World) :
  let b := fst (cycle cfg env w0) in
  let w := snd (cycle cfg env w0) in
  (clockReads w0 <= clockReads w)%nat
  /\ (forall pr, In pr (allPRsToNotify b) ->
        exists repo n, In repo repositories
                       /\ (clockReads w0 <= n < clockReads w)%nat
                       /\ reportable cfg env repo pr n)
  /\ (forall repo l, repoPRsToNotify b !! repo = Some l ->
        In repo repositories /\ l <> []
        /\ sublist l (allPRsToNotify b)
        /\ forall pr, In pr l ->
             exists n, (clockReads w0 <= n < clockReads w)%nat
                       /\ reportable cfg env repo pr n)
  /\ (forall id ps, prParticipants b !! id = Some ps ->
        exists repo, In repo repositories
                     /\ GetParticipants server repo id = Ok ps).
Proof.
  unfold cycle.
  apply (cycle_ind
    (fun b w =>
       (clockReads w0 <= clockReads w)%nat
       /\ (forall pr, In pr (allPRsToNotify b) ->
             exists repo n, In repo repositories
                            /\ (clockReads w0 <= n < clockReads w)%nat
                            /\ reportable cfg env repo pr n)
       /\ (forall repo l, repoPRsToNotify b !! repo = Some l ->
             In repo repositories /\ l <> []
             /\ sublist l (allPRsToNotify b)
             /\ forall pr, In pr l ->
                  exists n, (clockReads w0 <= n < clockReads w)%nat
                            /\ reportable cfg env repo pr n)
       /\ (forall id ps, prParticipants b !! id = Some ps ->
             exists repo, In repo repositories
                          /\ GetParticipants server repo id = Ok ps))).
  - intros b w l m H. exact H.
  - intros b w r H. exact H.
  - intros repo prs pr b w Hrepo Hprs Hpr (Hc & Hall & Hmap & Hpart).
    pose proof (processPR_spec repo b w pr) as S. cbv zeta in S.
    destruct (processPR cfg env repo (b, w) pr) as [b' w']. cbn [fst snd] in *.
    destruct S as (_ & _ & _ & S).
    assert (Hpart' : forall ps0, GetParticipants server repo (ID pr) = Ok ps0 ->
              prParticipants b' = <[ID pr := ps0]> (prParticipants b) ->
              forall id ps, prParticipants b' !! id = Some ps ->
              exists repo, In repo repositories /\ GetParticipants server repo id = Ok ps).
    { intros ps0 Hps0 Hb' id ps Hl. rewrite Hb' in Hl.
      destruct (decide (ID pr = id)) as [<- | Hne].
      - rewrite lookup_insert_eq in Hl. injection Hl as <-. now exists repo.
      - rewrite lookup_insert_ne in Hl by exact Hne. now apply Hpart. }
    destruct S as [(e & _ & -> & Hck) | (ps & Hps & Hb' & S)].
    { rewrite Hck. auto. }
    destruct S as [(Ha & Hr & Hck) | (Hap & (cs & lastTime & Hcs & Ht & Hst) & Ha & Hr & Hck)].
    { rewrite Ha, Hr. split; [lia|]. split; [|split].
      - intros q Hq. destruct (Hall q Hq) as (r & n & Hin & Hn & Hrep).
        exists r, n. split; [exact Hin|]. split; [lia | exact Hrep].
      - intros r l Hl. destruct (Hmap r l Hl) as (H1 & H2 & H3 & H4).
        split; [exact H1|]. split; [exact H2|]. split; [exact H3|].
        intros q Hq. destruct (H4 q Hq) as (n & Hn & Hrep).
        exists n. split; [lia | exact Hrep].
      - now apply (Hpart' ps). }
    assert (Hnew : reportable cfg env repo pr (clockReads w)).
    { exists prs, ps, cs, lastTime. auto 10. }
    rewrite Ha, Hr, Hck. split; [lia|]. split; [|split].
    + intros q Hq. apply in_app_or in Hq. destruct Hq as [Hq | [<- | []]].
      * destruct (Hall q Hq) as (r & n & Hin & Hn & Hrep).
        exists r, n. split; [exact Hin|]. split; [lia | exact Hrep].
      * exists repo, (clockReads w). split; [exact Hrepo|]. split; [lia | exact Hnew].
    + intros r l Hl. destruct (decide (repo = r)) as [<- | Hne].
      * rewrite lookup_insert_eq in Hl. injection Hl as <-.
        split; [exact Hrepo|]. split; [now destruct (default _ _)|]. split.
        -- destruct (repoPRsToNotify b !! repo) as [l0|] eqn:El0; cbn [default].
           ++ destruct (Hmap repo l0 El0) as (_ & _ & H3 & _).
              now apply sublist_app.
           ++ apply sublist_inserts_l. reflexivity.
        -- intros q Hq. apply in_app_or in Hq. destruct Hq as [Hq | [<- | []]].
           ++ destruct (repoPRsToNotify b !! repo) as [l0|] eqn:El0; cbn [default] in Hq;
                [|destruct Hq].
              destruct (Hmap repo l0 El0) as (_ & _ & _ & H4).
              destruct (H4 q Hq) as (n & Hn & Hrep). exists n. split; [lia | exact Hrep].
           ++ exists (clockReads w). split; [lia | exact Hnew].
      * rewrite lookup_insert_ne in Hl by exact Hne.
        destruct (Hmap r l Hl) as (H1 & H2 & H3 & H4).
        split; [exact H1|]. split; [exact H2|]. split.
        -- now apply sublist_inserts_r.
        -- intros q Hq. destruct (H4 q Hq) as (n & Hn & Hrep).
           exists n. split; [lia | exact Hrep].
    + now apply (Hpart' ps).
  - split; [lia|]. split; [intros pr []|]. split.
    + intros repo l Hl. unfold emptyBatch, repoPRsToNotify in Hl.
      now rewrite lookup_empty in Hl.
    + intros id ps Hl. unfold emptyBatch, prParticipants in Hl.
      now rewrite lookup_empty in Hl.
Qed.


(** The flat list and the lists per repository hold the same pull
    requests. *)
Lemma cycle_grouping (repos : list string) (b0 : Batch) (w0 : World) :
  Permutation (allPRsToNotify b0) (flat_map snd (map_to_list (repoPRsToNotify b0))) ->
  let b := fst (fold_left (processRepo cfg env) repos (b0, w0)) in
  Permutation (allPRsToNotify b) (flat_map snd (map_to_list (repoPRsToNotify b))).
Proof.
  intros H0.
  apply (cycle_ind
    (fun b _ => Permutation (allPRsToNotify b)
                  (flat_map snd (map_to_list (repoPRsToNotify b)))));
    [auto | auto | | exact H0].
  intros repo prs pr b w _ _ _ HP.
  pose proof (processPR_spec repo b w pr) as S. cbv zeta in S.
  destruct (processPR cfg env repo (b, w) pr) as [b' w']. cbn [fst snd] in *.
  destruct S as (_ & _ & _ & S).
  destruct S as [(e & _ & -> & _) | (ps & _ & _ & S)]; [exact HP|].
  destruct S as [(Ha & Hr & _) | (_ & _ & Ha & Hr & _)].
  { now rewrite Ha, Hr. }
  rewrite Ha, Hr. clear Ha Hr.
  destruct (repoPRsToNotify b !! repo) as [l0|] eqn:El0; cbn [default].
  - rewrite <- insert_delete_eq.
    rewrite (Permutation_flat_map snd
               (map_to_list_insert (delete repo (repoPRsToNotify b)) repo (l0 ++ [pr])
                  (lookup_delete_eq _ _))).
    rewrite HP.
    rewrite <- (Permutation_flat_map snd
                  (map_to_list_delete (repoPRsToNotify b) repo l0 El0)).
    cbn [flat_map snd]. rewrite <- !app_assoc.
    apply Permutation_app_head, Permutation_app_comm.
  - rewrite (Permutation_flat_map snd
               (map_to_list_insert (repoPRsToNotify b) repo ([] ++ [pr]) El0)).
    cbn [flat_map snd app]. rewrite HP. symmetry. apply Permutation_cons_append.
Qed.


(** Every pull request of the batch has its participants on record. *)
Lemma cycle_notified_have_participants (w0 : World) :
  let b := fst (cycle cfg env w0) in
  forall pr, In pr (allPRsToNotify b) -> is_Some (prParticipants b !! ID pr).
Proof.
  unfold cycle.
  apply (cycle_ind
    (fun b _ => forall pr, In pr (allPRsToNotify b) ->
                           is_Some (prParticipants b !! ID pr))); [auto | auto | |].
  - intros repo prs pr b w _ _ _ HP.
    pose proof (processPR_spec repo b w pr) as S. cbv zeta in S.
    destruct (processPR cfg env repo (b, w) pr) as [b' w']. cbn [fst snd] in *.
    destruct S as (_ & _ & _ & S).
    destruct S as [(e & _ & -> & _) | (ps & _ & Hb' & S)]; [exact HP|].
    assert (Hkeep : forall q, is_Some (prParticipants b !! ID q) ->
                              is_Some (prParticipants b' !! ID q)).
    { intros q Hq. rewrite Hb'. destruct (decide (ID pr = ID q)) as [-> | Hne].
      - rewrite lookup_insert_eq. eauto.
      - now rewrite lookup_insert_ne. }
    destruct S as [(Ha & _ & _) | (_ & _ & Ha & _ & _)]; rewrite Ha; intros q Hq.
    + auto.
    + apply in_app_or in Hq. destruct Hq as [Hq | [<- | []]]; [auto|].
      rewrite Hb', lookup_insert_eq. eauto.
  - intros pr [].
Qed.

(** *** The requests of a cycle *)

Lemma processPRs_requests (repo : string) (l : list PullRequest) (b : Batch) (w : World) :
  requests (snd (fold_left (processPR cfg env repo) l (b, w)))
  = requests w ++ flat_map (requestsForPR env repo) l.
Proof.
  revert b w; induction l as [|pr l IH]; intros b w; cbn [fold_left flat_map].
  - now rewrite app_nil_r.
  - pose proof (processPR_spec repo b w pr) as S. cbv zeta in S.
    destruct (processPR cfg env repo (b, w) pr) as [b' w']. cbn [fst snd] in S.
    destruct S as (_ & _ & Hr & _). now rewrite IH, Hr, <- app_assoc.
Qed.

Lemma processRepos_requests (repos : list string) (b : Batch) (w : World) :
  requests (snd (fold_left (processRepo cfg env) repos (b, w)))
  = requests w ++ flat_map (requestsForRepo cfg env) repos.
Proof.
  revert b w; induction repos as [|repo repos IH]; intros b w; cbn [fold_left flat_map].
  - now rewrite app_nil_r.
  - assert (H1 : requests (snd (processRepo cfg env (b, w) repo))
                 = requests w ++ requestsForRepo cfg env repo).
    { unfold processRepo, requestsForRepo.
      destruct (ListOpenPRs server repo) as [prs | e].
      - rewrite processPRs_requests. cbn [requests slog send].
        now rewrite <- app_assoc.
      - reflexivity. }
    destruct (processRepo cfg env (b, w) repo) as [b' w']. cbn [snd] in H1.
    now rewrite IH, H1, <- app_assoc.
Qed.

(** *** Completeness *)

Lemma processPR_mono (repo : string) (b : Batch) (w : World) (pr : PullRequest) :
  let b' := fst (processPR cfg env repo (b, w) pr) in
  let w' := snd (processPR cfg env repo (b, w) pr) in
  (clockReads w <= clockReads w')%nat
  /\ (forall q, In q (allPRsToNotify b) -> In q (allPRsToNotify b'))
  /\ (forall r q, In q (default [] (repoPRsToNotify b !! r)) ->
                  In q (default [] (repoPRsToNotify b' !! r))).
Proof.
  pose proof (processPR_spec repo b w pr) as S. cbv zeta in S. cbv zeta.
  destruct (processPR cfg env repo (b, w) pr) as [b' w']. cbn [fst snd] in *.
  destruct S as (_ & _ & _ & S).
  destruct S as [(e & _ & -> & ->) | (ps & _ & _ & S)]; [auto|].
  destruct S as [(-> & -> & Hc) | (_ & _ & -> & -> & ->)].
  - split; [lia | auto].
  - split; [lia|]. split.
    + intros q Hq. apply in_or_app. now left.
    + intros r q Hq. destruct (decide (repo = r)) as [<- | Hne].
      * rewrite lookup_insert_eq. cbn [default]. apply in_or_app. now left.
      * now rewrite lookup_insert_ne.
Qed.

(** What later steps of a cycle never undo. *)
Abbreviation grown b w b' w' :=
  ((clockReads w <= clockReads w')%nat
   /\ (forall q, In q (allPRsToNotify b) -> In q (allPRsToNotify b'))
   /\ (forall r q, In q (default [] (repoPRsToNotify b !! r)) ->
                   In q (default [] (repoPRsToNotify b' !! r)))).

Lemma processPRs_mono (repo : string) (l : list PullRequest) (b : Batch) (w : World) :
  grown b w (fst (fold_left (processPR cfg env repo) l (b, w)))
            (snd (fold_left (processPR cfg env repo) l (b, w))).
Proof.
  apply (processPRs_ind (fun b' w' => grown b w b' w')); [|auto].
  intros pr b1 w1 _ (H1 & H2 & H3).
  destruct (processPR_mono repo b1 w1 pr) as (M1 & M2 & M3).
  split; [lia|]. split; auto.
Qed.

Lemma processRepos_mono (repos : list string) (b : Batch) (w : World) :
  grown b w (fst (fold_left (processRepo cfg env) repos (b, w)))
            (snd (fold_left (processRepo cfg env) repos (b, w))).
Proof.
  apply (cycle_ind (fun b' w' => grown b w b' w')); [auto | auto | | auto].
  intros repo prs pr b1 w1 _ _ _ (H1 & H2 & H3).
  destruct (processPR_mono repo b1 w1 pr) as (M1 & M2 & M3).
  split; [lia|]. split; auto.
Qed.

Section Reported.

Variables (repo : string) (pr : PullRequest) (ps : list Participant)
  (cs : list Comment) (lastTime : time.Time) (since : nat).

Hypothesis participants : GetParticipants server repo (ID pr) = Ok ps.
Hypothesis notApproved : bitbucket.IsPRApproved ps = false.
Hypothesis comments : GetComments server repo (ID pr) = Ok cs.
Hypothesis parsed :
  time.ParseRFC3339 (bitbucket.GetLastActivity (Local env) pr cs) = Some lastTime.
Hypothesis stale :
  forall n, (since <= n)%nat -> isStale cfg (Now env n) lastTime = true.

Abbreviation reported b :=
  (In pr (allPRsToNotify b) /\ In pr (default [] (repoPRsToNotify b !! repo))).

Lemma processPR_reports (b : Batch) (w : World) :
  (since <= clockReads w)%nat ->
  reported (fst (processPR cfg env repo (b, w) pr)).
Proof.
  intros Hc. unfold processPR. rewrite participants, notApproved, comments.
  destruct (String.eqb_spec (bitbucket.GetLastActivity (Local env) pr cs) "") as [E | _].
  { rewrite E in parsed. discriminate parsed. }
  rewrite parsed. cbn [readClock clockReads send]. rewrite (stale _ Hc). cbn [fst].
  cbn [allPRsToNotify repoPRsToNotify]. rewrite lookup_insert_eq. cbn [default].
  split; apply in_or_app; right; now left.
Qed.

Lemma processPRs_reports (l : list PullRequest) (b : Batch) (w : World) :
  In pr l -> (since <= clockReads w)%nat ->
  reported (fst (fold_left (processPR cfg env repo) l (b, w))).
Proof.
  revert b w; induction l as [|q l IH]; intros b w Hin Hc; [destruct Hin|].
  cbn [fold_left]. destruct Hin as [-> | Hin].
  - pose proof (processPR_reports b w Hc) as [R1 R2].
    destruct (processPR cfg env repo (b, w) pr) as [b1 w1]. cbn [fst] in R1, R2.
    destruct (processPRs_mono repo l b1 w1) as (_ & M2 & M3). auto.
  - destruct (processPR_mono repo b w q) as (M1 & _ & _).
    destruct (processPR cfg env repo (b, w) q) as [b1 w1]. cbn [fst snd] in M1.
    apply IH; [exact Hin | lia].
Qed.

Lemma processRepos_reports (repos : list string) (prs : list PullRequest)
    (b : Batch) (w : World) :
  In repo repos -> ListOpenPRs server repo = Ok prs -> In pr (filtered prs) ->
  (since <= clockReads w)%nat ->
  reported (fst (fold_left (processRepo cfg env) repos (b, w))).
Proof.
  intros Hrepo Hprs Hpr.
  revert b w; induction repos as [|r repos IH]; intros b w Hc; [destruct Hrepo|].
  cbn [fold_left]. destruct Hrepo as [-> | Hrepo].
  - assert (R : reported (fst (processRepo cfg env (b, w) repo))).
    { unfold processRepo. rewrite Hprs. now apply processPRs_reports. }
    destruct (processRepo cfg env (b, w) repo) as [b1 w1]. cbn [fst] in R.
    destruct (processRepos_mono repos b1 w1) as (_ & M2 & M3). destruct R. auto.
  - destruct (processRepos_mono [r] b w) as (M1 & _ & _). cbn [fold_left] in M1.
    destruct (processRepo cfg env (b, w) r) as [b1 w1]. cbn [fst snd] in M1.
    apply (IH Hrepo). lia.
Qed.

End Reported.

(** *** What the batch depends on *)

Lemma processPR_clock (repo : string) (b : Batch) (w1 w2 : World) (pr : PullRequest) :
  clockReads w1 = clockReads w2 ->
  fst (processPR cfg env repo (b, w1) pr) = fst (processPR cfg env repo (b, w2) pr)
  /\ clockReads (snd (processPR cfg env repo (b, w1) pr))
     = clockReads (snd (processPR cfg env repo (b, w2) pr)).
Proof.
  intros Hc. unfold processPR.
  destruct (GetParticipants server repo (ID pr)) as [ps | e]; [|now split].
  destruct (bitbucket.IsPRApproved ps); [now split|].
  destruct (GetComments server repo (ID pr)) as [cs | e]; [|now split].
  destruct (String.eqb _ _); [now split|].
  destruct (time.ParseRFC3339 _) as [lastTime|]; [|now split].
  cbn [readClock clockReads send]. rewrite Hc.
  destruct (isStale cfg _ lastTime); cbn [fst snd clockReads]; now rewrite ?Hc.
Qed.

Lemma processPRs_clock (repo : string) (l : list PullRequest) (b : Batch) (w1 w2 : World) :
  clockReads w1 = clockReads w2 ->
  fst (fold_left (processPR cfg env repo) l (b, w1))
  = fst (fold_left (processPR cfg env repo) l (b, w2))
  /\ clockReads (snd (fold_left (processPR cfg env repo) l (b, w1)))
     = clockReads (snd (fold_left (processPR cfg env repo) l (b, w2))).
Proof.
  revert b w1 w2; induction l as [|pr l IH]; intros b w1 w2 Hc; cbn [fold_left];
    [now split|].
  destruct (processPR_clock repo b w1 w2 pr Hc) as [Hb Hc'].
  destruct (processPR cfg env repo (b, w1) pr) as [b1 v1].
  destruct (processPR cfg env repo (b, w2) pr) as [b2 v2].
  cbn [fst snd] in Hb, Hc'. subst b2. now apply IH.
Qed.

Lemma processRepo_clock (repo : string) (b : Batch) (w1 w2 : World) :
  clockReads w1 = clockReads w2 ->
  fst (processRepo cfg env (b, w1) repo) = fst (processRepo cfg env (b, w2) repo)
  /\ clockReads (snd (processRepo cfg env (b, w1) repo))
     = clockReads (snd (processRepo cfg env (b, w2) repo)).
Proof.
  intros Hc. unfold processRepo.
  destruct (ListOpenPRs server repo) as [prs | e]; [|now split].
  now apply processPRs_clock.
Qed.

Lemma processRepos_clock (repos : list string) (b : Batch) (w1 w2 : World) :
  clockReads w1 = clockReads w2 ->
  fst (fold_left (processRepo cfg env) repos (b, w1))
  = fst (fold_left (processRepo cfg env) repos (b, w2))
  /\ clockReads (snd (fold_left (processRepo cfg env) repos (b, w1)))
     = clockReads (snd (fold_left (processRepo cfg env) repos (b, w2))).
Proof.
  revert b w1 w2; induction repos as [|repo l IH]; intros b w1 w2 Hc; cbn [fold_left];
    [now split|].
  destruct (processRepo_clock repo b w1 w2 Hc) as [Hb Hc'].
  destruct (processRepo cfg env (b, w1) repo) as [b1 v1].
  destruct (processRepo cfg env (b, w2) repo) as [b2 v2].
  cbn [fst snd] in Hb, Hc'. subst b2. now apply IH.
Qed.


(** *** The cycle's guarantees *)

(** X10: Soundness of the batch: every pull request a cycle puts on the flat
    list was reportable in one of the configured repositories at a clock
    reading taken during that cycle. *)
Theorem cycle_reports_only_stale_PRs (w0 : World) (pr : PullRequest) :
  In pr (allPRsToNotify (fst (cycle cfg env w0))) ->
  exists repo n,
    In repo repositories
    /\ (clockReads w0 <= n < clockReads (snd (cycle cfg env w0)))%nat
    /\ reportable cfg env repo pr n.
Proof.
  intros Hin. destruct (cycle_sound w0) as (_ & H & _). now apply H.
Qed.

(** X11: Grouping: the lists per repository hold, all together, exactly the pull
    requests of the flat list; each is kept under a configured repository,
    is never empty, keeps the order of the flat list, and holds only pull
    requests reportable in that very repository. *)
Theorem cycle_groups_by_repository (w0 : World) :
  let b := fst (cycle cfg env w0) in
  Permutation (allPRsToNotify b) (flat_map snd (map_to_list (repoPRsToNotify b)))
  /\ forall repo l, repoPRsToNotify b !! repo = Some l ->
       In repo repositories /\ l <> [] /\ sublist l (allPRsToNotify b)
       /\ forall pr, In pr l -> exists n, reportable cfg env repo pr n.
Proof.
  intros b. split.
  - apply cycle_grouping. unfold emptyBatch. cbn [allPRsToNotify repoPRsToNotify].
    rewrite map_to_list_empty. reflexivity.
  - intros repo l Hl. destruct (cycle_sound w0) as (_ & _ & H & _).
    destruct (H repo l Hl) as (H1 & H2 & H3 & H4).
    split; [exact H1|]. split; [exact H2|]. split; [exact H3|].
    intros pr Hpr. destruct (H4 pr Hpr) as (n & _ & Hrep). now exists n.
Qed.

(** X12: The participants handed to the notifiers: every entry is an answer of
    the server for that id in some configured repository; when the
    repositories never answer differently for one id, the entry of a pull
    request of the batch is the list its staleness was judged with, and
    that list has fewer approvals than reviewers. *)
Theorem notified_participants (w0 : World) :
  let b := fst (cycle cfg env w0) in
  (forall id ps, prParticipants b !! id = Some ps ->
     exists repo, In repo repositories /\ GetParticipants server repo id = Ok ps)
  /\ ((forall r1 r2 id ps1 ps2,
          In r1 repositories -> In r2 repositories ->
          GetParticipants server r1 id = Ok ps1 ->
          GetParticipants server r2 id = Ok ps2 -> ps1 = ps2) ->
      forall pr, In pr (allPRsToNotify b) ->
        exists ps, prParticipants b !! ID pr = Some ps
                   /\ bitbucket.IsPRApproved ps = false
                   /\ fst (bitbucket.CountApprovals ps) < snd (bitbucket.CountApprovals ps)).
Proof.
  intros b. destruct (cycle_sound w0) as (_ & Hall & _ & Hprov).
  split; [exact Hprov|].
  intros Huniq pr Hpr.
  destruct (cycle_notified_have_participants w0 pr Hpr) as [ps Hps].
  exists ps. split; [exact Hps|].
  destruct (Hprov _ _ Hps) as (r1 & Hr1 & Hg1).
  destruct (Hall pr Hpr) as (r2 & n & Hr2 & _ & Hrep).
  destruct Hrep as (prs & ps' & cs & t & _ & _ & Hg2 & Hap & _).
  rewrite (Huniq r1 r2 (ID pr) ps ps' Hr1 Hr2 Hg1 Hg2).
  split; [exact Hap|].
  destruct (CountApprovals_le ps') as [Hle _].
  destruct (Z.eq_dec (fst (bitbucket.CountApprovals ps'))
              (snd (bitbucket.CountApprovals ps'))) as [E | NE]; [|lia].
  apply CountApprovals_agree in E. congruence.
Qed.

(** X13: Completeness of the batch: a pull request of a configured, listed
    repository that passes the keyword filter, whose participants and
    comments are fetched, that is not approved by all reviewers and whose
    last activity is stale at every clock reading from the start of the
    cycle on, is on the flat list and on the list of its repository. *)
Theorem cycle_reports_every_stale_PR (w0 : World) (repo : string)
    (prs : list PullRequest) (pr : PullRequest) (ps : list Participant)
    (cs : list Comment) (lastTime : time.Time) :
  In repo repositories ->
  ListOpenPRs server repo = Ok prs ->
  In pr (filtered prs) ->
  GetParticipants server repo (ID pr) = Ok ps ->
  bitbucket.IsPRApproved ps = false ->
  GetComments server repo (ID pr) = Ok cs ->
  time.ParseRFC3339 (bitbucket.GetLastActivity (Local env) pr cs) = Some lastTime ->
  (forall n, (clockReads w0 <= n)%nat -> isStale cfg (Now env n) lastTime = true) ->
  let b := fst (cycle cfg env w0) in
  In pr (allPRsToNotify b) /\ In pr (default [] (repoPRsToNotify b !! repo)).
Proof.
  intros Hrepo Hprs Hpr Hps Hap Hcs Ht Hst b.
  apply (processRepos_reports repo pr ps cs lastTime (clockReads w0)
           Hps Hap Hcs Ht Hst repositories prs emptyBatch w0 Hrepo Hprs Hpr).
  lia.
Qed.

(** X14: The requests of a cycle are determined by the answers of the server,
    neither by the clock nor by the threshold: one listing per configured
    repository, in order; participants are requested only for listed pull
    requests that pass the keyword filter, comments only after a
    participants answer in which not all reviewers approve. *)
Theorem cycle_requests (w0 : World) :
  let sent := flat_map (requestsForRepo cfg env) repositories in
  requests (snd (cycle cfg env w0)) = requests w0 ++ sent
  /\ (forall repo id, In (ReqGetParticipants repo id) sent ->
        exists prs pr, ListOpenPRs server repo = Ok prs
                       /\ In pr (filtered prs) /\ ID pr = id)
  /\ (forall repo id, In (ReqGetComments repo id) sent ->
        exists ps, GetParticipants server repo id = Ok ps
                   /\ bitbucket.IsPRApproved ps = false)
  /\ (forall repo, In (ReqListOpenPRs repo) sent <-> In repo repositories).
Proof.
  intros sent. split; [apply processRepos_requests|].
  assert (HPR : forall repo pr r, In r (requestsForPR env repo pr) ->
            r = ReqGetParticipants repo (ID pr)
            \/ (r = ReqGetComments repo (ID pr)
                /\ exists ps, GetParticipants server repo (ID pr) = Ok ps
                              /\ bitbucket.IsPRApproved ps = false)).
  { intros repo pr r. unfold requestsForPR. intros [<- | Hr]; [now left|].
    destruct (GetParticipants server repo (ID pr)) as [ps | e]; [|destruct Hr].
    destruct (bitbucket.IsPRApproved ps) eqn:E; [destruct Hr|].
    destruct Hr as [<- | []]. right. split; [reflexivity | now exists ps]. }
  assert (HR : forall repo r, In r (requestsForRepo cfg env repo) ->
            r = ReqListOpenPRs repo
            \/ exists prs pr, ListOpenPRs server repo = Ok prs /\ In pr (filtered prs)
                              /\ In r (requestsForPR env repo pr)).
  { intros repo r. unfold requestsForRepo. intros [<- | Hr]; [now left|].
    destruct (ListOpenPRs server repo) as [prs | e]; [|destruct Hr].
    apply in_flat_map in Hr. destruct Hr as (pr & Hpr & Hr).
    right. now exists prs, pr. }
  split; [|split].
  - intros repo id Hin. apply in_flat_map in Hin. destruct Hin as (r & _ & Hin).
    apply HR in Hin. destruct Hin as [H | (prs & pr & Hprs & Hpr & Hin)]; [discriminate|].
    apply HPR in Hin. destruct Hin as [H | [H _]]; [|discriminate].
    injection H as -> ->. now exists prs, pr.
  - intros repo id Hin. apply in_flat_map in Hin. destruct Hin as (r & _ & Hin).
    apply HR in Hin. destruct Hin as [H | (prs & pr & Hprs & Hpr & Hin)]; [discriminate|].
    apply HPR in Hin. destruct Hin as [H | [H Hps]]; [discriminate|].
    injection H as -> ->. exact Hps.
  - intros repo. split.
    + intros Hin. apply in_flat_map in Hin. destruct Hin as (r & Hr & Hin).
      apply HR in Hin. destruct Hin as [H | (prs & pr & Hprs & Hpr & Hin)].
      * injection H as ->. exact Hr.
      * apply HPR in Hin. destruct Hin as [H | [H _]]; discriminate.
    + intros Hin. apply in_flat_map. exists repo. split; [exact Hin|].
      unfold requestsForRepo. now left.
Qed.

(** X15: The batch of a cycle depends on the world only through the number of
    clock readings taken so far, and a repository whose listing fails
    leaves the batch, the clock, the checkpoint and the notifications as
    if it were not configured. *)
Theorem failed_listing_is_skipped (w0 w0' : World) (before after : list string)
    (repo : string) (e : error) :
  repositories = before ++ repo :: after ->
  ListOpenPRs server repo = Err e ->
  clockReads w0 = clockReads w0' ->
  let st := cycle cfg env w0 in
  let st' := fold_left (processRepo cfg env) (before ++ after) (emptyBatch, w0') in
  fst st = fst st' /\ clockReads (snd st) = clockReads (snd st')
  /\ file (snd st) = file w0 /\ sent (snd st) = sent w0.
Proof.
  intros Hrepos Herr Hc st st'. subst st st'. unfold cycle. rewrite Hrepos.
  split; [|split].
  - rewrite !fold_left_app. cbn [fold_left].
    destruct (processRepos_clock before emptyBatch w0 w0' Hc) as [Hb Hc1].
    destruct (fold_left (processRepo cfg env) before (emptyBatch, w0)) as [b1 w1].
    destruct (fold_left (processRepo cfg env) before (emptyBatch, w0')) as [b1' w1'].
    cbn [fst snd] in Hb, Hc1. subst b1'.
    unfold processRepo at 2. rewrite Herr.
    apply processRepos_clock. exact Hc1.
  - rewrite !fold_left_app. cbn [fold_left].
    destruct (processRepos_clock before emptyBatch w0 w0' Hc) as [Hb Hc1].
    destruct (fold_left (processRepo cfg env) before (emptyBatch, w0)) as [b1 w1].
    destruct (fold_left (processRepo cfg env) before (emptyBatch, w0')) as [b1' w1'].
    cbn [fst snd] in Hb, Hc1. subst b1'.
    unfold processRepo at 2. rewrite Herr.
    apply processRepos_clock. exact Hc1.
  - rewrite <- Hrepos. apply (cycle_untouched cfg env w0).
Qed.

End CycleLaws.

(** ** Dispatch and the loop *)

Section LoopLaws.

Import config main.

Variable cfg : Config.

Lemma conclude_dispatch (env : Env) (b : Batch) (w : World) :
  allPRsToNotify b <> [] ->
  let w2 := conclude cfg env b w in
  let now := Now env (clockReads w) in
  sent w2 = sent w ++ map (notification cfg b) (notifiers cfg env)
  /\ file w2 = match writeFailure env now with
               | Some failure => store.leftover failure now (file w)
               | None => store.Timestamp now
               end
  /\ requests w2 = requests w
  /\ clockReads w2 = S (clockReads w).
Proof.
  intros Hne w2 now. subst w2. unfold conclude.
  destruct (allPRsToNotify b) as [|p l] eqn:E; [contradiction|].
  cbn [length Nat.ltb Nat.leb].
  pose proof (fold_notifyOne cfg b (notifiers cfg env)
                (slog INFO "Sending summary notification email" w)) as F.
  cbv zeta in F. destruct F as (Ff & Fc & Fr & Fs).
  set (w1 := fold_left (notifyOne cfg b) (notifiers cfg env)
               (slog INFO "Sending summary notification email" w)) in *.
  unfold readClock. rewrite Fc. cbn [clockReads slog]. fold now.
  unfold store.SetLastNotificationTime.
  destruct (writeFailure env now) as [[err | err state] |];
    cbn [sent file requests clockReads slog setFile];
    rewrite ?Ff, ?Fc, ?Fr, ?Fs; cbn [sent file requests clockReads slog];
    unfold store.leftover; try destruct state; rewrite ?Ff; auto.
Qed.






(** What a pass that notified somebody has done. *)
Lemma iteration_notified (env : Env) (w : World) :
  sent (snd (iteration cfg env w)) <> sent w ->
  exists b wc,
    allPRsToNotify b <> []
    /\ snd (iteration cfg env w) = snd (wait env (conclude cfg env b wc))
    /\ file (snd (iteration cfg env w))
       = match writeFailure env (Now env (clockReads wc)) with
         | Some failure => store.leftover failure (Now env (clockReads wc)) (file w)
         | None => store.Timestamp (Now env (clockReads wc))
         end.
Proof.
  unfold iteration. destruct (doneAtTop env); [intros H; now destruct H|].
  destruct (store.GetLastNotificationTime (file w)) as [lastNotified | e];
    [|intros H; now destruct H].
  assert (Hgate : file (snd (shouldNotify cfg env lastNotified w)) = file w
                  /\ sent (snd (shouldNotify cfg env lastNotified w)) = sent w).
  { unfold shouldNotify. destruct (time.IsZero lastNotified); now split. }
  destruct (shouldNotify cfg env lastNotified w) as [go w0]. cbn [snd] in Hgate.
  destruct Hgate as [Hf0 Hs0]. destruct go; cbn [negb].
  2:{ unfold wait. destruct (doneInWait env); cbn [snd sent slog]; congruence. }
  destruct (cycle_untouched cfg env w0) as [Hcf Hcs].
  destruct (cycle cfg env w0) as [b wc]. cbn [snd] in Hcf, Hcs.
  intros Hsent. exists b, wc.
  assert (Hwait : forall v, snd (wait env v) = slog INFO "Sleeping until next check..." v)
    by (intros v; unfold wait; now destruct (doneInWait env)).
  rewrite Hwait in *. cbn [sent file slog] in *.
  destruct (allPRsToNotify b) as [|p l] eqn:E.
  { exfalso. apply Hsent. unfold conclude. rewrite E. cbn. congruence. }
  assert (Hne : allPRsToNotify b <> []) by (rewrite E; discriminate).
  split; [discriminate|]. split; [reflexivity|].
  destruct (conclude_dispatch env b wc Hne) as (_ & Hf & _).
  rewrite Hf. destruct (writeFailure env _); congruence.
Qed.

(** X26: One notification per interval: a pass that notified and wrote the
    checkpoint leaves in it a reading of its clock; as long as that
    reading is not Go's zero time, a later pass whose clock is less than the
    interval past it sends no request, notifies nobody and leaves the
    checkpoint alone. *)
Theorem no_second_notification_within_interval (env1 env2 : Env) (w : World) :
  let w1 := snd (iteration cfg env1 w) in
  sent w1 <> sent w ->
  (forall t, writeFailure env1 t = None) ->
  doneAtTop env2 = false ->
  exists n,
    file w1 = store.Timestamp (Now env1 n)
    /\ (time.IsZero (Now env1 n) = false ->
        time.Since (Now env2 (clockReads w1)) (Now env1 n) < interval cfg ->
        let w2 := snd (iteration cfg env2 w1) in
        sent w2 = sent w1 /\ requests w2 = requests w1 /\ file w2 = file w1).
Proof.
  intros w1 Hsent Hwrite Hlive.
  destruct (iteration_notified env1 w Hsent) as (b & wc & _ & _ & Hfile).
  fold w1 in Hfile. rewrite Hwrite in Hfile.
  exists (clockReads wc). split; [exact Hfile|].
  intros Hnz Hlt w2. subst w2.
  assert (Hg : store.GetLastNotificationTime (file w1) = Ok (Now env1 (clockReads wc)))
    by (rewrite Hfile; reflexivity).
  rewrite (iteration_gate cfg env2 w1 _ Hlive Hg).
  unfold shouldNotify. rewrite Hnz. cbn [readClock fst snd].
  replace (time.Since (Now env2 (clockReads w1)) (Now env1 (clockReads wc))
           >=? interval cfg) with false
    by (symmetry; rewrite Z.geb_leb; apply Z.leb_gt; exact Hlt).
  unfold wait. destruct (doneInWait env2); cbn; auto.
Qed.

End LoopLaws.

(** ** The sample scenario, once more *)

Lemma cycle_reports_only_stale_PRs_witness :
  exists repo n,
    In repo ["repo1"%string]
    /\ (0 <= n < 1)%nat
    /\ reportable scenario.cfg (scenario.env None) repo scenario.stale n.
Proof.
  apply (cycle_reports_only_stale_PRs scenario.cfg (scenario.env None) scenario.world
           scenario.stale).
  vm_compute. left. reflexivity.
Defined.

Lemma cycle_reports_every_stale_PR_witness :
  let b := fst (main.cycle scenario.cfg (scenario.env None) scenario.world) in
  In scenario.stale (main.allPRsToNotify b)
  /\ In scenario.stale (default [] (main.repoPRsToNotify b !! "repo1"%string)).
Proof.
  apply (cycle_reports_every_stale_PR scenario.cfg (scenario.env None) scenario.world
           "repo1" [scenario.wip; scenario.approved; scenario.stale] scenario.stale
           [sample.participant "REVIEWER" false; sample.participant "AUTHOR" false] []
           (time.mkTime (1700000000 + time.unixToInternal) 0)).
  - left. reflexivity.
  - reflexivity.
  - vm_compute. right. left. reflexivity.
  - reflexivity.
  - reflexivity.
  - reflexivity.
  - vm_compute. reflexivity.
  - intros n _. vm_compute. reflexivity.
Defined.

Lemma failed_listing_is_skipped_witness :
  let st := main.cycle outage.cfg (scenario.env None) scenario.world in
  let st' := fold_left (main.processRepo outage.cfg (scenario.env None))
               ["repo1"%string] (main.emptyBatch, scenario.world) in
  fst st = fst st' /\ main.clockReads (snd st) = main.clockReads (snd st')
  /\ main.file (snd st) = main.file scenario.world
  /\ main.sent (snd st) = main.sent scenario.world.
Proof.
  apply (failed_listing_is_skipped outage.cfg (scenario.env None) scenario.world
           scenario.world [] ["repo1"%string] "ghost"
           (errorString "error fetching PRs: 404 Not Found")); reflexivity.
Defined.



Lemma notified_participants_witness :
  let b := fst (main.cycle scenario.cfg (scenario.env None) scenario.world) in
  exists ps, main.prParticipants b !! ID scenario.stale = Some ps
             /\ bitbucket.IsPRApproved ps = false
             /\ fst (bitbucket.CountApprovals ps) < snd (bitbucket.CountApprovals ps).
Proof.
  intros b.
  destruct (notified_participants scenario.cfg (scenario.env None) scenario.world)
    as [_ H].
  apply H.
  - intros r1 r2 id ps1 ps2 _ _ H1 H2. cbn in H1, H2. congruence.
  - vm_compute. left. reflexivity.
Defined.

Lemma no_second_notification_within_interval_witness :
  let env := scenario.env None in
  let w1 := snd (main.iteration scenario.cfg env scenario.world) in
  let w2 := snd (main.iteration scenario.cfg env w1) in
  main.sent w2 = main.sent w1 /\ main.requests w2 = main.requests w1
  /\ main.file w2 = main.file w1.
Proof.
  intros env w1 w2.
  destruct (no_second_notification_within_interval scenario.cfg env env scenario.world)
    as (n & Hfile & Hskip).
  - vm_compute. discriminate.
  - reflexivity.
  - reflexivity.
  - apply Hskip; vm_compute; reflexivity.
Defined.

(** ** The HTTP client: pagination *)

Section Pagination.

Variable net : client.Network.

Lemma listOpenPRsLoop_S (c : client.Client) (fuel : nat) (url : string)
    (prs : list PullRequest) (sent : list string) :
  client.listOpenPRsLoop net c (S fuel) url prs sent
  = if String.eqb url "" then (Some (Ok prs), sent)
    else
      match client.NewRequest net url with
      | Some err => (Some (Err err), sent)
      | None =>
          match client.Do net (length sent) url with
          | Err err => (Some (Err err), sent ++ [url])
          | Ok resp =>
              if negb (client.StatusCode resp =? 200) then
                (Some (Err (client.statusError "error fetching PRs" resp url)),
                 sent ++ [url])
              else
                match client.unmarshalPRList net (client.Body resp) with
                | Err err => (Some (Err err), sent ++ [url])
                | Ok prResp =>
                    client.listOpenPRsLoop net c fuel
                      (client.nextURL c (client.PRNext prResp))
                      (prs ++ client.PRValues prResp) (sent ++ [url])
                end
          end
      end.
Proof. reflexivity. Qed.

Lemma getCommentsLoop_S (fuel : nat) (url : string)
    (comments : list Comment) (sent : list string) :
  client.getCommentsLoop net (S fuel) url comments sent
  = if String.eqb url "" then (Some (Ok comments), sent)
    else
      match client.NewRequest net url with
      | Some err => (Some (Err err), sent)
      | None =>
          match client.Do net (length sent) url with
          | Err err => (Some (Err err), sent ++ [url])
          | Ok resp =>
              if negb (client.StatusCode resp =? 200) then
                (Some (Err (client.statusError "error fetching comments/activities"
                              resp url)), sent ++ [url])
              else
                match client.unmarshalComments net (client.Body resp) with
                | Err err => (Some (Err err), sent ++ [url])
                | Ok cResp =>
                    client.getCommentsLoop net fuel (client.CommentNext cResp)
                      (comments ++ client.CommentValues cResp) (sent ++ [url])
                end
          end
      end.
Proof. reflexivity. Qed.

(** Through a run of served pages the loop goes page by page. *)
Lemma listOpenPRsLoop_pages (c : client.Client)
    (pages : list (string * client.PRListResponse)) (final : string) :
  forall url prs sent fuel,
    pullRequestPages net c (length sent) url pages final ->
    client.listOpenPRsLoop net c (length pages + fuel) url prs sent
    = client.listOpenPRsLoop net c fuel final
        (prs ++ flat_map (fun p => client.PRValues (snd p)) pages)
        (sent ++ map fst pages).
Proof.
  induction pages as [|[u page] rest IH]; intros url prs sent fuel H.
  - cbn in H. subst url. cbn. now rewrite !app_nil_r.
  - destruct H as (-> & (Hurl & Hreq & resp & Hdo & Hst & Hdec) & Hrest).
    change (length ((url, page) :: rest) + fuel)%nat with (S (length rest + fuel)).
    rewrite listOpenPRsLoop_S.
    apply String.eqb_neq in Hurl. rewrite Hurl, Hreq, Hdo, Hst, Z.eqb_refl. cbn [negb].
    rewrite Hdec.
    rewrite IH by (rewrite length_app, Nat.add_1_r; exact Hrest).
    cbn [flat_map map fst snd]. now rewrite <- !app_assoc.
Qed.

Lemma getCommentsLoop_pages (pages : list (string * client.CommentsResponse))
    (final : string) :
  forall url comments sent fuel,
    commentPages net (length sent) url pages final ->
    client.getCommentsLoop net (length pages + fuel) url comments sent
    = client.getCommentsLoop net fuel final
        (comments ++ flat_map (fun p => client.CommentValues (snd p)) pages)
        (sent ++ map fst pages).
Proof.
  induction pages as [|[u page] rest IH]; intros url comments sent fuel H.
  - cbn in H. subst url. cbn. now rewrite !app_nil_r.
  - destruct H as (-> & (Hurl & Hreq & resp & Hdo & Hst & Hdec) & Hrest).
    change (length ((url, page) :: rest) + fuel)%nat with (S (length rest + fuel)).
    rewrite getCommentsLoop_S.
    apply String.eqb_neq in Hurl. rewrite Hurl, Hreq, Hdo, Hst, Z.eqb_refl. cbn [negb].
    rewrite Hdec.
    rewrite IH by (rewrite length_app, Nat.add_1_r; exact Hrest).
    cbn [flat_map map fst snd]. now rewrite <- !app_assoc.
Qed.

(** X18: [ListOpenPRs] follows the pages to the end: served a chain of pages
    whose last has no [next], it returns the pull requests of all pages in
    page order, after exactly one request per page, each to the URL the
    page before leads to; the loop ends when its condition is tested for
    the time after the last page. *)
Theorem ListOpenPRs_collects_all_pages (c : client.Client) (repo : string)
    (pages : list (string * client.PRListResponse)) (sent : list string) (fuel : nat) :
  pullRequestPages net c (length sent) (client.pullRequestsURL c repo) pages "" ->
  client.ListOpenPRs net c fuel repo sent
  = if (length pages <? fuel)%nat
    then (Some (Ok (flat_map (fun p => client.PRValues (snd p)) pages)),
          sent ++ map fst pages)
    else (None, sent ++ firstn fuel (map fst pages)).
Proof.
  intros H. unfold client.ListOpenPRs.
  destruct (Nat.ltb_spec (length pages) fuel) as [Hlt | Hge].
  - replace fuel with (length pages + S (fuel - S (length pages)))%nat by lia.
    rewrite (listOpenPRsLoop_pages c pages "" _ _ _ _ H). reflexivity.
  - revert H. generalize (client.pullRequestsURL c repo) as url.
    generalize (@nil PullRequest) as prs. revert sent pages Hge.
    induction fuel as [|fuel IH]; intros sent pages Hge prs url H.
    + cbn. now rewrite app_nil_r.
    + destruct pages as [|[u page] rest]; [cbn in Hge; lia|].
      destruct H as (-> & (Hurl & Hreq & resp & Hdo & Hst & Hdec) & Hrest).
      rewrite listOpenPRsLoop_S.
      apply String.eqb_neq in Hurl. rewrite Hurl, Hreq, Hdo, Hst, Z.eqb_refl. cbn [negb].
      rewrite Hdec. cbn [map fst firstn].
      rewrite (IH (sent ++ [url]) rest).
      * now rewrite <- app_assoc.
      * cbn in Hge. lia.
      * rewrite length_app, Nat.add_1_r. exact Hrest.
Qed.

(** X19: [GetComments] does the same, following each [next] as it is. *)
Theorem GetComments_collects_all_pages (c : client.Client) (repo : string) (prID : Z)
    (pages : list (string * client.CommentsResponse)) (sent : list string) (fuel : nat) :
  commentPages net (length sent) (client.activitiesURL c repo prID) pages "" ->
  (length pages < fuel)%nat ->
  client.GetComments net c fuel repo prID sent
  = (Some (Ok (flat_map (fun p => client.CommentValues (snd p)) pages)),
     sent ++ map fst pages).
Proof.
  intros H Hlt. unfold client.GetComments.
  replace fuel with (length pages + S (fuel - S (length pages)))%nat by lia.
  rewrite (getCommentsLoop_pages pages "" _ _ _ _ H). reflexivity.
Qed.

(** X20: A failure on any page fails the whole call: after pages that were
    served, a request that is refused, fails, is answered with another
    status than 200 or with a body that does not decode makes [ListOpenPRs]
    and [GetComments] return that error, and with it none of the items of
    the pages before; no further request is made. *)
Theorem failure_on_a_page_fails_the_call (c : client.Client) (repo : string) (prID : Z)
    (sent : list string) (fuel : nat) (final : string) (e : error) :
  (forall pages,
      pullRequestPages net c (length sent) (client.pullRequestsURL c repo) pages final ->
      failsWith net "error fetching PRs" (decodeError (client.unmarshalPRList net))
        (length sent + length pages) final e ->
      (length pages < fuel)%nat ->
      fst (client.ListOpenPRs net c fuel repo sent) = Some (Err e)
      /\ (length (snd (client.ListOpenPRs net c fuel repo sent))
          <= length sent + S (length pages))%nat)
  /\ (forall pages,
        commentPages net (length sent) (client.activitiesURL c repo prID) pages final ->
        failsWith net "error fetching comments/activities"
          (decodeError (client.unmarshalComments net))
          (length sent + length pages) final e ->
        (length pages < fuel)%nat ->
        fst (client.GetComments net c fuel repo prID sent) = Some (Err e)
        /\ (length (snd (client.GetComments net c fuel repo prID sent))
            <= length sent + S (length pages))%nat).
Proof.
  split.
  - intros pages H (Hurl & Hfail) Hlt. unfold client.ListOpenPRs.
    replace fuel with (length pages + S (fuel - S (length pages)))%nat by lia.
    rewrite (listOpenPRsLoop_pages c pages final _ _ _ _ H), listOpenPRsLoop_S.
    apply String.eqb_neq in Hurl. rewrite Hurl.
    rewrite length_app, length_map.
    destruct Hfail as [-> | [-> [-> | (resp & -> & [[Hst ->] | [Hst Hdec]])]]];
      cbn [fst snd]; rewrite ?length_app, ?length_map; cbn [length].
    + split; [reflexivity | lia].
    + split; [reflexivity | lia].
    + apply Z.eqb_neq in Hst. rewrite Hst. cbn [negb fst snd].
      rewrite ?length_app, ?length_map. cbn [length]. split; [reflexivity | lia].
    + rewrite Hst, Z.eqb_refl. cbn [negb]. unfold decodeError in Hdec.
      destruct (client.unmarshalPRList net (client.Body resp)); [discriminate|].
      injection Hdec as ->. cbn [fst snd].
      rewrite ?length_app, ?length_map. cbn [length]. split; [reflexivity | lia].
  - intros pages H (Hurl & Hfail) Hlt. unfold client.GetComments.
    replace fuel with (length pages + S (fuel - S (length pages)))%nat by lia.
    rewrite (getCommentsLoop_pages pages final _ _ _ _ H), getCommentsLoop_S.
    apply String.eqb_neq in Hurl. rewrite Hurl.
    rewrite length_app, length_map.
    destruct Hfail as [-> | [-> [-> | (resp & -> & [[Hst ->] | [Hst Hdec]])]]];
      cbn [fst snd]; rewrite ?length_app, ?length_map; cbn [length].
    + split; [reflexivity | lia].
    + split; [reflexivity | lia].
    + apply Z.eqb_neq in Hst. rewrite Hst. cbn [negb fst snd].
      rewrite ?length_app, ?length_map. cbn [length]. split; [reflexivity | lia].
    + rewrite Hst, Z.eqb_refl. cbn [negb]. unfold decodeError in Hdec.
      destruct (client.unmarshalComments net (client.Body resp)); [discriminate|].
      injection Hdec as ->. cbn [fst snd].
      rewrite ?length_app, ?length_map. cbn [length]. split; [reflexivity | lia].
Qed.

Lemma append_nonempty_l (a b : string) : a <> ""%string -> String.append a b <> ""%string.
Proof. destruct a as [|x a]; [congruence|]. intros _. rewrite append_String. discriminate. Qed.

Lemma firstURL_nonempty (c : client.Client) (tail : string) :
  (if negb (String.eqb (client.BaseURL c) "")
   then String.append (client.BaseURL c) tail
   else String.append (client.origin c) tail) <> ""%string.
Proof.
  destruct (String.eqb_spec (client.BaseURL c) "") as [E | NE]; cbn [negb].
  - unfold client.origin. apply append_nonempty_l, append_nonempty_l. discriminate.
  - now apply append_nonempty_l.
Qed.

(** X21: No guard against pages that always lead on: when every request is
    served a page with a [next], [ListOpenPRs] and [GetComments] never
    return, and make one request per test of the loop condition. *)
Theorem endless_pages_never_return (c : client.Client) (repo : string) (prID : Z) :
  ((forall n url, url <> ""%string ->
      exists page, servesPRs net n url page
                   /\ client.nextURL c (client.PRNext page) <> ""%string) ->
   forall fuel sent,
     fst (client.ListOpenPRs net c fuel repo sent) = None
     /\ length (snd (client.ListOpenPRs net c fuel repo sent)) = (length sent + fuel)%nat)
  /\ ((forall n url, url <> ""%string ->
         exists page, servesComments net n url page
                      /\ client.CommentNext page <> ""%string) ->
      forall fuel sent,
        fst (client.GetComments net c fuel repo prID sent) = None
        /\ length (snd (client.GetComments net c fuel repo prID sent))
           = (length sent + fuel)%nat).
Proof.
  split.
  - intros Hserve fuel sent. unfold client.ListOpenPRs.
    pose proof (firstURL_nonempty c _ : client.pullRequestsURL c repo <> ""%string) as Hurl.
    revert Hurl. generalize (client.pullRequestsURL c repo) as url.
    generalize (@nil PullRequest) as prs. revert sent.
    induction fuel as [|fuel IH]; intros sent prs url Hurl; [cbn; split; [auto | lia]|].
    destruct (Hserve (length sent) url Hurl)
      as (page & (_ & Hreq & resp & Hdo & Hst & Hdec) & Hnext).
    rewrite listOpenPRsLoop_S.
    apply String.eqb_neq in Hurl. rewrite Hurl, Hreq, Hdo, Hst, Z.eqb_refl. cbn [negb].
    rewrite Hdec.
    destruct (IH (sent ++ [url]) (prs ++ client.PRValues page) _ Hnext) as [H1 H2].
    rewrite H1, H2, length_app. cbn [length]. split; [reflexivity | lia].
  - intros Hserve fuel sent. unfold client.GetComments.
    pose proof (firstURL_nonempty c _ : client.activitiesURL c repo prID <> ""%string)
      as Hurl.
    revert Hurl. generalize (client.activitiesURL c repo prID) as url.
    generalize (@nil Comment) as cs. revert sent.
    induction fuel as [|fuel IH]; intros sent cs url Hurl; [cbn; split; [auto | lia]|].
    destruct (Hserve (length sent) url Hurl)
      as (page & (_ & Hreq & resp & Hdo & Hst & Hdec) & Hnext).
    rewrite getCommentsLoop_S.
    apply String.eqb_neq in Hurl. rewrite Hurl, Hreq, Hdo, Hst, Z.eqb_refl. cbn [negb].
    rewrite Hdec.
    destruct (IH (sent ++ [url]) (cs ++ client.CommentValues page) _ Hnext) as [H1 H2].
    rewrite H1, H2, length_app. cbn [length]. split; [reflexivity | lia].
Qed.

End Pagination.

(** ** Sample networks *)

Lemma ListOpenPRs_collects_all_pages_witness :
  client.ListOpenPRs wire.twoPages wire.c 3 "repo1" []
  = (Some (Ok [scenario.wip; scenario.approved; scenario.stale]),
     ["https://bitbucket.example:443/rest/api/1.0/projects/ws/repos/repo1/pull-requests?state=OPEN";
      "https://bitbucket.example:443/rest/page2"]%string).
Proof.
  apply (ListOpenPRs_collects_all_pages wire.twoPages wire.c "repo1"
           [(client.pullRequestsURL wire.c "repo1",
             {| client.PRValues := [scenario.wip; scenario.approved];
                client.PRNext := "/rest/page2" |});
            ("https://bitbucket.example:443/rest/page2"%string,
             {| client.PRValues := [scenario.stale]; client.PRNext := "" |})] [] 3).
  split; [reflexivity|]. split.
  { split; [vm_compute; discriminate|]. split; [reflexivity|].
    eexists. split; [reflexivity|]. split; reflexivity. }
  split; [reflexivity|]. split; [|reflexivity].
  split; [discriminate|]. split; [reflexivity|].
  eexists. split; [reflexivity|]. split; reflexivity.
Defined.

Lemma GetComments_collects_all_pages_witness :
  client.GetComments wire.twoPages wire.c 3 "repo1" 3 []
  = (Some (Ok [sample.comment 1 2; sample.comment 3 4]),
     ["https://bitbucket.example:443/rest/api/1.0/projects/ws/repos/repo1/pull-requests/3/activities";
      "https://bitbucket.example:443/rest/more"]%string).
Proof.
  apply (GetComments_collects_all_pages wire.twoPages wire.c "repo1" 3
           [(client.activitiesURL wire.c "repo1" 3,
             {| client.CommentValues := [sample.comment 1 2];
                client.CommentNext := "https://bitbucket.example:443/rest/more" |});
            ("https://bitbucket.example:443/rest/more"%string,
             {| client.CommentValues := [sample.comment 3 4];
                client.CommentNext := "" |})] [] 3); [|cbn; lia].
  split; [reflexivity|]. split.
  { split; [vm_compute; discriminate|]. split; [reflexivity|].
    eexists. split; [reflexivity|]. split; reflexivity. }
  split; [reflexivity|]. split; [|reflexivity].
  split; [discriminate|]. split; [reflexivity|].
  eexists. split; [reflexivity|]. split; reflexivity.
Defined.

Lemma failure_on_a_page_fails_the_call_witness :
  fst (client.ListOpenPRs wire.broken wire.c 5 "repo1" [])
  = Some (Err (errorString
       "error fetching PRs: 500 Internal Server Error (URL: https://bitbucket.example:443/rest/page2, Body: oops)")).
Proof.
  refine (proj1 (proj1 (failure_on_a_page_fails_the_call wire.broken wire.c "repo1" 3 [] 5
            "https://bitbucket.example:443/rest/page2" _)
          [(client.pullRequestsURL wire.c "repo1",
            {| client.PRValues := [scenario.wip; scenario.approved];
               client.PRNext := "/rest/page2" |})] _ _ _)).
  - split; [reflexivity|]. split; [|reflexivity].
    split; [vm_compute; discriminate|]. split; [reflexivity|].
    eexists. split; [reflexivity|]. split; reflexivity.
  - split; [discriminate|]. right. split; [reflexivity|]. right.
    eexists. split; [reflexivity|]. left. split; [discriminate | reflexivity].
  - cbn. lia.
Defined.

Lemma endless_pages_never_return_witness :
  fst (client.ListOpenPRs wire.endless wire.c 50 "repo1" []) = None.
Proof.
  refine (proj1 (proj1 (endless_pages_never_return wire.endless wire.c "repo1" 3) _
                   50%nat [])).
  intros n url Hurl.
  exists {| client.PRValues := [scenario.stale]; client.PRNext := "/rest/more" |}.
  split; [|vm_compute; discriminate].
  split; [exact Hurl|]. split; [reflexivity|].
  eexists. split; [reflexivity|]. split; reflexivity.
Defined.

(** ** The logger *)

Lemma MultiHandler_Enabled_existsb (hs : list logger.Handler) (level : Z) :
  logger.MultiHandler_Enabled hs level
  = existsb (fun h => logger.Enabled h level) hs.
Proof.
  induction hs as [|h hs IH]; cbn [logger.MultiHandler_Enabled existsb]; [reflexivity|].
  rewrite IH. now destruct (logger.Enabled h level).
Qed.

Lemma MultiHandler_Handle_fold (hs : list logger.Handler) (r : logger.Entry)
    (lastErr : option error) (written : list logger.Write) :
  let enabled := List.filter (fun h => logger.Enabled h (logger.EntryLevel r)) hs in
  fold_left
    (fun '(lastErr, written) handler =>
       if logger.Enabled handler (logger.EntryLevel r) then
         let '(err, writes) := logger.Handle handler r in
         (match err with Some _ => err | None => lastErr end, written ++ writes)
       else (lastErr, written)) hs (lastErr, written)
  = (match last (flat_map (fun h => option_list (fst (logger.Handle h r))) enabled) with
     | Some e => Some e
     | None => lastErr
     end,
     written ++ flat_map (fun h => snd (logger.Handle h r)) enabled).
Proof.
  cbv zeta. revert lastErr written.
  induction hs as [|h hs IH]; intros lastErr written;
    cbn [fold_left List.filter flat_map last].
  - now rewrite app_nil_r.
  - destruct (logger.Enabled h (logger.EntryLevel r)); [|apply IH].
    destruct (logger.Handle h r) as [err writes] eqn:E.
    rewrite IH. cbn [flat_map]. rewrite E. cbn [fst snd].
    rewrite <- app_assoc. f_equal.
    destruct err as [e|]; cbn [option_list app]; [|reflexivity].
    destruct (flat_map (fun h0 => option_list (fst (logger.Handle h0 r)))
                (List.filter (fun h0 => logger.Enabled h0 (logger.EntryLevel r)) hs))
      as [|e' l] eqn:El; [reflexivity|].
    change (option_list (Some e) ++ e' :: l) with (e :: e' :: l).
    rewrite last_cons_cons.
    destruct (last (e' :: l)) eqn:L; [reflexivity|].
    apply last_None in L. discriminate.
Qed.

(** X22: The handler for several handlers: it is enabled when one of them is;
    handling a record hands it, in order, to every handler enabled for its
    level and to no other, also after one of them failed; the error
    returned is the one of the last handler that failed, nil if none
    did. *)
Theorem MultiHandler_reaches_every_enabled_handler (hs : list logger.Handler)
    (r : logger.Entry) :
  let enabled := List.filter (fun h => logger.Enabled h (logger.EntryLevel r)) hs in
  let errors := flat_map (fun h => option_list (fst (logger.Handle h r))) enabled in
  (forall level, logger.Enabled (logger.MultiHandler hs) level = true
                 <-> exists h, In h hs /\ logger.Enabled h level = true)
  /\ snd (logger.Handle (logger.MultiHandler hs) r)
     = flat_map (fun h => snd (logger.Handle h r)) enabled
  /\ fst (logger.Handle (logger.MultiHandler hs) r) = last errors
  /\ (fst (logger.Handle (logger.MultiHandler hs) r) = None
      <-> forall h, In h hs -> logger.Enabled h (logger.EntryLevel r) = true ->
                    fst (logger.Handle h r) = None)
  /\ (logger.Enabled (logger.MultiHandler hs) (logger.EntryLevel r) = false ->
      logger.Handle (logger.MultiHandler hs) r = (None, [])).
Proof.
  intros enabled errors.
  assert (HH : logger.Handle (logger.MultiHandler hs) r
               = (last errors, flat_map (fun h => snd (logger.Handle h r)) enabled)).
  { cbn [logger.Handle logger.MultiHandler]. unfold logger.MultiHandler_Handle.
    rewrite MultiHandler_Handle_fold. cbn [app]. fold enabled. fold errors.
    now destruct (last errors). }
  split; [|split; [|split; [|split]]].
  - intros level. cbn [logger.Enabled logger.MultiHandler].
    rewrite MultiHandler_Enabled_existsb. apply existsb_exists.
  - now rewrite HH.
  - now rewrite HH.
  - rewrite HH. cbn [fst]. subst errors enabled. split.
    + intros Hl h Hin Hen.
      destruct (fst (logger.Handle h r)) as [e|] eqn:E; [|reflexivity].
      assert (Hin' : In e (flat_map (fun h => option_list (fst (logger.Handle h r)))
                             (List.filter (fun h => logger.Enabled h (logger.EntryLevel r))
                                hs))).
      { apply in_flat_map. exists h. split; [apply List.filter_In; now split|].
        rewrite E. now left. }
      destruct (flat_map _ _) as [|x l]; [destruct Hin'|].
      apply last_None in Hl. discriminate.
    + intros Hall. apply last_None. clear HH.
      induction hs as [|h hs IH]; [reflexivity|]. cbn [List.filter].
      destruct (logger.Enabled h (logger.EntryLevel r)) eqn:Eh.
      * cbn [flat_map]. rewrite (Hall h (or_introl eq_refl) Eh).
        change (option_list None ++ ?x) with x.
        apply IH. intros h' Hin. apply Hall. now right.
      * apply IH. intros h' Hin. apply Hall. now right.
  - intros Hdis. rewrite HH. cbn [logger.Enabled logger.MultiHandler] in Hdis.
    rewrite MultiHandler_Enabled_existsb in Hdis.
    assert (He : enabled = []).
    { subst enabled. clear HH errors. induction hs as [|h hs IH]; [reflexivity|].
      cbn [existsb] in Hdis. apply orb_false_iff in Hdis. destruct Hdis as [H1 H2].
      cbn [List.filter]. rewrite H1. now apply IH. }
    subst errors. rewrite He. reflexivity.
Qed.

Lemma getLogLevel_cases (level : string) :
  (level = "debug"%string /\ logger.getLogLevel level = logger.LevelDebug)
  \/ (level <> "debug"%string
      /\ (logger.getLogLevel level = logger.LevelInfo
          \/ (level = "warn"%string /\ logger.getLogLevel level = logger.LevelWarn)
          \/ (level = "error"%string /\ logger.getLogLevel level = logger.LevelError))).
Proof.
  unfold logger.getLogLevel.
  destruct (String.eqb_spec level "debug") as [-> | Hd]; [now left | right].
  split; [exact Hd|].
  destruct (String.eqb_spec level "info"); [now left|].
  destruct (String.eqb_spec level "warn") as [-> | _]; [right; left; now split|].
  destruct (String.eqb_spec level "error") as [-> | _]; [right; right; now split|].
  now left.
Qed.

(** X23: The logger [Init] sets up, when it sets one up: a record is written
    exactly when its level is at least the configured one, and then once to
    the log file and, when standard output is enabled, once more there,
    whether or not the file write failed; records at error level are always
    written, records at debug level only when the level is spelled
    [debug]; a level that is not one of the four names counts as info. *)
Theorem Init_logger (writeError : logger.Sink -> option error)
    (cfg : logger.LogConfig) (r : logger.Entry) :
  exists h,
    logger.Init false writeError cfg = Some h
    /\ logger.log h r
       = (if logger.getLogLevel (logger.Level cfg) <=? logger.EntryLevel r
          then (logger.LogFile (logger.File cfg), r) ::
               (if logger.Stdout cfg then [(logger.StandardOutput, r)] else [])
          else [])
    /\ logger.Enabled h logger.LevelError = true
    /\ (logger.Enabled h logger.LevelDebug = true <-> logger.Level cfg = "debug"%string)
    /\ (logger.Level cfg <> "debug"%string -> logger.Level cfg <> "warn"%string ->
        logger.Level cfg <> "error"%string ->
        forall level, logger.Enabled h level = (logger.LevelInfo <=? level)).
Proof.
  unfold logger.Init. cbn [negb].
  assert (Hlev : forall level,
            (if logger.Stdout cfg
             then logger.MultiHandler_Enabled
                    [logger.NewJSONHandler writeError (logger.LogFile (logger.File cfg))
                       (logger.getLogLevel (logger.Level cfg));
                     logger.NewJSONHandler writeError logger.StandardOutput
                       (logger.getLogLevel (logger.Level cfg))] level
             else logger.getLogLevel (logger.Level cfg) <=? level)
            = (logger.getLogLevel (logger.Level cfg) <=? level)).
  { intros level. destruct (logger.Stdout cfg); [|reflexivity].
    cbn. now destruct (_ <=? _). }
  destruct (logger.Stdout cfg) eqn:Es; cbn [app length Nat.ltb Nat.leb head];
    eexists; (split; [reflexivity|]).
  - specialize (Hlev). cbn [logger.Enabled logger.MultiHandler].
    split; [|split; [|split]].
    + unfold logger.log. cbn [logger.Enabled logger.MultiHandler]. rewrite Hlev.
      destruct (_ <=? _) eqn:El; [|reflexivity].
      cbv [logger.Handle logger.MultiHandler logger.MultiHandler_Handle
           logger.NewJSONHandler logger.Enabled fold_left].
      rewrite !El. reflexivity.
    + rewrite Hlev. destruct (getLogLevel_cases (logger.Level cfg))
        as [[_ ->] | [_ [-> | [[_ ->] | [_ ->]]]]]; reflexivity.
    + rewrite Hlev. destruct (getLogLevel_cases (logger.Level cfg))
        as [[E ->] | [NE [-> | [[_ ->] | [_ ->]]]]]; cbn; split; congruence.
    + intros H1 H2 H3 level. rewrite Hlev.
      destruct (getLogLevel_cases (logger.Level cfg))
        as [[E _] | [_ [-> | [[E _] | [E _]]]]]; congruence.
  - cbn [logger.Enabled logger.NewJSONHandler].
    split; [|split; [|split]].
    + unfold logger.log. cbn. now destruct (_ <=? _).
    + destruct (getLogLevel_cases (logger.Level cfg))
        as [[_ ->] | [_ [-> | [[_ ->] | [_ ->]]]]]; reflexivity.
    + destruct (getLogLevel_cases (logger.Level cfg))
        as [[E ->] | [NE [-> | [[_ ->] | [_ ->]]]]]; cbn; split; congruence.
    + intros H1 H2 H3 level.
      destruct (getLogLevel_cases (logger.Level cfg))
        as [[E _] | [_ [-> | [[E _] | [E _]]]]]; congruence.
Qed.

(** ** The Teams message *)

Lemma repoFacts_spec (m : gmap Z (list Participant)) (prs : list PullRequest)
    (acc : list teams.Fact) :
  match teams.repoFacts m prs acc with
  | Some fs => length fs = (length acc + length prs)%nat
               /\ forall pr, In pr prs -> LinksSelf pr <> []
  | None => exists pr, In pr prs /\ LinksSelf pr = []
  end.
Proof.
  revert acc; induction prs as [|pr prs IH]; intros acc; cbn [teams.repoFacts].
  - split; [cbn; lia | intros pr []].
  - unfold teams.fact. destruct (bitbucket.CountApprovals _) as [a t].
    destruct (LinksSelf pr) as [|self l] eqn:E; cbn.
    + exists pr. split; [now left | exact E].
    + match goal with
      | |- context [teams.repoFacts m prs (acc ++ [?f])] => specialize (IH (acc ++ [f]))
      end.
      destruct (teams.repoFacts m prs _) as [fs|].
      * destruct IH as [Hl Hs]. rewrite length_app in Hl. cbn [length] in Hl.
        split; [cbn [length]; lia|]. intros q [<- | Hq]; [congruence | auto].
      * destruct IH as (q & Hq & Hnil). exists q. split; [now right | exact Hnil].
Qed.

Lemma repoSections_spec (m : gmap Z (list Participant))
    (ranged : list (string * list PullRequest)) (acc : list teams.Section) :
  match teams.repoSections m ranged acc with
  | Some ss =>
      exists new,
        ss = acc ++ new
        /\ length new = length ranged
        /\ length (flat_map (fun s => default [] (teams.facts s)) new)
           = length (flat_map snd ranged)
        /\ forall pr, In pr (flat_map snd ranged) -> LinksSelf pr <> []
  | None => exists pr, In pr (flat_map snd ranged) /\ LinksSelf pr = []
  end.
Proof.
  revert acc; induction ranged as [|[repo prs] rest IH]; intros acc;
    cbn [teams.repoSections flat_map snd].
  - exists []. rewrite app_nil_r. split; [reflexivity|]. split; [reflexivity|].
    split; [reflexivity | intros pr []].
  - pose proof (repoFacts_spec m prs []) as F.
    destruct (teams.repoFacts m prs []) as [fs|]; cbn.
    + destruct F as [Hl Hs]. cbn [length Nat.add] in Hl.
      match goal with
      | |- context [teams.repoSections m rest (acc ++ [?s])] =>
          specialize (IH (acc ++ [s])); set (sec := s) in *
      end.
      destruct (teams.repoSections m rest (acc ++ [sec])) as [ss|].
      * destruct IH as (new & -> & Hn & Hf & Hs').
        exists (sec :: new). rewrite <- app_assoc. split; [reflexivity|].
        split; [cbn [length]; lia|]. split.
        -- cbn [flat_map]. rewrite !length_app, Hf. subst sec. cbn. lia.
        -- intros pr Hin. apply in_app_or in Hin. destruct Hin; auto.
      * destruct IH as (pr & Hin & Hnil). exists pr. split; [|exact Hnil].
        apply in_or_app. now right.
    + destruct F as (pr & Hin & Hnil). exists pr. split; [|exact Hnil].
      apply in_or_app. now left.
Qed.

Lemma generateTeamsPayload_spec (ranged : list (string * list PullRequest))
    (allPRs : list PullRequest) (m : gmap Z (list Participant)) (days : Z) :
  match teams.generateTeamsPayload ranged allPRs m days with
  | Some p =>
      length (teams.sections p) = (length ranged + 2)%nat
      /\ length (listedFacts p) = length (flat_map snd ranged)
      /\ (forall pr, In pr (flat_map snd ranged) -> LinksSelf pr <> [])
      /\ teams.summary p
         = ("Stale Pull Requests Alert - " ++ teams.Itoa (Z.of_nat (length allPRs))
            ++ " PRs need attention")%string
  | None => exists pr, In pr (flat_map snd ranged) /\ LinksSelf pr = []
  end.
Proof.
  unfold teams.generateTeamsPayload.
  pose proof (repoSections_spec m ranged []) as S.
  destruct (teams.repoSections m ranged []) as [ss|]; cbn; [|exact S].
  destruct S as (new & -> & Hn & Hf & Hs). cbn [app].
  split; [rewrite length_app; cbn [length]; lia|]. split; [|split; [exact Hs | reflexivity]].
  unfold listedFacts. cbn [teams.sections tail]. now rewrite removelast_last.
Qed.

(** X24: The Teams message on its own: building it panics exactly when one of
    the pull requests of the lists per repository has no self link;
    otherwise it has one section per entry of the map between the header
    and the summary, with one fact per pull request. *)
Theorem Teams_message_shape (ranged : list (string * list PullRequest))
    (allPRs : list PullRequest) (m : gmap Z (list Participant)) (days : Z) :
  (teams.generateTeamsPayload ranged allPRs m days = None
   <-> exists pr, In pr (flat_map snd ranged) /\ LinksSelf pr = [])
  /\ forall p, teams.generateTeamsPayload ranged allPRs m days = Some p ->
       length (teams.sections p) = (length ranged + 2)%nat
       /\ length (listedFacts p) = length (flat_map snd ranged).
Proof.
  pose proof (generateTeamsPayload_spec ranged allPRs m days) as S.
  destruct (teams.generateTeamsPayload ranged allPRs m days) as [p|].
  - destruct S as (H1 & H2 & H3 & _). split.
    + split; [discriminate|]. intros (pr & Hin & Hnil). now apply H3 in Hin.
    + intros q E. injection E as <-. now split.
  - split; [now split | discriminate].
Qed.

(** X25: The Teams message of a check cycle, whatever the order in which the
    map is visited: the number of pull requests it announces in its
    summary is the number of facts it lists, the number of pull requests
    of the batch; and building it panics exactly when a pull request of
    the batch has no self link. *)
Theorem Teams_message_of_a_cycle (cfg : config.Config) (env : main.Env)
    (w : main.World) (ranged : list (string * list PullRequest)) :
  let b := fst (main.cycle cfg env w) in
  let message :=
    teams.generateTeamsPayload ranged (main.allPRsToNotify b) (main.prParticipants b)
      (config.StaleAfterDays (config.PRFilter cfg)) in
  Permutation ranged (map_to_list (main.repoPRsToNotify b)) ->
  (message = None <-> exists pr, In pr (main.allPRsToNotify b) /\ LinksSelf pr = [])
  /\ forall p, message = Some p ->
       length (listedFacts p) = length (main.allPRsToNotify b)
       /\ teams.summary p
          = ("Stale Pull Requests Alert - "
             ++ teams.Itoa (Z.of_nat (length (listedFacts p)))
             ++ " PRs need attention")%string.
Proof.
  intros b message Hperm.
  assert (Hall : Permutation (main.allPRsToNotify b) (flat_map snd ranged)).
  { rewrite (Permutation_flat_map snd Hperm).
    apply (cycle_grouping cfg env). unfold main.emptyBatch.
    cbn [main.allPRsToNotify main.repoPRsToNotify]. now rewrite map_to_list_empty. }
  pose proof (generateTeamsPayload_spec ranged (main.allPRsToNotify b)
                (main.prParticipants b) (config.StaleAfterDays (config.PRFilter cfg))) as S.
  fold message in S. destruct message as [p|].
  - destruct S as (_ & H2 & H3 & H4). split.
    + split; [discriminate|]. intros (pr & Hin & Hnil).
      apply (Permutation_in _ Hall), H3 in Hin. contradiction.
    + intros q E. injection E as <-.
      assert (Hlen : length (listedFacts p) = length (main.allPRsToNotify b))
        by (rewrite H2; symmetry; now apply Permutation_length).
      split; [exact Hlen|]. now rewrite Hlen.
  - destruct S as (pr & Hin & Hnil). split; [|discriminate].
    split; [|reflexivity]. intros _. exists pr. split; [|exact Hnil].
    apply (Permutation_in _ (Permutation_sym Hall)), Hin.
Qed.

Lemma Teams_message_of_a_cycle_witness :
  let b := fst (main.cycle scenario.cfg (scenario.env None) scenario.world) in
  exists p,
    teams.generateTeamsPayload (map_to_list (main.repoPRsToNotify b))
      (main.allPRsToNotify b) (main.prParticipants b) 5 = Some p
    /\ length (listedFacts p) = 1%nat.
Proof.
  intros b.
  destruct (Teams_message_of_a_cycle scenario.cfg (scenario.env None) scenario.world
              (map_to_list (main.repoPRsToNotify b)) (Permutation_refl _)) as [Hnone Hsome].
  fold b in Hnone, Hsome.
  change (config.StaleAfterDays (config.PRFilter scenario.cfg)) with 5 in Hnone, Hsome.
  destruct (teams.generateTeamsPayload (map_to_list (main.repoPRsToNotify b))
              (main.allPRsToNotify b) (main.prParticipants b) 5) as [p|].
  - exists p. split; [reflexivity|]. now destruct (Hsome p eq_refl) as [-> _].
  - destruct (proj1 Hnone eq_refl) as (pr & Hin & Hnil).
    vm_compute in Hin. destruct Hin as [<- | []]. discriminate Hnil.
Defined.
